(** * StoryApp: offline write queue, sync and connectivity monitor

    A shallow embedding of [src/services/offlineService.ts] and of
    [createStory] from [src/services/storyService.ts].

    Asynchronous functions are embedded as finite programs over the calls
    they await (AsyncStorage, Firestore [addDoc], NetInfo, the clock and the
    random source).  A program is run either serially (each awaited call
    completes before the next one is issued) or under an explicit schedule
    that interleaves the tasks started by [Array.map(async ...)] and awaited
    with [Promise.allSettled]. *)

From Stdlib Require Import List String ZArith QArith Lia Bool Ascii Arith.
From Stdlib Require Import DecimalString.
Import ListNotations.

Set Implicit Arguments.
Set Warnings "-register-all".
Local Open Scope string_scope.

(* ===================================================================== *)
(** ** JavaScript values the services exchange *)
(* ===================================================================== *)

Module Js.

(** A thrown value.  The services only ever look at [code] and [message];
    [ServiceError] objects carry the caught error as [details]. *)
Inductive Exn : Type :=
| MkExn (code : option string) (message : option string) (details : option Exn).

Definition exn_code (e : Exn) : option string :=
  match e with MkExn c _ _ => c end.

Definition exn_message (e : Exn) : option string :=
  match e with MkExn _ m _ => m end.

Definition exn_details (e : Exn) : option Exn :=
  match e with MkExn _ _ d => d end.

(** [{ code, message, details: error } as ServiceError] *)
Definition ServiceError (code message : string) (details : Exn) : Exn :=
  MkExn (Some code) (Some message) (Some details).

(** The settled state of a promise: fulfilled with a value or rejected. *)
Inductive Result (A : Type) : Type :=
| Ok (a : A)
| Err (e : Exn).

Arguments Ok {A} a.
Arguments Err {A} e.

Definition is_ok {A : Type} (r : Result A) : bool :=
  match r with Ok _ => true | Err _ => false end.

(** [String.prototype.includes] *)
Fixpoint includes (s needle : string) : bool :=
  String.prefix needle s
  || match s with
     | EmptyString => false
     | String _ s' => includes s' needle
     end.

(** [x ?? false] and [x || false] on a [boolean | null] agree. *)
Definition or_false (x : option bool) : bool :=
  match x with Some b => b | None => false end.

(** Decimal rendering of an integral number, as in a template literal. *)
Definition number_toString (n : Z) : string :=
  NilZero.string_of_int (Z.to_int n).

End Js.

Import Js.

(* ===================================================================== *)
(** ** Data model ([src/types/index.ts]) *)
(* ===================================================================== *)

Record LocationData : Type := {
  latitude : Q;
  longitude : Q;
  accuracy : Q;
  location_timestamp : Q
}.

Record StoryCreateData : Type := {
  title : string;
  content : string;
  category : string;
  categoryId : string;
  location : option LocationData
}.

Record PendingStory : Type := {
  id : string;
  storyData : StoryCreateData;
  timestamp : Z;
  retryCount : Z
}.

Record NetworkStatus : Type := {
  isConnected : bool;
  isInternetReachable : bool
}.

(** The state object NetInfo hands out: both flags are [boolean | null]. *)
Record NetInfoState : Type := {
  netinfo_isConnected : option bool;
  netinfo_isInternetReachable : option bool
}.

(** The document [addDoc] receives.  [timestamp: serverTimestamp()] is a
    sentinel filled in by the server and is not represented. *)
Record StoryDoc : Type := {
  storyId : string;
  doc_title : string;
  doc_content : string;
  doc_category : string;
  doc_categoryId : string;
  doc_location : option LocationData;
  popularity : Z;
  Like : Z;
  Dislike : Z
}.

Definition PENDING_STORIES_KEY : string := "pending_stories".
Definition MAX_RETRY_COUNT : Z := 3.

(** What is kept under [PENDING_STORIES_KEY]: the array that
    [JSON.stringify] wrote and [JSON.parse] gives back. *)
Definition Blob : Type := list PendingStory.

(* ===================================================================== *)
(** ** Asynchronous programs *)
(* ===================================================================== *)

(** A program is a tree of awaited calls; each continuation receives the
    settled result of the call.  [AllSettled ts k] awaits
    [Promise.allSettled] of the already started tasks [ts]. *)
Inductive Prog (A : Type) : Type :=
| Ret (a : A)
| Throw (e : Exn)
| GetItem (k : Result (option Blob) -> Prog A)
| SetItem (v : Blob) (k : Result unit -> Prog A)
| RemoveItem (k : Result unit -> Prog A)
| AddDoc (d : StoryDoc) (k : Result string -> Prog A)
| DateNow (k : Z -> Prog A)
| MathRandom (k : string -> Prog A)
| NetInfoFetch (k : Result NetInfoState -> Prog A)
| AllSettled (ts : list (Prog unit)) (k : list (Result unit) -> Prog A).

Arguments Ret {A} a.
Arguments Throw {A} e.
Arguments GetItem {A} k.
Arguments SetItem {A} v k.
Arguments RemoveItem {A} k.
Arguments AddDoc {A} d k.
Arguments DateNow {A} k.
Arguments MathRandom {A} k.
Arguments NetInfoFetch {A} k.
Arguments AllSettled {A} ts k.

(** [await p]: resume with the value, or throw the rejection reason. *)
Definition settle {A : Type} (r : Result A) : Prog A :=
  match r with Ok a => Ret a | Err e => Throw e end.

Fixpoint bind {A B : Type} (p : Prog A) (f : A -> Prog B) : Prog B :=
  match p with
  | Ret a => f a
  | Throw e => Throw e
  | GetItem k => GetItem (fun r => bind (k r) f)
  | SetItem v k => SetItem v (fun r => bind (k r) f)
  | RemoveItem k => RemoveItem (fun r => bind (k r) f)
  | AddDoc d k => AddDoc d (fun r => bind (k r) f)
  | DateNow k => DateNow (fun r => bind (k r) f)
  | MathRandom k => MathRandom (fun r => bind (k r) f)
  | NetInfoFetch k => NetInfoFetch (fun r => bind (k r) f)
  | AllSettled ts k => AllSettled ts (fun rs => bind (k rs) f)
  end.

(** [try { p } catch (error) { h error }] *)
Fixpoint try_catch {A : Type} (p : Prog A) (h : Exn -> Prog A) : Prog A :=
  match p with
  | Ret a => Ret a
  | Throw e => h e
  | GetItem k => GetItem (fun r => try_catch (k r) h)
  | SetItem v k => SetItem v (fun r => try_catch (k r) h)
  | RemoveItem k => RemoveItem (fun r => try_catch (k r) h)
  | AddDoc d k => AddDoc d (fun r => try_catch (k r) h)
  | DateNow k => DateNow (fun r => try_catch (k r) h)
  | MathRandom k => MathRandom (fun r => try_catch (k r) h)
  | NetInfoFetch k => NetInfoFetch (fun r => try_catch (k r) h)
  | AllSettled ts k => AllSettled ts (fun rs => try_catch (k rs) h)
  end.

Declare Scope prog_scope.
Delimit Scope prog_scope with prog.
Notation "x <- p ;; q" := (bind p (fun x => q))
  (at level 61, p at next level, right associativity) : prog_scope.
Notation "p ;; q" := (bind p (fun _ => q))
  (at level 61, right associativity) : prog_scope.
Notation "'TRY' p 'CATCH' x => h" := (try_catch p (fun x => h))
  (at level 62, p at level 61, x name, h at level 61) : prog_scope.
Local Open Scope prog_scope.

Definition AsyncStorage_getItem : Prog (option Blob) := GetItem settle.
Definition AsyncStorage_setItem (v : Blob) : Prog unit := SetItem v settle.
Definition AsyncStorage_removeItem : Prog unit := RemoveItem settle.
Definition addDoc (d : StoryDoc) : Prog string := AddDoc d settle.
Definition Date_now : Prog Z := DateNow Ret.
Definition Math_random_suffix : Prog string := MathRandom Ret.
Definition NetInfo_fetch : Prog NetInfoState := NetInfoFetch settle.

(* ===================================================================== *)
(** ** The environment and the world *)
(* ===================================================================== *)

(** What the platform answers to the [n]-th call a run makes.
    [entropy] stands for [Math.random().toString(36).substr(2, 9)]. *)
Record Env : Type := {
  storage_fault : nat -> option Exn;
  remote_write : nat -> StoryDoc -> Result string;
  clock : nat -> Z;
  entropy : nat -> string;
  reachability : nat -> Result NetInfoState
}.

(** [storage]: the value under [PENDING_STORIES_KEY] ([None]: no such key).
    [stories]: documents created in the remote collection.
    [attempts]: every document [addDoc] was called with.
    [tick]: number of calls answered so far. *)
Record World : Type := {
  storage : option Blob;
  stories : list StoryDoc;
  attempts : list StoryDoc;
  tick : nat
}.

Definition set_storage (v : option Blob) (w : World) : World :=
  {| storage := v; stories := stories w; attempts := attempts w; tick := S (tick w) |}.

Definition next_tick (w : World) : World :=
  {| storage := storage w; stories := stories w; attempts := attempts w; tick := S (tick w) |}.

Definition record_write (d : StoryDoc) (ok : bool) (w : World) : World :=
  {| storage := storage w;
     stories := if ok then stories w ++ [d] else stories w;
     attempts := attempts w ++ [d];
     tick := S (tick w) |}.

Definition do_getItem (env : Env) (w : World) : Result (option Blob) * World :=
  match storage_fault env (tick w) with
  | Some e => (Err e, next_tick w)
  | None => (Ok (storage w), next_tick w)
  end.

Definition do_setItem (env : Env) (v : Blob) (w : World) : Result unit * World :=
  match storage_fault env (tick w) with
  | Some e => (Err e, next_tick w)
  | None => (Ok tt, set_storage (Some v) w)
  end.

Definition do_removeItem (env : Env) (w : World) : Result unit * World :=
  match storage_fault env (tick w) with
  | Some e => (Err e, next_tick w)
  | None => (Ok tt, set_storage None w)
  end.

Definition do_addDoc (env : Env) (d : StoryDoc) (w : World) : Result string * World :=
  let r := remote_write env (tick w) d in
  (r, record_write d (is_ok r) w).

(** A task that is settled has nothing left to await. *)
Definition settled {A : Type} (p : Prog A) : option (Result A) :=
  match p with
  | Ret a => Some (Ok a)
  | Throw e => Some (Err e)
  | _ => None
  end.

Fixpoint all_settled {A : Type} (ts : list (Prog A)) : option (list (Result A)) :=
  match ts with
  | [] => Some []
  | t :: ts' =>
      match settled t, all_settled ts' with
      | Some r, Some rs => Some (r :: rs)
      | _, _ => None
      end
  end.

(** *** Serial runs *)

(** Every awaited call completes before the next is issued; the tasks of an
    [AllSettled] run one after another, each to its end. *)
Fixpoint run {A : Type} (env : Env) (p : Prog A) (w : World) : Result A * World :=
  match p with
  | Ret a => (Ok a, w)
  | Throw e => (Err e, w)
  | GetItem k => let '(r, w') := do_getItem env w in run env (k r) w'
  | SetItem v k => let '(r, w') := do_setItem env v w in run env (k r) w'
  | RemoveItem k => let '(r, w') := do_removeItem env w in run env (k r) w'
  | AddDoc d k => let '(r, w') := do_addDoc env d w in run env (k r) w'
  | DateNow k => run env (k (clock env (tick w))) (next_tick w)
  | MathRandom k => run env (k (entropy env (tick w))) (next_tick w)
  | NetInfoFetch k => run env (k (reachability env (tick w))) (next_tick w)
  | AllSettled ts k =>
      let fix run_tasks (ts : list (Prog unit)) (w : World)
          : list (Result unit) * World :=
        match ts with
        | [] => ([], w)
        | t :: ts' =>
            let '(r, w1) := run env t w in
            let '(rs, w2) := run_tasks ts' w1 in
            (r :: rs, w2)
        end in
      let '(rs, w') := run_tasks ts w in
      run env (k rs) w'
  end.

(** *** Scheduled runs *)

(** One step resumes the task a path points at: in [AllSettled ts k] the
    head of the path picks a task and the tail is passed on to it; once
    every task is settled, the step resumes [k]. *)
Fixpoint step {A : Type} (env : Env) (path : list nat) (p : Prog A) (w : World)
  {struct p} : Prog A * World :=
  match p with
  | Ret _ | Throw _ => (p, w)
  | GetItem k => let '(r, w') := do_getItem env w in (k r, w')
  | SetItem v k => let '(r, w') := do_setItem env v w in (k r, w')
  | RemoveItem k => let '(r, w') := do_removeItem env w in (k r, w')
  | AddDoc d k => let '(r, w') := do_addDoc env d w in (k r, w')
  | DateNow k => (k (clock env (tick w)), next_tick w)
  | MathRandom k => (k (entropy env (tick w)), next_tick w)
  | NetInfoFetch k => (k (reachability env (tick w)), next_tick w)
  | AllSettled ts k =>
      match all_settled ts with
      | Some rs => (k rs, w)
      | None =>
          match path with
          | [] => (p, w)
          | i :: path' =>
              let fix step_nth (ts : list (Prog unit)) (i : nat) {struct ts}
                  : list (Prog unit) * World :=
                match ts with
                | [] => ([], w)
                | t :: ts' =>
                    match i with
                    | O => let '(t', w') := step env path' t w in (t' :: ts', w')
                    | S j => let '(ts'', w') := step_nth ts' j in (t :: ts'', w')
                    end
                end in
              let '(ts', w') := step_nth ts i in
              (AllSettled ts' k, w')
          end
      end
  end.

(** A schedule is the list of paths to follow, one per step. *)
Fixpoint exec {A : Type} (env : Env) (sched : list (list nat)) (p : Prog A) (w : World)
  : Prog A * World :=
  match sched with
  | [] => (p, w)
  | path :: sched' => let '(p', w') := step env path p w in exec env sched' p' w'
  end.

(* ===================================================================== *)
(** ** [OfflineServiceImpl]: the pending-story store *)
(* ===================================================================== *)

Definition STORAGE_ERROR (message : string) (error : Exn) : Exn :=
  ServiceError "STORAGE_ERROR" message error.

(** [getPendingStories]: the stored array, or [[]] when nothing is stored. *)
Definition getPendingStories : Prog (list PendingStory) :=
  TRY
    (pendingStoriesJson <- AsyncStorage_getItem ;;
     match pendingStoriesJson with
     | Some parsed => Ret parsed
     | None => Ret []
     end)
  CATCH error =>
    Throw (STORAGE_ERROR "Failed to retrieve pending stories from storage" error).

(** [`pending_${Date.now()}_${Math.random().toString(36).substr(2, 9)}`] *)
Definition pending_id (now : Z) (suffix : string) : string :=
  "pending_" ++ number_toString now ++ "_" ++ suffix.

(** [addPendingStory] *)
Definition addPendingStory (data : StoryCreateData) : Prog string :=
  TRY
    (pendingStories <- getPendingStories ;;
     now <- Date_now ;;
     suffix <- Math_random_suffix ;;
     stamp <- Date_now ;;
     let pendingStory :=
       {| id := pending_id now suffix;
          storyData := data;
          timestamp := stamp;
          retryCount := 0 |} in
     AsyncStorage_setItem (pendingStories ++ [pendingStory])%list ;;
     Ret (id pendingStory))
  CATCH error =>
    Throw (STORAGE_ERROR "Failed to save story offline" error).

(** [pendingStories.filter(story => story.id !== id)] *)
Definition without_id (i : string) (l : list PendingStory) : list PendingStory :=
  filter (fun story => negb (id story =? i)) l.

(** [removePendingStory] *)
Definition removePendingStory (i : string) : Prog unit :=
  TRY
    (pendingStories <- getPendingStories ;;
     let updatedStories := without_id i pendingStories in
     AsyncStorage_setItem updatedStories)
  CATCH error =>
    Throw (STORAGE_ERROR "Failed to remove pending story from storage" error).

(** [clearPendingStories] *)
Definition clearPendingStories : Prog unit :=
  TRY AsyncStorage_removeItem
  CATCH error =>
    Throw (STORAGE_ERROR "Failed to clear pending stories from storage" error).

(** [getPendingStoriesCount]: a storage failure counts as zero. *)
Definition getPendingStoriesCount : Prog nat :=
  TRY (pendingStories <- getPendingStories ;; Ret (List.length pendingStories))
  CATCH error => Ret 0%nat.

(* ===================================================================== *)
(** ** [OfflineServiceImpl]: the sync pass *)
(* ===================================================================== *)

(** [Date.now().toString() + Math.random().toString(36).substr(2, 9)] *)
Definition unique_id (now : Z) (suffix : string) : string :=
  number_toString now ++ suffix.

(** The document literal built from a payload. *)
Definition story_doc (uniqueId : string) (data : StoryCreateData) : StoryDoc :=
  {| storyId := uniqueId;
     doc_title := title data;
     doc_content := content data;
     doc_category := category data;
     doc_categoryId := categoryId data;
     doc_location := location data;
     popularity := 0;
     Like := 0;
     Dislike := 0 |}.

Definition with_retryCount (n : Z) (s : PendingStory) : PendingStory :=
  {| id := id s; storyData := storyData s; timestamp := timestamp s; retryCount := n |}.

(** [updatedStories.find(s => s.id === id)] followed by
    [updatedStory.retryCount++]: the found object is an element of the
    array, so the array holds the incremented entry afterwards. *)
Fixpoint increment_found (i : string) (l : list PendingStory) : list PendingStory :=
  match l with
  | [] => []
  | s :: l' =>
      if id s =? i then with_retryCount (retryCount s + 1) s :: l'
      else s :: increment_found i l'
  end.

(** The callback handed to [pendingStories.map]. *)
Definition syncStory (pendingStory : PendingStory) : Prog unit :=
  TRY
    (if MAX_RETRY_COUNT <=? retryCount pendingStory then
       removePendingStory (id pendingStory)
     else
       now <- Date_now ;;
       suffix <- Math_random_suffix ;;
       let uniqueId := unique_id now suffix in
       let storyDoc := story_doc uniqueId (storyData pendingStory) in
       addDoc storyDoc ;;
       removePendingStory (id pendingStory))%Z
  CATCH error =>
    (updatedStories <- getPendingStories ;;
     match find (fun s => id s =? id pendingStory) updatedStories with
     | Some updatedStory =>
         AsyncStorage_setItem (increment_found (id pendingStory) updatedStories)
     | None => Ret tt
     end).

(** [syncPendingStories] *)
Definition syncPendingStories : Prog unit :=
  TRY
    (pendingStories <- getPendingStories ;;
     if (List.length pendingStories =? 0)%nat then Ret tt
     else
       let syncPromises := map syncStory pendingStories in
       AllSettled syncPromises (fun _ => Ret tt))
  CATCH error =>
    Throw (ServiceError "SYNC_ERROR" "Failed to sync pending stories" error).

(** [forceSyncPendingStories] *)
Definition forceSyncPendingStories : Prog unit :=
  syncPendingStories ;; Ret tt.

(** Calls made without awaiting one another, e.g. the reconnection handler's
    [this.syncPendingStories()] and a [forceSyncPendingStories()] from the
    user interface. *)
Definition concurrently (calls : list (Prog unit)) : Prog (list (Result unit)) :=
  AllSettled calls (fun rs => Ret rs).

(** [getNetworkStatus] *)
Definition getNetworkStatus : Prog NetworkStatus :=
  TRY
    (netInfo <- NetInfo_fetch ;;
     Ret {| isConnected := or_false (netinfo_isConnected netInfo);
            isInternetReachable := or_false (netinfo_isInternetReachable netInfo) |})
  CATCH error =>
    Ret {| isConnected := false; isInternetReachable := false |}.

(* ===================================================================== *)
(** ** [OfflineServiceImpl]: connectivity state and listeners *)
(* ===================================================================== *)

(** A listener is a function object: the service calls it, and compares
    it by identity ([indexOf]).  A number stands for that identity; what the
    function does when it is called is its [Reaction]. *)
Definition Listener : Type := nat.

(** What the service did, in order: a listener call with its argument, or
    a call of [this.syncPendingStories()] that is not awaited. *)
Inductive Effect : Type :=
| Called (listener : Listener) (status : NetworkStatus)
| SyncStarted.

(** The fields of the service object, and the effects so far. *)
Record Service : Type := {
  svc_isConnected : bool;
  networkListeners : list Listener;
  netinfo_subscribed : bool;
  effects : list Effect
}.

(** Field initialisers of the class. *)
Definition new_service : Service :=
  {| svc_isConnected := true;
     networkListeners := [];
     netinfo_subscribed := false;
     effects := [] |}.

(** The object literal both [notifyNetworkListeners] and
    [subscribeToNetworkStatus] build. *)
Definition status_of (svc : Service) : NetworkStatus :=
  {| isConnected := svc_isConnected svc;
     isInternetReachable := svc_isConnected svc |}.

(** [(state.isConnected ?? false) && (state.isInternetReachable ?? false)] *)
Definition online (state : NetInfoState) : bool :=
  or_false (netinfo_isConnected state) && or_false (netinfo_isInternetReachable state).

(** What a call of a listener does, as far as the service object can
    tell.  The listener returns or throws; before that it may call back into
    the service: [subscribeToNetworkStatus] of a listener, which is called
    at once and reacts as [nested], or the unsubscribe closure of a
    listener.  [rest] is what the listener does after such a call, whether
    the call returned or threw. *)
Inductive Reaction : Type :=
| Returns
| Throws
| Subscribes (listener : Listener) (nested : Reaction) (rest : Reaction)
| Unsubscribes (listener : Listener) (rest : Reaction).

(** How the listeners behave: the reaction of a listener to a call with a
    status, made when [n] effects had been logged. *)
Definition Behaviour : Type := nat -> Listener -> NetworkStatus -> Reaction.

(** [this.networkListeners.push(listener)] *)
Definition push_listener (listener : Listener) (svc : Service) : Service :=
  {| svc_isConnected := svc_isConnected svc;
     networkListeners := (networkListeners svc ++ [listener])%list;
     netinfo_subscribed := netinfo_subscribed svc;
     effects := effects svc |}.

(** The call [listener({ isConnected: this.isConnected,
    isInternetReachable: this.isConnected })] is made. *)
Definition log_call (listener : Listener) (svc : Service) : Service :=
  {| svc_isConnected := svc_isConnected svc;
     networkListeners := networkListeners svc;
     netinfo_subscribed := netinfo_subscribed svc;
     effects := (effects svc ++ [Called listener (status_of svc)])%list |}.

(** [array.indexOf(x)] then [array.splice(index, 1)] when [index > -1]:
    the first occurrence goes, the rest stays. *)
Fixpoint splice_first (listener : Listener) (l : list Listener) : list Listener :=
  match l with
  | [] => []
  | x :: l' => if (x =? listener)%nat then l' else x :: splice_first listener l'
  end.

(** The closure [subscribeToNetworkStatus] returns. *)
Definition unsubscribe (listener : Listener) (svc : Service) : Service :=
  {| svc_isConnected := svc_isConnected svc;
     networkListeners := splice_first listener (networkListeners svc);
     netinfo_subscribed := netinfo_subscribed svc;
     effects := effects svc |}.

(** The body of a listener runs: the state it leaves, and whether it
    threw. *)
Fixpoint perform (reaction : Reaction) (svc : Service) : Service * bool :=
  match reaction with
  | Returns => (svc, false)
  | Throws => (svc, true)
  | Subscribes listener nested rest =>
      perform rest (fst (perform nested (log_call listener (push_listener listener svc))))
  | Unsubscribes listener rest =>
      perform rest (unsubscribe listener svc)
  end.

(** One call of a listener with the current status. *)
Definition call_listener (react : Behaviour) (listener : Listener) (svc : Service)
  : Service * bool :=
  perform (react (List.length (effects svc)) listener (status_of svc))
          (log_call listener svc).

(** [array.forEach(f)]: the indices below the length the array had at the
    start are visited in order; each reads the array as it then is, an index
    past its end is skipped, and a throw of [f] ends the loop. *)
Fixpoint forEach_from (react : Behaviour) (remaining index : nat) (svc : Service)
  : Service * bool :=
  match remaining with
  | O => (svc, false)
  | S remaining' =>
      match nth_error (networkListeners svc) index with
      | None => forEach_from react remaining' (S index) svc
      | Some listener =>
          let '(svc', threw) := call_listener react listener svc in
          if threw then (svc', true)
          else forEach_from react remaining' (S index) svc'
      end
  end.

(** [notifyNetworkListeners]: the state it leaves, and whether a listener's
    throw ended it. *)
Definition notifyNetworkListeners (react : Behaviour) (svc : Service) : Service * bool :=
  forEach_from react (List.length (networkListeners svc)) 0 svc.

(** The callback given to [NetInfo.addEventListener]; a listener's throw
    leaves it after the flag is set and the sync pass started. *)
Definition on_netinfo_event (react : Behaviour) (state : NetInfoState) (svc : Service)
  : Service * bool :=
  let wasConnected := svc_isConnected svc in
  let nowConnected := online state in
  let started := if negb wasConnected && nowConnected then [SyncStarted] else [] in
  notifyNetworkListeners react
    {| svc_isConnected := nowConnected;
       networkListeners := networkListeners svc;
       netinfo_subscribed := netinfo_subscribed svc;
       effects := (effects svc ++ started)%list |}.

(** [initializeNetworkListener], once [NetInfo.fetch()] has settled with
    [fetched]: a rejection is logged and no event listener is installed.
    The calls the platform then makes of the installed callback, the one it
    makes on registration included, are [netinfo_event]s. *)
Definition initializeNetworkListener (fetched : Result NetInfoState) (svc : Service)
  : Service :=
  match fetched with
  | Ok netInfo =>
      {| svc_isConnected := online netInfo;
         networkListeners := networkListeners svc;
         netinfo_subscribed := true;
         effects := effects svc |}
  | Err _ => svc
  end.

(** A platform event reaches the callback only once it is installed. *)
Definition netinfo_event (react : Behaviour) (state : NetInfoState) (svc : Service)
  : Service :=
  if netinfo_subscribed svc then fst (on_netinfo_event react state svc) else svc.

(** [subscribeToNetworkStatus]: the new state, and the closure returned
    unless the listener's immediate call threw. *)
Definition subscribeToNetworkStatus (react : Behaviour) (listener : Listener)
    (svc : Service) : Service * option (Service -> Service) :=
  let '(svc', threw) := call_listener react listener (push_listener listener svc) in
  (svc', if threw then None else Some (unsubscribe listener)).

(** [isOffline] *)
Definition isOffline (svc : Service) : bool := negb (svc_isConnected svc).

(* ===================================================================== *)
(** ** [StoryServiceImpl.createStory] *)
(* ===================================================================== *)

(** [error.code === 'unavailable' || error.message?.includes('network')] *)
Definition is_network_error (error : Exn) : bool :=
  match exn_code error with
  | Some c => c =? "unavailable"
  | None => false
  end
  || match exn_message error with
     | Some m => includes m "network"
     | None => false
     end.

Definition FIRESTORE_ERROR (error : Exn) : Exn :=
  ServiceError "FIRESTORE_ERROR" "Failed to create story in database" error.

(** [createStory], called while the offline service is in state [svc]. *)
Definition createStory (svc : Service) (data : StoryCreateData) : Prog string :=
  TRY
    (if isOffline svc then
       pendingId <- addPendingStory data ;;
       Ret pendingId
     else
       now <- Date_now ;;
       suffix <- Math_random_suffix ;;
       let uniqueId := unique_id now suffix in
       let storyDoc := story_doc uniqueId data in
       docRef_id <- addDoc storyDoc ;;
       Ret docRef_id)
  CATCH error =>
    (if is_network_error error then
       TRY (pendingId <- addPendingStory data ;; Ret pendingId)
       CATCH offlineError => Throw (FIRESTORE_ERROR error)
     else Throw (FIRESTORE_ERROR error)).

(* ===================================================================== *)
(** ** Notions used to state the properties *)
(* ===================================================================== *)

Local Open Scope nat_scope.
Local Open Scope list_scope.

(** What [getPendingStories] returns in world [w] when storage answers. *)
Definition stored (w : World) : list PendingStory :=
  match storage w with
  | Some l => l
  | None => []
  end.

(** AsyncStorage never rejects. *)
Definition storage_healthy (env : Env) : Prop :=
  forall n, storage_fault env n = None.

(** The tasks of an [AllSettled], run one after another. *)
Fixpoint run_all (env : Env) (ts : list (Prog unit)) (w : World)
  : list (Result unit) * World :=
  match ts with
  | [] => ([], w)
  | t :: ts' =>
      let '(r, w1) := run env t w in
      let '(rs, w2) := run_all env ts' w1 in
      (r :: rs, w2)
  end.

(** One step of the [i]-th task of a list. *)
Fixpoint step_task (env : Env) (i : nat) (path : list nat)
    (ts : list (Prog unit)) (w : World) {struct ts} : list (Prog unit) * World :=
  match ts with
  | [] => ([], w)
  | t :: ts' =>
      match i with
      | O => let '(t', w') := step env path t w in (t' :: ts', w')
      | S j => let '(ts'', w') := step_task env j path ts' w in (t :: ts'', w')
      end
  end.

(** The entry [addPendingStory] builds for a payload. *)
Definition new_entry (i : string) (data : StoryCreateData) (stamp : Z) : PendingStory :=
  {| id := i; storyData := data; timestamp := stamp; retryCount := 0 |}.

(** [l] holds exactly one entry with payload [data] and retry count 0. *)
Definition exactly_one_fresh (data : StoryCreateData) (l : list PendingStory) : Prop :=
  exists i e,
    nth_error l i = Some e /\ storyData e = data /\ retryCount e = 0%Z /\
    forall j e', nth_error l j = Some e' ->
                 storyData e' = data -> retryCount e' = 0%Z -> j = i.




(** What can happen to the service object. *)
Inductive Op : Type :=
| OpInitialized (fetched : Result NetInfoState)
| OpNetInfoEvent (state : NetInfoState)
| OpSubscribe (listener : Listener)
| OpUnsubscribe (listener : Listener).

Definition apply_op (react : Behaviour) (op : Op) (svc : Service) : Service :=
  match op with
  | OpInitialized fetched => initializeNetworkListener fetched svc
  | OpNetInfoEvent state => netinfo_event react state svc
  | OpSubscribe listener => fst (subscribeToNetworkStatus react listener svc)
  | OpUnsubscribe listener => unsubscribe listener svc
  end.

Definition apply_ops (react : Behaviour) (ops : list Op) (svc : Service) : Service :=
  fold_left (fun s op => apply_op react op s) ops svc.

(** Every listener returns, and calls nothing of the service from inside
    the call. *)
Definition quiet (react : Behaviour) : Prop :=
  forall n listener status, react n listener status = Returns.

(** The behaviour of listeners that only return. *)
Definition no_reaction : Behaviour := fun _ _ _ => Returns.

(** Listener [culprit] throws whenever it is called; the others return. *)
Definition throwing (culprit : Listener) : Behaviour :=
  fun _ listener _ => if listener =? culprit then Throws else Returns.

(** [svc'] is [svc] after listener calls: the flags are those of [svc],
    and the effects added are calls with the status of [svc]. *)
Definition notified (svc svc' : Service) : Prop :=
  svc_isConnected svc' = svc_isConnected svc /\
  netinfo_subscribed svc' = netinfo_subscribed svc /\
  exists ls, effects svc' = effects svc ++ map (fun l => Called l (status_of svc)) ls.

(** [svc] after the listeners [ls] were called in turn and returned. *)
Definition log_calls (ls : list Listener) (svc : Service) : Service :=
  {| svc_isConnected := svc_isConnected svc;
     networkListeners := networkListeners svc;
     netinfo_subscribed := netinfo_subscribed svc;
     effects := effects svc ++ map (fun l => Called l (status_of svc)) ls |}.

(** The statuses a listener was called with, oldest first. *)
Fixpoint calls_to (listener : Listener) (effs : list Effect) : list NetworkStatus :=
  match effs with
  | [] => []
  | Called l s :: effs' =>
      if l =? listener then s :: calls_to listener effs' else calls_to listener effs'
  | SyncStarted :: effs' => calls_to listener effs'
  end.



(** What a task that runs undisturbed does to the stored list: an entry
    at the ceiling, or one whose remote write succeeded, is filtered out;
    one whose remote write failed has its retry count incremented. *)
Definition sync_effect (e : PendingStory) (remote_ok : bool) (l : list PendingStory)
  : list PendingStory :=
  if (MAX_RETRY_COUNT <=? retryCount e)%Z then without_id (id e) l
  else if remote_ok then without_id (id e) l
       else increment_found (id e) l.

(** The entries of a list that a sync pass sends to the remote store. *)
Definition below_ceiling (l : list PendingStory) : list PendingStory :=
  filter (fun e => negb (MAX_RETRY_COUNT <=? retryCount e)%Z) l.




(** *** Counting remote writes over every schedule *)

(** The payload a document was built from. *)
Definition doc_payload (d : StoryDoc) : StoryCreateData :=
  {| title := doc_title d;
     content := doc_content d;
     category := doc_category d;
     categoryId := doc_categoryId d;
     location := doc_location d |}.

Section Cost.

(** [I] is a property every stored list has; [sel] picks the remote
    writes that are counted. *)
Variable I : Blob -> Prop.
Variable sel : StoryDoc -> bool.

Definition read_ok (r : Result (option Blob)) : Prop :=
  match r with
  | Ok (Some v) => I v
  | _ => True
  end.

Definition store_ok (w : World) : Prop :=
  match storage w with
  | Some v => I v
  | None => True
  end.

(** Number of counted [addDoc] calls made so far. *)
Definition counted (w : World) : nat := List.length (filter sel (attempts w)).

(** [Cost b lo hi p]: whatever the platform answers and however the tasks
    are interleaved, from [p] on at least [lo] and at most [hi] counted
    remote writes are made before [p] settles, every list written has
    property [I], and [p] can only settle by throwing if [b] is set. *)
Fixpoint Cost {A : Type} (b : bool) (lo hi : nat) (p : Prog A) {struct p} : Prop :=
  match p with
  | Ret _ => lo = 0
  | Throw _ => lo = 0 /\ b = true
  | GetItem k => forall r, read_ok r -> Cost b lo hi (k r)
  | SetItem v k => I v /\ forall r, Cost b lo hi (k r)
  | RemoveItem k => forall r, Cost b lo hi (k r)
  | AddDoc d k =>
      if sel d then exists hi', hi = S hi' /\ forall r, Cost b (pred lo) hi' (k r)
      else forall r, Cost b lo hi (k r)
  | DateNow k => forall r, Cost b lo hi (k r)
  | MathRandom k => forall r, Cost b lo hi (k r)
  | NetInfoFetch k => forall r, Cost b lo hi (k r)
  | AllSettled ts k =>
      exists l1 h1 l2 h2,
        (fix costs (ts : list (Prog unit)) (lo hi : nat) {struct ts} : Prop :=
           match ts with
           | [] => lo = 0
           | t :: ts' =>
               exists l1 h1 l2 h2,
                 Cost true l1 h1 t /\ costs ts' l2 h2 /\
                 lo <= l1 + l2 /\ h1 + h2 <= hi
           end) ts l1 h1 /\
        (forall rs, Cost b l2 h2 (k rs)) /\
        lo <= l1 + l2 /\ h1 + h2 <= hi
  end.

(** The same for the tasks of an [AllSettled] taken together. *)
Fixpoint Costs (ts : list (Prog unit)) (lo hi : nat) {struct ts} : Prop :=
  match ts with
  | [] => lo = 0
  | t :: ts' =>
      exists l1 h1 l2 h2,
        Cost true l1 h1 t /\ Costs ts' l2 h2 /\
        lo <= l1 + l2 /\ h1 + h2 <= hi
  end.

(** One step keeps the stored list in [I] and never makes more, or
    leaves fewer to make, counted remote writes than [Cost] allows. *)
Definition step_ok (A : Type) (p : Prog A) : Prop :=
  forall env path w b lo hi,
    store_ok w -> Cost b lo hi p ->
    store_ok (snd (step env path p w)) /\
    exists lo' hi',
      Cost b lo' hi' (fst (step env path p w)) /\
      counted w + lo <= counted (snd (step env path p w)) + lo' /\
      counted (snd (step env path p w)) + hi' <= counted w + hi.

End Cost.

(** Induction over programs that also covers the tasks of an
    [AllSettled]. *)
Section Prog_nested_ind.

Variable P : forall A : Type, Prog A -> Prop.

Hypothesis P_Ret : forall (A : Type) (a : A), P (Ret a).
Hypothesis P_Throw : forall (A : Type) (e : Exn), P (@Throw A e).
Hypothesis P_GetItem : forall (A : Type) (k : Result (option Blob) -> Prog A),
    (forall r, P (k r)) -> P (GetItem k).
Hypothesis P_SetItem : forall (A : Type) v (k : Result unit -> Prog A),
    (forall r, P (k r)) -> P (SetItem v k).
Hypothesis P_RemoveItem : forall (A : Type) (k : Result unit -> Prog A),
    (forall r, P (k r)) -> P (RemoveItem k).
Hypothesis P_AddDoc : forall (A : Type) d (k : Result string -> Prog A),
    (forall r, P (k r)) -> P (AddDoc d k).
Hypothesis P_DateNow : forall (A : Type) (k : Z -> Prog A),
    (forall r, P (k r)) -> P (DateNow k).
Hypothesis P_MathRandom : forall (A : Type) (k : string -> Prog A),
    (forall r, P (k r)) -> P (MathRandom k).
Hypothesis P_NetInfoFetch : forall (A : Type) (k : Result NetInfoState -> Prog A),
    (forall r, P (k r)) -> P (NetInfoFetch k).
Hypothesis P_AllSettled : forall (A : Type) ts (k : list (Result unit) -> Prog A),
    Forall (@P unit) ts -> (forall rs, P (k rs)) -> P (AllSettled ts k).

Fixpoint Prog_nested_ind (A : Type) (p : Prog A) {struct p} : P p :=
  match p with
  | Ret a => P_Ret a
  | Throw e => P_Throw A e
  | GetItem k => P_GetItem k (fun r => Prog_nested_ind (k r))
  | SetItem v k => P_SetItem v k (fun r => Prog_nested_ind (k r))
  | RemoveItem k => P_RemoveItem k (fun r => Prog_nested_ind (k r))
  | AddDoc d k => P_AddDoc d k (fun r => Prog_nested_ind (k r))
  | DateNow k => P_DateNow k (fun r => Prog_nested_ind (k r))
  | MathRandom k => P_MathRandom k (fun r => Prog_nested_ind (k r))
  | NetInfoFetch k => P_NetInfoFetch k (fun r => Prog_nested_ind (k r))
  | AllSettled ts k =>
      P_AllSettled k
        ((fix tasks (ts : list (Prog unit)) : Forall (@P unit) ts :=
            match ts with
            | [] => Forall_nil _
            | t :: ts' => Forall_cons t (Prog_nested_ind t) (tasks ts')
            end) ts)
        (fun rs => Prog_nested_ind (k rs))
  end.

End Prog_nested_ind.

(** An entry whose payload is in the class [selp] and which a sync pass
    sends to the remote store. *)
Definition attempted (selp : StoryCreateData -> bool) (e : PendingStory) : bool :=
  negb (MAX_RETRY_COUNT <=? retryCount e)%Z && selp (storyData e).

(** A run in which every step resumes a program that has not settled. *)
Inductive Trace (env : Env) (A : Type)
  : Prog A -> World -> list (list nat) -> Prog A -> World -> Prop :=
| Trace_done p w : Trace env p w [] p w
| Trace_step p w path p1 w1 sched p2 w2 :
    settled p = None ->
    step env path p w = (p1, w1) ->
    Trace env p1 w1 sched p2 w2 ->
    Trace env p w (path :: sched) p2 w2.

(** The serial run of [p] is one of its scheduled runs. *)
Definition serial_trace (A : Type) (p : Prog A) : Prop :=
  forall env w, exists sched,
    Trace env p w sched (settle (fst (run env p w))) (snd (run env p w)).

(** [n] sync passes in a row, each run serially. *)
Fixpoint run_passes (env : Env) (n : nat) (w : World) : World :=
  match n with
  | O => w
  | S n' => run_passes env n' (snd (run env syncPendingStories w))
  end.

(** *** Sample inputs *)

(** A platform on which nothing fails: [addDoc] answers with a document
    id, the clock shows the call number, the random suffix is constant. *)
Definition calm_env : Env :=
  {| storage_fault := fun _ => None;
     remote_write := fun _ _ => Ok "doc";
     clock := fun n => Z.of_nat n;
     entropy := fun _ => "k3x9";
     reachability :=
       fun _ => Ok {| netinfo_isConnected := Some true;
                      netinfo_isInternetReachable := Some true |} |}.

(** As [calm_env], but [addDoc] rejects every document titled [bad] with
    the error [e]. *)
Definition rejecting_env (bad : string) (e : Exn) : Env :=
  {| storage_fault := fun _ => None;
     remote_write := fun _ d => if (doc_title d =? bad)%string then Err e else Ok "doc";
     clock := fun n => Z.of_nat n;
     entropy := fun _ => "k3x9";
     reachability := fun _ => Err e |}.

Definition sample_payload (t : string) : StoryCreateData :=
  {| title := t; content := "text"; category := "General"; categoryId := "1";
     location := None |}.

Definition sample_entry (i t : string) (n : Z) : PendingStory :=
  {| id := i; storyData := sample_payload t; timestamp := 0; retryCount := n |}.

Definition world_with (l : list PendingStory) : World :=
  {| storage := Some l; stories := []; attempts := []; tick := 0 |}.

Definition unavailable : Exn :=
  MkExn (Some "unavailable") (Some "Failed to get document because the client is offline.") None.

Definition permission_denied : Exn :=
  MkExn (Some "permission-denied") (Some "Missing or insufficient permissions.") None.

Definition online_service : Service := new_service.

(** The three-entry scenario: retry counts 0, 2 and 3; the remote store
    fails the first payload, accepts the second and would reject the
    third. *)
Definition scenario_env : Env :=
  {| storage_fault := fun _ => None;
     remote_write :=
       fun _ d =>
         if (doc_title d =? "a")%string then Err unavailable
         else if (doc_title d =? "c")%string then Err permission_denied
              else Ok "doc";
     clock := fun n => Z.of_nat n;
     entropy := fun _ => "k3x9";
     reachability := fun _ => Err unavailable |}.

Definition scenario_store : list PendingStory :=
  [sample_entry "p1" "a" 0; sample_entry "p2" "b" 2; sample_entry "p3" "c" 3].

(** The three tasks of the scenario with the two remote answers arriving
    close together: the third entry is dropped first; the tasks of the
    first and second entry then both read the list before either writes it
    back, and the write of the first lands last. *)
Definition overlapping_tasks : list (list nat) :=
  [ [];               (* the pass reads the list *)
    [2]; [2];         (* entry 3, removePendingStory: getItem, setItem *)
    [0]; [0]; [0];    (* entry 1: clock, random suffix, addDoc rejected *)
    [1]; [1]; [1];    (* entry 2: clock, random suffix, addDoc fulfilled *)
    [1];              (* entry 2, removePendingStory: getItem *)
    [0];              (* entry 1, catch block: getItem *)
    [1];              (* entry 2: setItem *)
    [0];              (* entry 1: setItem *)
    [] ].             (* Promise.allSettled resumes *)

(** Two passes started together on a one-entry list: both read it before
    either task has removed the entry. *)
Definition overlapping_passes : list (list nat) :=
  [ [0];                      (* first pass reads the list *)
    [1];                      (* second pass reads the list *)
    [0; 0]; [0; 0]; [0; 0];   (* first pass, the entry: addDoc fulfilled *)
    [1; 0]; [1; 0]; [1; 0];   (* second pass, the entry: addDoc fulfilled *)
    [0; 0]; [0; 0];           (* first pass removes the entry *)
    [1; 0]; [1; 0];           (* second pass removes it again *)
    [0]; [1]; [] ].           (* both passes and the join resume *)

(* ===================================================================== *)
(** ** Further notions: the store, the pass and their callers *)
(* ===================================================================== *)

(** Calls of [addPendingStory] awaited one after another, as successive
    submissions made while offline. *)
Fixpoint addPendingStories (payloads : list StoryCreateData) : Prog (list string) :=
  match payloads with
  | [] => Ret []
  | data :: rest =>
      pendingId <- addPendingStory data ;;
      pendingIds <- addPendingStories rest ;;
      Ret (pendingId :: pendingIds)
  end.

(** A call whose result is not looked at. *)
Definition ignoring_result {A : Type} (p : Prog A) : Prog unit :=
  p ;; Ret tt.

(** Two [addPendingStory] calls started together: both read the list
    before either writes it back. *)
Definition overlapping_appends : list (list nat) :=
  [ [0];                 (* first call: getItem *)
    [1];                 (* second call: getItem *)
    [0]; [0]; [0]; [0];  (* first call: clock, random suffix, clock, setItem *)
    [1]; [1]; [1]; [1];  (* second call: clock, random suffix, clock, setItem *)
    [] ].                (* the join resumes *)

(** [addDoc] fulfils for every document. *)
Definition remote_accepts_all (env : Env) : Prop :=
  forall n d, is_ok (remote_write env n d) = true.

(** Every entry of [l] is an entry of [l0] under the same id, with the
    same payload and timestamp and a retry count that is not smaller. *)
Definition derived_from (l0 l : list PendingStory) : Prop :=
  forall x, In x l ->
    exists y, In y l0 /\ id y = id x /\ storyData y = storyData x /\
              timestamp y = timestamp x /\ (retryCount y <= retryCount x)%Z.

(** No stored retry count is above the ceiling. *)
Definition within_ceiling (l : list PendingStory) : Prop :=
  Forall (fun e => (retryCount e <= MAX_RETRY_COUNT)%Z) l.

(** The counters a freshly created document starts with. *)
Definition zero_counters (d : StoryDoc) : Prop :=
  popularity d = 0%Z /\ Like d = 0%Z /\ Dislike d = 0%Z.


(** As [calm_env], but every AsyncStorage call rejects with [e]. *)
Definition broken_storage_env (e : Exn) : Env :=
  {| storage_fault := fun _ => Some e;
     remote_write := remote_write calm_env;
     clock := clock calm_env;
     entropy := entropy calm_env;
     reachability := reachability calm_env |}.

(** Number of changes from not connected to connected along [flags],
    starting from [was]. *)
Fixpoint rising_edges (was : bool) (flags : list bool) : nat :=
  match flags with
  | [] => 0
  | now :: rest => (if negb was && now then 1 else 0) + rising_edges now rest
  end.

(** Number of sync passes the service started. *)
Fixpoint sync_starts (effs : list Effect) : nat :=
  match effs with
  | [] => 0
  | SyncStarted :: effs' => S (sync_starts effs')
  | Called _ _ :: effs' => sync_starts effs'
  end.

(** What the platform events among [ops] said about being online. *)
Fixpoint event_flags (ops : list Op) : list bool :=
  match ops with
  | [] => []
  | OpNetInfoEvent state :: ops' => online state :: event_flags ops'
  | _ :: ops' => event_flags ops'
  end.

(** No (re)initialisation among [ops]. *)
Definition no_initialisation (ops : list Op) : Prop :=
  forall fetched, ~ In (OpInitialized fetched) ops.

(** The initial fetch never succeeded among [ops]. *)
Definition never_initialised (ops : list Op) : Prop :=
  forall state, ~ In (OpInitialized (Ok state)) ops.

(** A service that has seen the platform report no connection. *)
Definition offline_service : Service :=
  fst (on_netinfo_event no_reaction
         {| netinfo_isConnected := Some false; netinfo_isInternetReachable := Some false |}
         new_service).

(* ===================================================================== *)
(** ** [OfflineProvider] ([src/contexts/OfflineContext.tsx]) *)
(* ===================================================================== *)

(** The provider's three pieces of React state. *)
Record OfflineContextState : Type := {
  ctx_isOffline : bool;
  pendingStoriesCount : nat;
  pendingStories : list PendingStory
}.

(** The [useState] initial values. *)
Definition initial_context : OfflineContextState :=
  {| ctx_isOffline := false; pendingStoriesCount := 0; pendingStories := [] |}.

(** A call of one of the three state setters. *)
Inductive Setter : Type :=
| SetIsOffline (b : bool)
| SetPendingStoriesCount (n : nat)
| SetPendingStories (l : list PendingStory).

Definition apply_setter (s : Setter) (st : OfflineContextState) : OfflineContextState :=
  match s with
  | SetIsOffline b =>
      {| ctx_isOffline := b;
         pendingStoriesCount := pendingStoriesCount st;
         pendingStories := pendingStories st |}
  | SetPendingStoriesCount n =>
      {| ctx_isOffline := ctx_isOffline st;
         pendingStoriesCount := n;
         pendingStories := pendingStories st |}
  | SetPendingStories l =>
      {| ctx_isOffline := ctx_isOffline st;
         pendingStoriesCount := pendingStoriesCount st;
         pendingStories := l |}
  end.

Definition apply_setters (sets : list Setter) (st : OfflineContextState)
  : OfflineContextState :=
  fold_left (fun st s => apply_setter s st) sets st.

(** [refreshPendingStories]; the result is the setter calls made, in
    order: both run only after both reads. *)
Definition refreshPendingStories : Prog (list Setter) :=
  TRY
    (stories <- getPendingStories ;;
     count <- getPendingStoriesCount ;;
     Ret [SetPendingStories stories; SetPendingStoriesCount count])
  CATCH error => Ret [].

(** [forceSyncStories] *)
Definition forceSyncStories : Prog (list Setter) :=
  TRY
    (forceSyncPendingStories ;;
     refreshPendingStories)
  CATCH error => Ret [].

(** The listener the provider passes to [subscribeToNetworkStatus]: the
    setter calls it makes, and whether it schedules a refresh. *)
Definition on_network_status (status : NetworkStatus) : list Setter * bool :=
  ([SetIsOffline (negb (isConnected status))], isConnected status).

(** The provider's state after its listener, registered as [listener],
    received the calls logged in [effs]. *)
Definition context_after (listener : Listener) (effs : list Effect)
    (st : OfflineContextState) : OfflineContextState :=
  fold_left (fun st status => apply_setters (fst (on_network_status status)) st)
            (calls_to listener effs) st.

(** What a settled [forceSyncStories] has set: nothing, or the list
    stored in [w] with, as count, its length or 0. *)
Definition shows_stored (sets : list Setter) (w : World) : Prop :=
  sets = [] \/
  exists n, sets = [SetPendingStories (stored w); SetPendingStoriesCount n] /\
            (n = List.length (stored w) \/ n = 0).

(** [forceSyncStories] on a two-entry queue, the removals of the two tasks
    overlapping: both read the list before either writes it back. *)
Definition overlapping_removals : list (list nat) :=
  [ [];               (* the pass reads the list *)
    [0]; [0]; [0];    (* entry 1: clock, random suffix, addDoc fulfilled *)
    [1]; [1]; [1];    (* entry 2: clock, random suffix, addDoc fulfilled *)
    [0];              (* entry 1, removePendingStory: getItem *)
    [1];              (* entry 2, removePendingStory: getItem *)
    [0];              (* entry 1: setItem *)
    [1];              (* entry 2: setItem *)
    [];               (* Promise.allSettled resumes *)
    []; [] ].         (* the refresh reads the list and the count *)

(** [listener] is not unsubscribed by [ops]. *)
Definition keeps_subscribed (listener : Listener) (ops : list Op) : Prop :=
  ~ In (OpUnsubscribe listener) ops.

(* ===================================================================== *)
(** ** [FavoritesServiceImpl] ([src/services/favoritesService.ts]) and the
       story reads it is used with *)
(* ===================================================================== *)

Definition FAVORITES_KEY : string := "favorites".
Definition MAX_FAVORITES : nat := 5.

(** Values thrown in this part of the program: objects with optional
    [code] and [message], and as [details] nothing, the caught value, or
    the counts of the limit error. *)
Inductive Thrown : Type :=
| MkThrown (code message : option string) (details : Details)
with Details : Type :=
| NoDetails
| Caught (error : Thrown)
| LimitDetails (currentCount limit : nat).

Definition thrown_code (t : Thrown) : option string :=
  match t with MkThrown c _ _ => c end.

Definition thrown_details (t : Thrown) : Details :=
  match t with MkThrown _ _ d => d end.

(** [{ code, message, details: error } as ServiceError] *)
Definition service_error (code message : string) (error : Thrown) : Thrown :=
  MkThrown (Some code) (Some message) (Caught error).

(** The error thrown at the limit. *)
Definition limit_exceeded (currentCount : nat) : Thrown :=
  MkThrown (Some "FAVORITES_LIMIT_EXCEEDED")
           (Some ("You can only have " ++ number_toString (Z.of_nat MAX_FAVORITES)
                  ++ " favorite stories. Please remove one first.")%string)
           (LimitDetails currentCount MAX_FAVORITES).

(** [if (error.code)] *)
Definition has_code (t : Thrown) : bool :=
  match thrown_code t with
  | Some c => negb (c =? "")%string
  | None => false
  end.

Inductive Outcome (A : Type) : Type :=
| Fulfilled (a : A)
| Rejected (t : Thrown).

Arguments Fulfilled {A} a.
Arguments Rejected {A} t.

(** An element of a parsed JSON array: a string, or any other value. *)
Inductive JsonItem : Type :=
| JString (s : string)
| JOther.

(** The text stored under [FAVORITES_KEY], by what [getFavorites] makes of
    it: the empty string, the JSON of an array, or a text on which
    [JSON.parse] or the call of [filter] throws [error]. *)
Inductive FavText : Type :=
| TextEmpty
| TextArray (items : list JsonItem)
| TextInvalid (error : Thrown).

(** [JSON.stringify] of an array of strings. *)
Definition stringify (ids : list string) : FavText :=
  TextArray (map JString ids).

(** A Firestore document's data: an [id] field of its own, if it has one,
    and the story fields. *)
Record DocData : Type := {
  data_id : option string;
  data_fields : StoryDoc
}.

Record Story : Type := {
  story_id : string;
  story_fields : StoryDoc
}.

(** [{ id: storySnap.id, ...storySnap.data() }] *)
Definition story_of (snap_id : string) (data : DocData) : Story :=
  {| story_id := match data_id data with Some i => i | None => snap_id end;
     story_fields := data_fields data |}.

(** Calls of the favourites screen's state setters. *)
Inductive UiCall : Type :=
| SetRefreshing (b : bool)
| SetLoading (b : bool)
| SetError (message : option string)
| SetFavorites (ids : list string)
| SetFavoriteStories (stories : list Story).

(** What the platform answers at each tick. *)
Record FavEnv : Type := {
  fav_fault : nat -> option Thrown;
  remote_read : nat -> string -> Outcome (option DocData)
}.

Record FavWorld : Type := {
  fav_text : option FavText;
  fav_tick : nat;
  ui_calls : list UiCall
}.

(** Asynchronous code of this part, awaited call after call. *)
Definition Fav (A : Type) : Type := FavEnv -> FavWorld -> Outcome A * FavWorld.

Definition fav_ret {A : Type} (a : A) : Fav A := fun _ w => (Fulfilled a, w).

Definition fav_throw {A : Type} (t : Thrown) : Fav A := fun _ w => (Rejected t, w).

Definition fav_bind {A B : Type} (p : Fav A) (f : A -> Fav B) : Fav B :=
  fun env w =>
    match p env w with
    | (Fulfilled a, w') => f a env w'
    | (Rejected t, w') => (Rejected t, w')
    end.

(** [try { p } catch (error) { h error }] *)
Definition fav_catch {A : Type} (p : Fav A) (h : Thrown -> Fav A) : Fav A :=
  fun env w =>
    match p env w with
    | (Fulfilled a, w') => (Fulfilled a, w')
    | (Rejected t, w') => h t env w'
    end.

(** [try { p } finally { q }] *)
Definition fav_finally {A : Type} (p : Fav A) (q : Fav unit) : Fav A :=
  fun env w =>
    match p env w with
    | (r, w') =>
        match q env w' with
        | (Fulfilled _, w'') => (r, w'')
        | (Rejected t, w'') => (Rejected t, w'')
        end
    end.

Declare Scope fav_scope.
Delimit Scope fav_scope with fav.
Notation "x <- p ;; q" := (fav_bind p (fun x => q))
  (at level 61, p at next level, right associativity) : fav_scope.
Notation "p ;; q" := (fav_bind p (fun _ => q))
  (at level 61, right associativity) : fav_scope.
Notation "'TRY' p 'CATCH' x => h" := (fav_catch p (fun x => h))
  (at level 62, p at level 61, x name, h at level 61) : fav_scope.

Definition fav_next (w : FavWorld) : FavWorld :=
  {| fav_text := fav_text w; fav_tick := S (fav_tick w); ui_calls := ui_calls w |}.

(** [AsyncStorage.getItem(FAVORITES_KEY)] *)
Definition fav_getItem : Fav (option FavText) :=
  fun env w =>
    match fav_fault env (fav_tick w) with
    | Some e => (Rejected e, fav_next w)
    | None => (Fulfilled (fav_text w), fav_next w)
    end.

(** [AsyncStorage.setItem(FAVORITES_KEY, text)] *)
Definition fav_setItem (text : FavText) : Fav unit :=
  fun env w =>
    match fav_fault env (fav_tick w) with
    | Some e => (Rejected e, fav_next w)
    | None =>
        (Fulfilled tt,
         {| fav_text := Some text; fav_tick := S (fav_tick w); ui_calls := ui_calls w |})
    end.

(** [getDoc(doc(db, 'stories', storyId))]: the data, or nothing when the
    snapshot does not exist. *)
Definition getDoc (storyId : string) : Fav (option DocData) :=
  fun env w => (remote_read env (fav_tick w) storyId, fav_next w).

Definition ui (c : UiCall) : Fav unit :=
  fun _ w =>
    (Fulfilled tt,
     {| fav_text := fav_text w; fav_tick := fav_tick w; ui_calls := ui_calls w ++ [c] |}).

(** [typeof id === 'string' && id.length > 0] *)
Definition is_valid_id (item : JsonItem) : bool :=
  match item with
  | JString s => 0 <? String.length s
  | JOther => false
  end.

(** The items of an array that passed [is_valid_id], as strings. *)
Definition as_strings (items : list JsonItem) : list string :=
  flat_map (fun item => match item with JString s => [s] | JOther => [] end) items.

(** [Array.prototype.includes] on strings. *)
Definition array_includes (l : list string) (x : string) : bool :=
  existsb (fun y => (y =? x)%string) l.

(** [getFavorites] *)
Definition getFavorites : Fav (list string) :=
  (TRY
     (favoritesJson <- fav_getItem ;;
      match favoritesJson with
      | Some (TextArray favorites) => fav_ret (as_strings (filter is_valid_id favorites))
      | Some (TextInvalid error) => fav_throw error
      | Some TextEmpty => fav_ret []
      | None => fav_ret []
      end)
   CATCH error =>
     fav_throw (service_error "STORAGE_ERROR" "Failed to retrieve favorites from storage"
                              error))%fav.

(** [addFavorite] *)
Definition addFavorite (storyId : string) : Fav (list string) :=
  (TRY
     (currentFavorites <- getFavorites ;;
      if array_includes currentFavorites storyId then fav_ret currentFavorites
      else if MAX_FAVORITES <=? List.length currentFavorites then
        fav_throw (limit_exceeded (List.length currentFavorites))
      else
        let updatedFavorites := currentFavorites ++ [storyId] in
        fav_setItem (stringify updatedFavorites) ;;
        fav_ret updatedFavorites)
   CATCH error =>
     (if has_code error then fav_throw error
      else fav_throw (service_error "STORAGE_ERROR" "Failed to add favorite to storage"
                                    error)))%fav.

(** [removeFavorite] *)
Definition removeFavorite (storyId : string) : Fav (list string) :=
  (TRY
     (currentFavorites <- getFavorites ;;
      let updatedFavorites :=
        filter (fun id => negb (id =? storyId)%string) currentFavorites in
      fav_setItem (stringify updatedFavorites) ;;
      fav_ret updatedFavorites)
   CATCH error =>
     fav_throw (service_error "STORAGE_ERROR" "Failed to remove favorite from storage"
                              error))%fav.

(** [clearFavorites] *)
Definition clearFavorites : Fav unit :=
  (TRY (fav_setItem (stringify []))
   CATCH error =>
     fav_throw (service_error "STORAGE_ERROR" "Failed to clear favorites from storage"
                              error))%fav.

(** [isFavorite] *)
Definition isFavorite (storyId : string) : Fav bool :=
  (TRY
     (favorites <- getFavorites ;;
      fav_ret (array_includes favorites storyId))
   CATCH error => fav_ret false)%fav.

(** [removeMultipleFavorites] *)
Definition removeMultipleFavorites (storyIds : list string) : Fav (list string) :=
  (TRY
     (currentFavorites <- getFavorites ;;
      let updatedFavorites :=
        filter (fun id => negb (array_includes storyIds id)) currentFavorites in
      fav_setItem (stringify updatedFavorites) ;;
      fav_ret updatedFavorites)
   CATCH error =>
     fav_throw (service_error "STORAGE_ERROR" "Failed to remove favorites from storage"
                              error))%fav.

(** [getFavoritesCount] *)
Definition getFavoritesCount : Fav nat :=
  (TRY
     (favorites <- getFavorites ;;
      fav_ret (List.length favorites))
   CATCH error => fav_ret 0)%fav.

(** [canAddFavorite] *)
Definition canAddFavorite : Fav bool :=
  (TRY
     (count <- getFavoritesCount ;;
      fav_ret (count <? MAX_FAVORITES))
   CATCH error => fav_ret false)%fav.

(** [StoryServiceImpl.getStoryById] *)
Definition getStoryById (storyId : string) : Fav (option Story) :=
  (TRY
     (storySnap <- getDoc storyId ;;
      match storySnap with
      | Some data => fav_ret (Some (story_of storyId data))
      | None => fav_ret None
      end)
   CATCH error =>
     fav_throw (service_error "FIRESTORE_ERROR" "Failed to retrieve story from database"
                              error))%fav.

(** The [for] loop of [getStoriesByIds], with the stories pushed so far. *)
Fixpoint getStoriesByIds_loop (storyIds : list string) (stories : list Story)
  : Fav (list Story) :=
  match storyIds with
  | [] => fav_ret stories
  | storyId :: rest =>
      (stories' <-
         (TRY
            (story <- getStoryById storyId ;;
             match story with
             | Some s => fav_ret (stories ++ [s])
             | None => fav_ret stories
             end)
          CATCH individualError => fav_ret stories) ;;
       getStoriesByIds_loop rest stories')%fav
  end.

(** [StoryServiceImpl.getStoriesByIds] *)
Definition getStoriesByIds (storyIds : list string) : Fav (list Story) :=
  (TRY (getStoriesByIds_loop storyIds [])
   CATCH error =>
     fav_throw (service_error "FIRESTORE_ERROR"
                              "Failed to retrieve stories by IDs from database" error))%fav.

(** [loadFavorites] of the favourites screen. *)
Definition loadFavorites (showRefresh : bool) : Fav unit :=
  fav_finally
    (TRY
       ((if showRefresh then ui (SetRefreshing true) else fav_ret tt) ;;
        ui (SetLoading true) ;;
        ui (SetError None) ;;
        favIds <- getFavorites ;;
        ui (SetFavorites favIds) ;;
        if 0 <? List.length favIds then
          storiesData <- getStoriesByIds favIds ;;
          ui (SetFavoriteStories storiesData) ;;
          let existingStoryIds := map story_id storiesData in
          let nonExistentIds :=
            filter (fun id => negb (array_includes existingStoryIds id)) favIds in
          if 0 <? List.length nonExistentIds then
            updatedFavorites <- removeMultipleFavorites nonExistentIds ;;
            ui (SetFavorites updatedFavorites)
          else fav_ret tt
        else
          ui (SetFavoriteStories []))
     CATCH error =>
       ui (SetError (Some "Failed to load favorites. Please try again.")))%fav
    ((ui (SetLoading false) ;;
      if showRefresh then ui (SetRefreshing false) else fav_ret tt)%fav).

(** The ids [getFavorites] reads out of a stored text. *)
Definition favorites_of (text : option FavText) : list string :=
  match text with
  | Some (TextArray items) => as_strings (filter is_valid_id items)
  | _ => []
  end.

(** The stored text can be read: it is not one that makes [getFavorites]
    throw. *)
Definition readable (text : option FavText) : Prop :=
  forall error, text <> Some (TextInvalid error).

(** AsyncStorage never rejects. *)
Definition fav_healthy (env : FavEnv) : Prop :=
  forall n, fav_fault env n = None.

(** The stored text is absent, or the JSON of at most [MAX_FAVORITES]
    distinct strings. *)
Definition favorites_bounded (text : option FavText) : Prop :=
  text = None \/
  exists ids, text = Some (stringify ids) /\ NoDup ids /\ List.length ids <= MAX_FAVORITES.

(** The calls a screen makes on the favourites service. *)
Inductive FavOp : Type :=
| OpAddFavorite (storyId : string)
| OpRemoveFavorite (storyId : string)
| OpRemoveMultiple (storyIds : list string)
| OpClearFavorites.

(** The world after a call, whether it fulfilled or rejected. *)
Definition apply_fav_op (env : FavEnv) (op : FavOp) (w : FavWorld) : FavWorld :=
  match op with
  | OpAddFavorite storyId => snd (addFavorite storyId env w)
  | OpRemoveFavorite storyId => snd (removeFavorite storyId env w)
  | OpRemoveMultiple storyIds => snd (removeMultipleFavorites storyIds env w)
  | OpClearFavorites => snd (clearFavorites env w)
  end.

Definition apply_fav_ops (env : FavEnv) (ops : list FavOp) (w : FavWorld) : FavWorld :=
  fold_left (fun w op => apply_fav_op env op w) ops w.

(** No story can be fetched: every read fails or finds nothing. *)
Definition nothing_fetched (env : FavEnv) : Prop :=
  forall n storyId data, remote_read env n storyId <> Fulfilled (Some data).

(** A world holding the favourites [ids]. *)
Definition fav_world_with (ids : list string) : FavWorld :=
  {| fav_text := Some (stringify ids); fav_tick := 0; ui_calls := [] |}.

(** Storage answers; every Firestore read rejects as when offline. *)
Definition unreachable_env : FavEnv :=
  {| fav_fault := fun _ => None;
     remote_read := fun _ _ =>
       Rejected (MkThrown (Some "unavailable") (Some "client is offline") NoDetails) |}.

(** Storage rejects every call with an error that has no code. *)
Definition fav_broken_env : FavEnv :=
  {| fav_fault := fun _ => Some (MkThrown None (Some "disk full") NoDetails);
     remote_read := fun _ _ => Fulfilled None |}.

(* ===================================================================== *)
(** ** Serial runs: equations *)
(* ===================================================================== *)

Ltac destruct_let :=
  match goal with
  | |- context [let '(_, _) := ?x in _] => destruct x
  end.

Lemma run_AllSettled (A : Type) env ts (k : list (Result unit) -> Prog A) w :
  run env (AllSettled ts k) w =
  let '(rs, w') := run_all env ts w in run env (k rs) w'.
Proof.
  simpl.
  match goal with
  | |- (let '(_, _) := ?f ts w in _) = _ =>
      assert (H : forall ts w, f ts w = run_all env ts w)
  end.
  { clear. induction ts as [|t ts IH]; intros w; simpl; [reflexivity|].
    destruct (run env t w) as [r w1]. rewrite IH. reflexivity. }
  rewrite H. reflexivity.
Qed.

Lemma run_bind (A B : Type) env (p : Prog A) (f : A -> Prog B) w :
  run env (bind p f) w =
  match run env p w with
  | (Ok a, w') => run env (f a) w'
  | (Err e, w') => (Err e, w')
  end.
Proof.
  revert w. induction p; intros w; simpl; auto; destruct_let; auto.
Qed.

Lemma run_try_catch (A : Type) env (p : Prog A) h w :
  run env (try_catch p h) w =
  match run env p w with
  | (Ok a, w') => (Ok a, w')
  | (Err e, w') => run env (h e) w'
  end.
Proof.
  revert w. induction p; intros w; simpl; auto; destruct_let; auto.
Qed.

Lemma stored_set_storage v w : stored (set_storage (Some v) w) = v.
Proof. reflexivity. Qed.

Lemma run_getPendingStories env w :
  storage_fault env (tick w) = None ->
  run env getPendingStories w = (Ok (stored w), next_tick w).
Proof.
  intros H. unfold getPendingStories, stored. simpl.
  unfold do_getItem. rewrite H. destruct (storage w); reflexivity.
Qed.

Lemma run_removePendingStory env w i :
  storage_fault env (tick w) = None ->
  storage_fault env (S (tick w)) = None ->
  run env (removePendingStory i) w =
  (Ok tt, set_storage (Some (without_id i (stored w))) (next_tick w)).
Proof.
  intros H1 H2. unfold removePendingStory.
  rewrite run_try_catch, run_bind, run_getPendingStories by assumption.
  simpl. unfold do_setItem. simpl. rewrite H2. reflexivity.
Qed.

Lemma run_addPendingStory env w data :
  storage_healthy env ->
  run env (addPendingStory data) w =
  (Ok (pending_id (clock env (1 + tick w)) (entropy env (2 + tick w))),
   set_storage
     (Some (stored w ++
            [new_entry (pending_id (clock env (1 + tick w)) (entropy env (2 + tick w)))
                       data (clock env (3 + tick w))]))
     (next_tick (next_tick (next_tick (next_tick w))))).
Proof.
  intros H. unfold addPendingStory.
  rewrite run_try_catch, run_bind, run_getPendingStories by apply H.
  simpl. unfold do_setItem. simpl. rewrite H. reflexivity.
Qed.

(* ===================================================================== *)
(** ** The pending-story store *)
(* ===================================================================== *)

Lemma nth_error_snoc_last (A : Type) (l : list A) (x : A) :
  nth_error (l ++ [x]) (List.length l) = Some x.
Proof.
  rewrite nth_error_app2 by lia. rewrite Nat.sub_diag. reflexivity.
Qed.

Lemma nth_error_snoc_inv (A : Type) (l : list A) (x y : A) j :
  nth_error (l ++ [x]) j = Some y ->
  (j < List.length l /\ nth_error l j = Some y) \/ (j = List.length l /\ y = x).
Proof.
  intros H. destruct (Nat.lt_ge_cases j (List.length l)) as [Hlt|Hge].
  - left. split; [assumption|]. rewrite nth_error_app1 in H; assumption.
  - right. rewrite nth_error_app2 in H by assumption.
    destruct (j - List.length l) as [|n] eqn:E; simpl in H.
    + inversion H. split; [lia | reflexivity].
    + destruct n; discriminate.
Qed.

(** C5 (amended).  With storage answering, [addPendingStory data] followed
    by [getPendingStories] yields the previous list followed by exactly one
    new entry: its payload is [data], its retry count 0, and its id is the
    id [addPendingStory] returned, built from the clock and the random
    suffix.  When no earlier entry had payload [data] with retry count 0,
    the new entry is the only such entry of the list; when no earlier entry
    had the generated id, it is the only entry with that id. *)
Theorem addPendingStory_then_getPendingStories env w data :
  storage_healthy env ->
  exists i stamp w1 w2,
    run env (addPendingStory data) w = (Ok i, w1) /\
    run env getPendingStories w1 = (Ok (stored w ++ [new_entry i data stamp]), w2) /\
    i = pending_id (clock env (1 + tick w)) (entropy env (2 + tick w)) /\
    ((forall e, In e (stored w) -> storyData e = data -> retryCount e <> 0%Z) ->
     exactly_one_fresh data (stored w ++ [new_entry i data stamp])) /\
    (~ In i (map id (stored w)) ->
     forall j e, nth_error (stored w ++ [new_entry i data stamp]) j = Some e ->
                 id e = i -> j = List.length (stored w)).
Proof.
  intros H.
  eexists _, _, _, _. rewrite run_addPendingStory by assumption.
  split; [reflexivity|].
  rewrite run_getPendingStories by apply H.
  split; [reflexivity|]. split; [reflexivity|]. simpl stored. split.
  - intros Hold.
    exists (List.length (stored w)). eexists.
    split; [apply nth_error_snoc_last|].
    split; [reflexivity|]. split; [reflexivity|].
    intros j e' Hj Hd Hr.
    apply nth_error_snoc_inv in Hj. destruct Hj as [[_ Hj]|[Hj _]]; [|assumption].
    exfalso. apply (Hold e'); auto. eapply nth_error_In; eassumption.
  - intros Hnew j e Hj Hid.
    apply nth_error_snoc_inv in Hj. destruct Hj as [[_ Hj]|[Hj _]]; [|assumption].
    exfalso. apply Hnew. rewrite <- Hid. apply in_map. eapply nth_error_In; eassumption.
Qed.

Lemma addPendingStory_then_getPendingStories_witness :
  storage_healthy calm_env /\
  exists i stamp w1 w2,
    run calm_env (addPendingStory (sample_payload "a")) (world_with []) = (Ok i, w1) /\
    run calm_env getPendingStories w1
    = (Ok (stored (world_with []) ++ [new_entry i (sample_payload "a") stamp]), w2) /\
    i = pending_id (clock calm_env (1 + tick (world_with [])))
                   (entropy calm_env (2 + tick (world_with []))) /\
    ((forall e, In e (stored (world_with [])) ->
                storyData e = sample_payload "a" -> retryCount e <> 0%Z) ->
     exactly_one_fresh (sample_payload "a")
       (stored (world_with []) ++ [new_entry i (sample_payload "a") stamp])) /\
    (~ In i (map id (stored (world_with []))) ->
     forall j e,
       nth_error (stored (world_with []) ++ [new_entry i (sample_payload "a") stamp]) j
       = Some e ->
       id e = i -> j = List.length (stored (world_with []))).
Proof.
  split; [intros n; reflexivity|].
  apply (@addPendingStory_then_getPendingStories calm_env (world_with [])
           (sample_payload "a")).
  intros n. reflexivity.
Defined.

(** C5 as stated fails: appending a payload that is already queued with
    retry count 0 leaves two such entries in the list. *)
Lemma addPendingStory_duplicate_payload :
  exists i w1 l w2,
    run calm_env (addPendingStory (sample_payload "a"))
        (world_with [sample_entry "pending_1_k3x9" "a" 0]) = (Ok i, w1) /\
    run calm_env getPendingStories w1 = (Ok l, w2) /\
    ~ exactly_one_fresh (sample_payload "a") l.
Proof.
  eexists _, _, _, _. split; [reflexivity|]. split; [reflexivity|].
  intros [i [e [_ [_ [_ Huniq]]]]].
  assert (H0 : 0 = i) by (eapply Huniq; reflexivity).
  assert (H1 : 1 = i) by (eapply Huniq; reflexivity).
  lia.
Qed.

Lemma without_id_idempotent i l : without_id i (without_id i l) = without_id i l.
Proof.
  unfold without_id. induction l as [|e l IH]; simpl; [reflexivity|].
  destruct (id e =? i)%string eqn:E; simpl; [assumption|].
  rewrite E. simpl. f_equal. assumption.
Qed.

Lemma without_id_absent i l : ~ In i (map id l) -> without_id i l = l.
Proof.
  unfold without_id. induction l as [|e l IH]; simpl; intros H; [reflexivity|].
  destruct (id e =? i)%string eqn:E.
  - apply String.eqb_eq in E. tauto.
  - simpl. f_equal. apply IH. tauto.
Qed.

Lemma in_without_id i l e : In e (without_id i l) <-> In e l /\ id e <> i.
Proof.
  unfold without_id. rewrite filter_In, negb_true_iff, String.eqb_neq. tauto.
Qed.

(** C7.  With storage answering, [removePendingStory i] fulfils whether or
    not an entry has id [i]; afterwards no entry has that id; when none had
    it the list is the same as before; and the entries with another id are
    the same, in the same order, before and after. *)
Theorem removePendingStory_frame env w i :
  storage_healthy env ->
  exists w',
    run env (removePendingStory i) w = (Ok tt, w') /\
    (forall e, In e (stored w') -> id e <> i) /\
    (~ In i (map id (stored w)) -> stored w' = stored w) /\
    without_id i (stored w') = without_id i (stored w) /\
    (forall e, id e <> i -> (In e (stored w') <-> In e (stored w))).
Proof.
  intros H. eexists. rewrite run_removePendingStory by apply H.
  split; [reflexivity|]. rewrite stored_set_storage.
  split; [intros e He; apply in_without_id in He; tauto|].
  split; [apply without_id_absent|].
  split; [apply without_id_idempotent|].
  intros e He. rewrite in_without_id. tauto.
Qed.

Lemma removePendingStory_frame_witness :
  storage_healthy calm_env /\
  exists w',
    run calm_env (removePendingStory "p2")
        (world_with [sample_entry "p1" "a" 0; sample_entry "p2" "b" 1]) = (Ok tt, w') /\
    (forall e, In e (stored w') -> id e <> "p2") /\
    (~ In "p2" (map id (stored (world_with [sample_entry "p1" "a" 0;
                                            sample_entry "p2" "b" 1]))) ->
     stored w' = stored (world_with [sample_entry "p1" "a" 0; sample_entry "p2" "b" 1])) /\
    without_id "p2" (stored w')
    = without_id "p2" (stored (world_with [sample_entry "p1" "a" 0;
                                           sample_entry "p2" "b" 1])) /\
    (forall e, id e <> "p2" ->
       (In e (stored w') <->
        In e (stored (world_with [sample_entry "p1" "a" 0; sample_entry "p2" "b" 1])))).
Proof.
  split; [intros n; reflexivity|].
  apply (@removePendingStory_frame calm_env
           (world_with [sample_entry "p1" "a" 0; sample_entry "p2" "b" 1]) "p2").
  intros n. reflexivity.
Defined.

(* ===================================================================== *)
(** ** [createStory]: falling back to the pending store *)
(* ===================================================================== *)

Lemma pending_id_prefix now suffix :
  String.prefix "pending_" (pending_id now suffix) = true.
Proof.
  unfold pending_id. simpl.
  match goal with |- String.prefix "" ?x = true => destruct x; reflexivity end.
Qed.

(** C3 (amended).  While online, when the direct remote write rejects with
    [e]: if [e] is a network error (code ['unavailable'] or a message
    containing ['network']) and storage answers, the payload is appended to
    the pending list and the caller receives the new entry's id, which
    starts with ['pending_']; if [e] is any other error the caller receives
    a [FIRESTORE_ERROR] and the pending list is left as it was. *)
Theorem createStory_remote_failure env w svc data e :
  isOffline svc = false ->
  remote_write env (2 + tick w)
    (story_doc (unique_id (clock env (tick w)) (entropy env (1 + tick w))) data)
  = Err e ->
  (is_network_error e = true -> storage_healthy env ->
   exists pid stamp w',
     run env (createStory svc data) w = (Ok pid, w') /\
     String.prefix "pending_" pid = true /\
     stored w' = stored w ++ [new_entry pid data stamp]) /\
  (is_network_error e = false ->
   exists w',
     run env (createStory svc data) w = (Err (FIRESTORE_ERROR e), w') /\
     storage w' = storage w).
Proof.
  intros Hon Hrem.
  assert (Hrun : run env (createStory svc data) w =
                 run env (if is_network_error e then
                            try_catch (bind (addPendingStory data) (fun pendingId => Ret pendingId))
                                      (fun _ => Throw (FIRESTORE_ERROR e))
                          else Throw (FIRESTORE_ERROR e))
                     (record_write
                        (story_doc (unique_id (clock env (tick w)) (entropy env (1 + tick w))) data)
                        false (next_tick (next_tick w)))).
  { unfold createStory. rewrite Hon. simpl. unfold do_addDoc. simpl.
    simpl in Hrem. rewrite Hrem. simpl. reflexivity. }
  split.
  - intros Hnet Hst. rewrite Hnet in Hrun.
    rewrite run_try_catch, run_bind, run_addPendingStory in Hrun by assumption.
    simpl in Hrun. eexists _, _, _. split; [exact Hrun|].
    split; [apply pending_id_prefix | reflexivity].
  - intros Hnet. rewrite Hnet in Hrun. simpl in Hrun.
    eexists. split; [exact Hrun | reflexivity].
Qed.

Lemma createStory_remote_failure_witness :
  isOffline online_service = false /\
  remote_write (rejecting_env "a" unavailable) (2 + tick (world_with []))
    (story_doc (unique_id (clock (rejecting_env "a" unavailable) (tick (world_with [])))
                          (entropy (rejecting_env "a" unavailable) (1 + tick (world_with []))))
               (sample_payload "a"))
  = Err unavailable /\
  is_network_error unavailable = true /\
  storage_healthy (rejecting_env "a" unavailable) /\
  exists pid stamp w',
    run (rejecting_env "a" unavailable) (createStory online_service (sample_payload "a"))
        (world_with []) = (Ok pid, w') /\
    String.prefix "pending_" pid = true /\
    stored w' = stored (world_with []) ++ [new_entry pid (sample_payload "a") stamp].
Proof.
  split; [reflexivity|]. split; [reflexivity|]. split; [reflexivity|].
  split; [intros n; reflexivity|].
  apply (proj1 (@createStory_remote_failure (rejecting_env "a" unavailable)
                  (world_with []) online_service (sample_payload "a") unavailable
                  eq_refl eq_refl));
    [reflexivity | intros n; reflexivity].
Defined.

(** C3 as stated fails: a remote write rejected with ['permission-denied']
    is not queued; the caller gets an error and the pending list stays
    empty. *)
Lemma createStory_permission_denied_not_queued :
  exists w',
    run (rejecting_env "a" permission_denied)
        (createStory online_service (sample_payload "a")) (world_with [])
    = (Err (FIRESTORE_ERROR permission_denied), w') /\
    stored w' = [].
Proof.
  eexists. split; reflexivity.
Qed.

(* ===================================================================== *)
(** ** Connectivity status *)
(* ===================================================================== *)

Lemma exec_settled (A : Type) env sched (p : Prog A) w r :
  settled p = Some r -> exec env sched p w = (p, w).
Proof.
  intros H. induction sched as [|path sched IH]; simpl; [reflexivity|].
  destruct p; try discriminate; simpl; assumption.
Qed.


(** C10.  Whatever [NetInfo.fetch] does, [getNetworkStatus] fulfils: run to
    its end it returns a status, under every schedule it never reaches a
    throw, and when the fetch rejects the status is
    [{isConnected: false, isInternetReachable: false}]. *)
Theorem getNetworkStatus_never_raises env w :
  (exists s, run env getNetworkStatus w = (Ok s, next_tick w)) /\
  (forall sched e, settled (fst (exec env sched getNetworkStatus w)) <> Some (Err e)) /\
  (forall e, reachability env (tick w) = Err e ->
             run env getNetworkStatus w
             = (Ok {| isConnected := false; isInternetReachable := false |}, next_tick w)).
Proof.
  split; [|split].
  - unfold getNetworkStatus. simpl.
    destruct (reachability env (tick w)); simpl; eexists; reflexivity.
  - intros sched e. destruct sched as [|path sched]; simpl; [discriminate|].
    destruct (reachability env (tick w)); simpl;
      erewrite exec_settled by reflexivity; simpl; discriminate.
  - intros e H. unfold getNetworkStatus. simpl. rewrite H. reflexivity.
Qed.

Lemma getNetworkStatus_never_raises_witness :
  reachability (rejecting_env "a" unavailable) (tick (world_with [])) = Err unavailable /\
  run (rejecting_env "a" unavailable) getNetworkStatus (world_with [])
  = (Ok {| isConnected := false; isInternetReachable := false |},
     next_tick (world_with [])).
Proof.
  split; [reflexivity|].
  exact (proj2 (proj2 (@getNetworkStatus_never_raises (rejecting_env "a" unavailable)
                         (world_with [])))
               unavailable eq_refl).
Defined.

Lemma status_of_eq a b : svc_isConnected b = svc_isConnected a -> status_of b = status_of a.
Proof. intros H. unfold status_of. rewrite H. reflexivity. Qed.

Lemma notified_refl svc : notified svc svc.
Proof.
  split; [reflexivity|]. split; [reflexivity|]. exists []. simpl.
  rewrite app_nil_r. reflexivity.
Qed.

Lemma notified_trans a b c : notified a b -> notified b c -> notified a c.
Proof.
  intros (H1 & H2 & l1 & H3) (H4 & H5 & l2 & H6).
  split; [congruence|]. split; [congruence|].
  exists (l1 ++ l2). rewrite H6, H3, (@status_of_eq a b H1), map_app, app_assoc. reflexivity.
Qed.

Lemma notified_log_call listener svc : notified svc (log_call listener svc).
Proof. split; [reflexivity|]. split; [reflexivity|]. exists [listener]. reflexivity. Qed.

Lemma notified_push_listener listener svc : notified svc (push_listener listener svc).
Proof.
  split; [reflexivity|]. split; [reflexivity|]. exists []. simpl.
  rewrite app_nil_r. reflexivity.
Qed.

Lemma notified_unsubscribe listener svc : notified svc (unsubscribe listener svc).
Proof.
  split; [reflexivity|]. split; [reflexivity|]. exists []. simpl.
  rewrite app_nil_r. reflexivity.
Qed.

Lemma perform_notified reaction : forall svc, notified svc (fst (perform reaction svc)).
Proof.
  induction reaction as [| |listener nested IHn rest IHr|listener rest IHr];
    intros svc; simpl; try apply notified_refl.
  - eapply notified_trans; [|apply IHr].
    eapply notified_trans; [|apply IHn].
    eapply notified_trans; [apply notified_push_listener | apply notified_log_call].
  - eapply notified_trans; [apply notified_unsubscribe | apply IHr].
Qed.

Lemma call_listener_notified react listener svc :
  notified svc (fst (call_listener react listener svc)).
Proof.
  unfold call_listener.
  eapply notified_trans; [apply notified_log_call | apply perform_notified].
Qed.

Lemma forEach_from_notified react remaining : forall index svc,
  notified svc (fst (forEach_from react remaining index svc)).
Proof.
  induction remaining as [|n IH]; intros index svc; simpl; [apply notified_refl|].
  destruct (nth_error (networkListeners svc) index) as [listener|]; [|apply IH].
  pose proof (call_listener_notified react listener svc) as H.
  destruct (call_listener react listener svc) as [svc' [|]]; simpl in *; [assumption|].
  eapply notified_trans; [exact H | apply IH].
Qed.

Lemma subscribeToNetworkStatus_notified react listener svc :
  notified svc (fst (subscribeToNetworkStatus react listener svc)).
Proof.
  unfold subscribeToNetworkStatus.
  pose proof (call_listener_notified react listener (push_listener listener svc)) as H.
  destruct (call_listener react listener (push_listener listener svc)) as [svc' threw].
  simpl in *. eapply notified_trans; [apply notified_push_listener | exact H].
Qed.

(** What the NetInfo callback does whatever the listeners do: the flag is
    set, a sync pass is started on a change to online, and then listeners
    are called with the new status. *)
Lemma on_netinfo_event_effects react state svc :
  svc_isConnected (fst (on_netinfo_event react state svc)) = online state /\
  netinfo_subscribed (fst (on_netinfo_event react state svc)) = netinfo_subscribed svc /\
  exists ls,
    effects (fst (on_netinfo_event react state svc))
    = effects svc
      ++ (if negb (svc_isConnected svc) && online state then [SyncStarted] else [])
      ++ map (fun l => Called l {| isConnected := online state;
                                   isInternetReachable := online state |}) ls.
Proof.
  unfold on_netinfo_event, notifyNetworkListeners.
  match goal with
  | |- context [forEach_from react ?n 0 ?pre] =>
      destruct (forEach_from_notified react n 0 pre) as (H1 & H2 & ls & H3)
  end.
  simpl in *. split; [exact H1|]. split; [exact H2|].
  exists ls. rewrite H3, <- app_assoc. reflexivity.
Qed.






(* ===================================================================== *)
(** ** Listeners *)
(* ===================================================================== *)

Lemma calls_to_app listener a b :
  calls_to listener (a ++ b) = calls_to listener a ++ calls_to listener b.
Proof.
  induction a as [|[l s|] a IH]; simpl; [reflexivity| |assumption].
  destruct (l =? listener); simpl; rewrite IH; reflexivity.
Qed.

Lemma calls_to_notified listener st ls :
  calls_to listener (map (fun x => Called x st) ls)
  = repeat st (count_occ Nat.eq_dec ls listener).
Proof.
  induction ls as [|x ls IH]; simpl; [reflexivity|].
  destruct (Nat.eq_dec x listener) as [E|E].
  - apply Nat.eqb_eq in E. rewrite E. simpl. f_equal. assumption.
  - apply Nat.eqb_neq in E. rewrite E. assumption.
Qed.

Lemma calls_to_started listener (b : bool) :
  calls_to listener (if b then [SyncStarted] else []) = [].
Proof. destruct b; reflexivity. Qed.

Lemma call_listener_quiet react listener svc :
  quiet react -> call_listener react listener svc = (log_call listener svc, false).
Proof. intros Hq. unfold call_listener. rewrite Hq. reflexivity. Qed.

Lemma log_calls_nil svc : log_calls [] svc = svc.
Proof. destruct svc. unfold log_calls. simpl. rewrite app_nil_r. reflexivity. Qed.

Lemma log_calls_cons listener ls svc :
  log_calls ls (log_call listener svc) = log_calls (listener :: ls) svc.
Proof. unfold log_calls, log_call. simpl. rewrite <- app_assoc. reflexivity. Qed.

Lemma skipn_nth_error (A : Type) (l : list A) k x :
  nth_error l k = Some x -> skipn k l = x :: skipn (S k) l.
Proof.
  revert k. induction l as [|y l IH]; intros [|k]; simpl; try discriminate.
  - intros H. inversion H. reflexivity.
  - intros H. rewrite (IH k H). destruct l; [destruct k; discriminate | reflexivity].
Qed.

Lemma skipn_nth_error_None (A : Type) (l : list A) k :
  nth_error l k = None -> skipn k l = [].
Proof. intros H. apply skipn_all2. apply nth_error_None. assumption. Qed.

Lemma forEach_from_quiet react :
  quiet react ->
  forall remaining index svc,
    forEach_from react remaining index svc
    = (log_calls (firstn remaining (skipn index (networkListeners svc))) svc, false).
Proof.
  intros Hq. induction remaining as [|n IH]; intros index svc.
  - simpl. rewrite log_calls_nil. reflexivity.
  - cbn [forEach_from].
    destruct (nth_error (networkListeners svc) index) as [listener|] eqn:E.
    + rewrite call_listener_quiet by assumption. rewrite IH.
      rewrite (@skipn_nth_error _ _ _ _ E). cbn [firstn networkListeners log_call].
      rewrite log_calls_cons. reflexivity.
    + rewrite IH. rewrite (@skipn_nth_error_None _ _ _ E).
      rewrite skipn_all2 by (apply nth_error_None in E; lia).
      rewrite !firstn_nil. reflexivity.
Qed.

Lemma notifyNetworkListeners_quiet react svc :
  quiet react ->
  notifyNetworkListeners react svc = (log_calls (networkListeners svc) svc, false).
Proof.
  intros Hq. unfold notifyNetworkListeners. rewrite forEach_from_quiet by assumption.
  simpl skipn. rewrite firstn_all. reflexivity.
Qed.

Lemma subscribeToNetworkStatus_quiet react listener svc :
  quiet react ->
  subscribeToNetworkStatus react listener svc
  = (log_call listener (push_listener listener svc), Some (unsubscribe listener)).
Proof.
  intros Hq. unfold subscribeToNetworkStatus.
  rewrite call_listener_quiet by assumption. reflexivity.
Qed.

Lemma calls_to_on_netinfo_event react listener state svc :
  quiet react ->
  calls_to listener (effects (fst (on_netinfo_event react state svc)))
  = calls_to listener (effects svc)
    ++ repeat (status_of (fst (on_netinfo_event react state svc)))
              (count_occ Nat.eq_dec (networkListeners svc) listener) /\
  networkListeners (fst (on_netinfo_event react state svc)) = networkListeners svc.
Proof.
  intros Hq. unfold on_netinfo_event.
  rewrite notifyNetworkListeners_quiet by assumption. simpl.
  rewrite !calls_to_app, calls_to_started, app_nil_r, calls_to_notified.
  split; reflexivity.
Qed.



Lemma splice_first_other listener other ls :
  other <> listener -> In listener ls -> In listener (splice_first other ls).
Proof.
  intros Hne. induction ls as [|x ls IH]; simpl; [auto|].
  intros [H|H].
  - subst x. destruct (listener =? other) eqn:E.
    + apply Nat.eqb_eq in E. congruence.
    + left. reflexivity.
  - destruct (x =? other); [assumption | right; auto].
Qed.





(** C9 as stated also fails when a listener throws: [forEach] ends at the
    throw, so a listener registered after the one that throws is not called
    on the event, though it is registered; and the listener that throws at
    its immediate call stays registered while no handle is returned. *)
Lemma throwing_listener_stops_later_listeners :
  let svc1 := fst (subscribeToNetworkStatus (throwing 1) 1
                     (initializeNetworkListener
                        (Ok {| netinfo_isConnected := Some true;
                               netinfo_isInternetReachable := Some true |})
                        new_service)) in
  let svc2 := fst (subscribeToNetworkStatus (throwing 1) 2 svc1) in
  let svc3 := netinfo_event (throwing 1)
                {| netinfo_isConnected := Some false;
                   netinfo_isInternetReachable := Some false |} svc2 in
  snd (subscribeToNetworkStatus (throwing 1) 1
         (initializeNetworkListener
            (Ok {| netinfo_isConnected := Some true;
                   netinfo_isInternetReachable := Some true |})
            new_service)) = None /\
  networkListeners svc3 = [1; 2] /\
  isOffline svc3 = true /\
  calls_to 2 (effects svc3) = calls_to 2 (effects svc2) /\
  calls_to 1 (effects svc3) = calls_to 1 (effects svc2) ++ [status_of svc3].
Proof.
  simpl. repeat split.
Qed.

(** A listener that unsubscribes itself from inside the call makes
    [forEach] skip the listener registered after it. *)
Lemma unsubscribing_listener_skips_next_listener :
  let react : Behaviour :=
    fun n listener _ => if (listener =? 1) && (2 <=? n) then Unsubscribes 1 Returns
                        else Returns in
  let svc2 := apply_ops react
                [OpInitialized (Ok {| netinfo_isConnected := Some true;
                                      netinfo_isInternetReachable := Some true |});
                 OpSubscribe 1; OpSubscribe 2] new_service in
  let svc3 := netinfo_event react
                {| netinfo_isConnected := Some false;
                   netinfo_isInternetReachable := Some false |} svc2 in
  networkListeners svc2 = [1; 2] /\
  networkListeners svc3 = [2] /\
  calls_to 2 (effects svc3) = calls_to 2 (effects svc2).
Proof.
  simpl. repeat split.
Qed.

(* ===================================================================== *)
(** ** The sync pass, run serially *)
(* ===================================================================== *)

Lemma run_Date_now env w :
  run env Date_now w = (Ok (clock env (tick w)), next_tick w).
Proof. reflexivity. Qed.

Lemma run_Math_random_suffix env w :
  run env Math_random_suffix w = (Ok (entropy env (tick w)), next_tick w).
Proof. reflexivity. Qed.

Lemma run_addDoc env d w :
  run env (addDoc d) w
  = (remote_write env (tick w) d, record_write d (is_ok (remote_write env (tick w) d)) w).
Proof.
  unfold addDoc. simpl. unfold do_addDoc.
  destruct (remote_write env (tick w) d); reflexivity.
Qed.

Lemma run_syncStory env w e :
  storage_healthy env ->
  exists w',
    run env (syncStory e) w = (Ok tt, w') /\
    stored w' =
    sync_effect e
      (is_ok (remote_write env (2 + tick w)
                (story_doc (unique_id (clock env (tick w)) (entropy env (1 + tick w)))
                           (storyData e))))
      (stored w).
Proof.
  intros H. unfold syncStory, sync_effect.
  destruct (MAX_RETRY_COUNT <=? retryCount e)%Z.
  - rewrite run_try_catch, run_removePendingStory by apply H.
    eexists. split; reflexivity.
  - rewrite run_try_catch, run_bind, run_Date_now. cbv beta iota.
    rewrite run_bind, run_Math_random_suffix. cbv beta iota.
    rewrite run_bind, run_addDoc. cbn [tick next_tick Nat.add].
    destruct (remote_write env (S (S (tick w))) _) as [docId|err]; cbv beta iota.
    + rewrite run_removePendingStory by apply H.
      eexists. split; reflexivity.
    + rewrite run_bind, run_getPendingStories by apply H. cbv beta iota.
      match goal with
      | |- context [find ?f ?l] => destruct (find f l) eqn:E
      end.
      * simpl. unfold do_setItem. rewrite H. simpl.
        eexists. split; reflexivity.
      * simpl. eexists. split; [reflexivity|].
        unfold stored at 1. simpl. fold (stored w).
        unfold stored at 1 in E. simpl in E. fold (stored w) in E.
        clear - E. induction (stored w) as [|x l IH]; simpl in *; [reflexivity|].
        destruct (id x =? id e)%string; [discriminate|]. f_equal. auto.
Qed.

Lemma run_syncPendingStories env w :
  storage_fault env (tick w) = None ->
  run env syncPendingStories w
  = (Ok tt, snd (run_all env (map syncStory (stored w)) (next_tick w))).
Proof.
  intros H. unfold syncPendingStories.
  rewrite run_try_catch, run_bind, run_getPendingStories by assumption.
  cbv beta iota.
  destruct (stored w) as [|e l]; [reflexivity|].
  cbn [List.length Nat.eqb]. rewrite run_AllSettled.
  destruct (run_all env (map syncStory (e :: l)) (next_tick w)). reflexivity.
Qed.



Lemma without_id_app i a b : without_id i (a ++ b) = without_id i a ++ without_id i b.
Proof. unfold without_id. apply filter_app. Qed.






(* ===================================================================== *)
(** ** Scheduled runs: what every interleaving preserves *)
(* ===================================================================== *)

Lemma step_AllSettled (A : Type) env path ts (k : list (Result unit) -> Prog A) w :
  step env path (AllSettled ts k) w =
  match all_settled ts with
  | Some rs => (k rs, w)
  | None =>
      match path with
      | [] => (AllSettled ts k, w)
      | i :: path' =>
          let '(ts', w') := step_task env i path' ts w in (AllSettled ts' k, w')
      end
  end.
Proof.
  simpl. destruct (all_settled ts); [reflexivity|].
  destruct path as [|i path']; [reflexivity|].
  match goal with
  | |- (let '(_, _) := ?f ts i in _) = _ =>
      assert (H : forall ts i, f ts i = step_task env i path' ts w)
  end.
  { clear. induction ts as [|t ts IH]; intros i; simpl; [reflexivity|].
    destruct i; [reflexivity|]. rewrite IH. reflexivity. }
  rewrite H. reflexivity.
Qed.

Section CostFacts.
Variable I : Blob -> Prop.
Variable sel : StoryDoc -> bool.

Lemma Cost_AllSettled (A : Type) b lo hi ts (k : list (Result unit) -> Prog A) :
  Cost I sel b lo hi (AllSettled ts k) <->
  exists l1 h1 l2 h2,
    Costs I sel ts l1 h1 /\ (forall rs, Cost I sel b l2 h2 (k rs)) /\
    lo <= l1 + l2 /\ h1 + h2 <= hi.
Proof.
  simpl. 
  match goal with
  | |- (exists l1 h1 l2 h2, ?f ts l1 h1 /\ _) <-> _ =>
      assert (H : forall ts lo hi, f ts lo hi <-> Costs I sel ts lo hi)
  end.
  { clear. induction ts as [|t ts IH]; intros lo hi; simpl; [tauto|].
    split; intros (l1 & h1 & l2 & h2 & H1 & H2 & H3);
      exists l1, h1, l2, h2; (split; [assumption|]); (split; [apply IH; assumption | assumption]). }
  split; intros (l1 & h1 & l2 & h2 & H1 & H2); exists l1, h1, l2, h2;
    (split; [apply H; assumption | assumption]).
Qed.

Lemma Costs_settled ts rs lo hi :
  all_settled ts = Some rs -> Costs I sel ts lo hi -> lo = 0.
Proof.
  revert rs lo hi. induction ts as [|t ts IH]; intros rs lo hi Hs Hc; simpl in *.
  - assumption.
  - destruct (settled t) as [r|] eqn:Et; [|discriminate].
    destruct (all_settled ts) as [rs'|] eqn:Ets; [|discriminate].
    destruct Hc as (l1 & h1 & l2 & h2 & H1 & H2 & H3 & H4).
    assert (l2 = 0) by (eapply IH; eauto).
    assert (l1 = 0) by (destruct t; try discriminate; simpl in H1; tauto).
    lia.
Qed.

Lemma step_task_cost env path ts :
  Forall (@step_ok I sel unit) ts ->
  forall i w lo hi,
    store_ok I w -> Costs I sel ts lo hi ->
    store_ok I (snd (step_task env i path ts w)) /\
    exists lo' hi',
      Costs I sel (fst (step_task env i path ts w)) lo' hi' /\
      counted sel w + lo <= counted sel (snd (step_task env i path ts w)) + lo' /\
      counted sel (snd (step_task env i path ts w)) + hi' <= counted sel w + hi.
Proof.
  induction 1 as [|t ts Ht Hts IH]; intros i w lo hi Hw Hc; simpl.
  - split; [assumption|]. exists lo, hi. split; [assumption | lia].
  - simpl in Hc. destruct Hc as (l1 & h1 & l2 & h2 & H1 & H2 & H3 & H4).
    destruct i as [|j].
    + destruct (Ht env path w true l1 h1 Hw H1) as (Hw' & l1' & h1' & Hc' & Hlo & Hhi).
      destruct (step env path t w) as [t' w']. simpl in *.
      split; [assumption|]. exists (l1' + l2), (h1' + h2).
      split; [|lia]. exists l1', h1', l2, h2. repeat split; auto.
    + destruct (IH j w l2 h2 Hw H2) as (Hw' & l2' & h2' & Hc' & Hlo & Hhi).
      destruct (step_task env j path ts w) as [ts' w']. simpl in *.
      split; [assumption|]. exists (l1 + l2'), (h1 + h2').
      split; [|lia]. exists l1, h1, l2', h2'. repeat split; auto.
Qed.

Ltac same_bounds lo hi :=
  exists lo, hi; split; [ | unfold counted; simpl; lia ].

Lemma step_cost (A : Type) (p : Prog A) : step_ok I sel p.
Proof.
  induction p using Prog_nested_ind; unfold step_ok in *;
    intros env path w b lo hi Hw Hc.
  - (* Ret *)
    simpl. split; [assumption|]. same_bounds lo hi. exact Hc.
  - (* Throw *)
    simpl. split; [assumption|]. same_bounds lo hi. exact Hc.
  - (* GetItem *)
    simpl in Hc. simpl. unfold do_getItem.
    destruct (storage_fault env (tick w)); simpl;
      (split; [assumption|]); same_bounds lo hi; apply Hc.
    + exact Logic.I.
    + unfold store_ok in Hw. simpl. destruct (storage w); auto.
  - (* SetItem *)
    simpl in Hc. destruct Hc as [Hv Hc]. simpl. unfold do_setItem.
    destruct (storage_fault env (tick w)); simpl.
    + split; [assumption|]. same_bounds lo hi. apply Hc.
    + split; [exact Hv|]. same_bounds lo hi. apply Hc.
  - (* RemoveItem *)
    simpl in Hc. simpl. unfold do_removeItem.
    destruct (storage_fault env (tick w)); simpl.
    + split; [assumption|]. same_bounds lo hi. apply Hc.
    + split; [exact Logic.I|]. same_bounds lo hi. apply Hc.
  - (* AddDoc *)
    simpl in Hc. simpl. unfold do_addDoc. simpl.
    split; [assumption|].
    unfold counted. simpl. rewrite filter_app, length_app. simpl.
    destruct (sel d).
    + destruct Hc as (hi' & -> & Hc). exists (pred lo), hi'.
      split; [apply Hc|]. simpl. lia.
    + exists lo, hi. split; [apply Hc|]. simpl. lia.
  - (* DateNow *)
    simpl in Hc. simpl. split; [assumption|]. same_bounds lo hi. apply Hc.
  - (* MathRandom *)
    simpl in Hc. simpl. split; [assumption|]. same_bounds lo hi. apply Hc.
  - (* NetInfoFetch *)
    simpl in Hc. simpl. split; [assumption|]. same_bounds lo hi. apply Hc.
  - (* AllSettled *)
    apply Cost_AllSettled in Hc.
    destruct Hc as (l1 & h1 & l2 & h2 & H1 & H2 & H3 & H4).
    rewrite step_AllSettled.
    destruct (all_settled ts) as [rs|] eqn:Es.
    + simpl. split; [assumption|].
      assert (l1 = 0) by (eapply Costs_settled; eauto).
      exists l2, h2. split; [apply H2|]. lia.
    + destruct path as [|i path'].
      * simpl. split; [assumption|]. same_bounds lo hi.
        apply Cost_AllSettled. exists l1, h1, l2, h2. auto.
      * destruct (@step_task_cost env path' ts H i w l1 h1 Hw H1)
          as (Hw' & l1' & h1' & Hc' & Hlo & Hhi).
        destruct (step_task env i path' ts w) as [ts' w']. simpl in *.
        split; [assumption|]. exists (l1' + l2), (h1' + h2).
        split; [|lia]. apply Cost_AllSettled.
        exists l1', h1', l2, h2. repeat split; auto.
Qed.

Lemma exec_cost (A : Type) env sched : forall (p : Prog A) w b lo hi,
  store_ok I w -> Cost I sel b lo hi p ->
  store_ok I (snd (exec env sched p w)) /\
  exists lo' hi',
    Cost I sel b lo' hi' (fst (exec env sched p w)) /\
    counted sel w + lo <= counted sel (snd (exec env sched p w)) + lo' /\
    counted sel (snd (exec env sched p w)) + hi' <= counted sel w + hi.
Proof.
  induction sched as [|path sched IH]; intros p w b lo hi Hw Hc; simpl.
  - split; [assumption|]. exists lo, hi. split; [assumption | lia].
  - destruct (step_cost p env path w b lo hi Hw Hc) as (Hw1 & lo1 & hi1 & Hc1 & Hlo & Hhi).
    destruct (step env path p w) as [p1 w1]. simpl in *.
    destruct (IH p1 w1 b lo1 hi1 Hw1 Hc1) as (Hw2 & lo2 & hi2 & Hc2 & Hlo2 & Hhi2).
    split; [assumption|]. exists lo2, hi2. split; [assumption|]. lia.
Qed.

Lemma Cost_weaken (A : Type) (p : Prog A) : forall b lo hi lo' hi',
  Cost I sel b lo hi p -> lo' <= lo -> hi <= hi' -> Cost I sel b lo' hi' p.
Proof.
  induction p using Prog_nested_ind; intros b lo hi lo' hi' Hc Hlo Hhi;
    simpl in *; try (intros; eapply H; eauto; fail).
  - lia.
  - destruct Hc. split; [lia | assumption].
  - destruct Hc as [Hv Hc]. split; [assumption|]. intros r. eapply H; eauto.
  - destruct (sel d).
    + destruct Hc as (h & -> & Hc). destruct hi' as [|hi']; [lia|].
      exists hi'. split; [reflexivity|]. intros r. eapply H; eauto; lia.
    + intros r. eapply H; eauto.
  - destruct Hc as (l1 & h1 & l2 & h2 & H1 & H2 & H3 & H4).
    exists l1, h1, l2, h2. repeat split; auto; lia.
Qed.

Lemma Cost_try_catch (A : Type) (p : Prog A) : forall h b lo hi hh,
  Cost I sel true lo hi p -> (forall e, Cost I sel b 0 hh (h e)) ->
  Cost I sel b lo (hi + hh) (try_catch p h).
Proof.
  induction p using Prog_nested_ind; intros h b lo hi hh Hc Hh;
    simpl in *; try (intros; eapply H; eauto; fail).
  - assumption.
  - destruct Hc as [-> _]. eapply Cost_weaken; [apply Hh | lia | lia].
  - destruct Hc as [Hv Hc]. split; [assumption|]. intros r. eapply H; eauto.
  - destruct (sel d).
    + destruct Hc as (h' & -> & Hc). exists (h' + hh).
      split; [reflexivity|]. intros r. eapply H; eauto.
    + intros r. eapply H; eauto.
  - destruct Hc as (l1 & h1 & l2 & h2 & H1 & H2 & H3 & H4).
    exists l1, h1, l2, (h2 + hh). repeat split; auto; lia.
Qed.

Lemma Cost_bind (A B : Type) (p : Prog A) : forall (f : A -> Prog B) b lo hi hf,
  Cost I sel b lo hi p -> (forall a, Cost I sel b 0 hf (f a)) ->
  Cost I sel b lo (hi + hf) (bind p f).
Proof.
  induction p using Prog_nested_ind; intros f b lo hi hf Hc Hf;
    simpl in *; try (intros; eapply H; eauto; fail).
  - subst lo. eapply Cost_weaken; [apply Hf | lia | lia].
  - assumption.
  - destruct Hc as [Hv Hc]. split; [assumption|]. intros r. eapply H; eauto.
  - destruct (sel d).
    + destruct Hc as (h' & -> & Hc). exists (h' + hf).
      split; [reflexivity|]. intros r. eapply H; eauto.
    + intros r. eapply H; eauto.
  - destruct Hc as (l1 & h1 & l2 & h2 & H1 & H2 & H3 & H4).
    exists l1, h1, l2, (h2 + hf). repeat split; auto; lia.
Qed.

Lemma cost_settle (A : Type) (r : Result A) hi : Cost I sel true 0 hi (settle r).
Proof. destruct r; simpl; auto. Qed.

End CostFacts.

Lemma doc_payload_story_doc uniqueId data :
  doc_payload (story_doc uniqueId data) = data.
Proof. destruct data; reflexivity. Qed.

Section SyncCost.
Variable I : Blob -> Prop.
Variable selp : StoryCreateData -> bool.
Let sel (d : StoryDoc) : bool := selp (doc_payload d).

Hypothesis I_nil : I [].
Hypothesis I_without_id : forall i l, I l -> I (without_id i l).
Hypothesis I_increment_found : forall i l, I l -> I (increment_found i l).

Lemma cost_removePendingStory i hi :
  Cost I sel true 0 hi (removePendingStory i).
Proof.
  unfold removePendingStory, getPendingStories. simpl.
  intros [[l|]|e] Hr; simpl in *; auto.
  - split; [apply I_without_id; assumption|]. intros [|]; simpl; auto.
  - split; [apply I_nil|]. intros [|]; simpl; auto.
Qed.

Lemma cost_catch_increment i hi :
  Cost I sel true 0 hi
    (updatedStories <- getPendingStories ;;
     match find (fun s => id s =? i)%string updatedStories with
     | Some _ => AsyncStorage_setItem (increment_found i updatedStories)
     | None => Ret tt
     end).
Proof.
  unfold getPendingStories. simpl.
  intros [[l|]|e] Hr; simpl in *; auto.
  destruct (find _ l); simpl; auto.
  split; [apply I_increment_found; assumption|]. intros [|]; simpl; auto.
Qed.

Lemma cost_addDoc d :
  Cost I sel true (if sel d then 1 else 0) (if sel d then 1 else 0) (addDoc d).
Proof.
  unfold addDoc. simpl. destruct (sel d).
  - exists 0. split; [reflexivity|]. intros r. apply cost_settle.
  - intros r. apply cost_settle.
Qed.

Lemma cost_syncStory e :
  Cost I sel true (if attempted selp e then 1 else 0)
                  (if attempted selp e then 1 else 0) (syncStory e).
Proof.
  unfold attempted, syncStory.
  destruct (MAX_RETRY_COUNT <=? retryCount e)%Z; cbn [negb andb].
  - refine (@Cost_try_catch _ _ _ _ _ true 0 0 0 _ _).
    + apply cost_removePendingStory.
    + intros err. apply cost_catch_increment.
  - cbn [bind try_catch Date_now Math_random_suffix]. intros now suffix.
    pose proof (cost_addDoc
                  (story_doc (unique_id now suffix) (storyData e))) as Hd.
    assert (Hs : sel (story_doc (unique_id now suffix) (storyData e))
                 = selp (storyData e))
      by (unfold sel; rewrite doc_payload_story_doc; reflexivity).
    rewrite Hs in Hd. clear Hs.
    destruct (selp (storyData e)).
    + refine (@Cost_try_catch _ _ _ _ _ true 1 1 0 _ _).
      * refine (@Cost_bind _ _ _ _ _ _ true 1 1 0 Hd _).
        intros _. apply cost_removePendingStory.
      * intros err. apply cost_catch_increment.
    + refine (@Cost_try_catch _ _ _ _ _ true 0 0 0 _ _).
      * refine (@Cost_bind _ _ _ _ _ _ true 0 0 0 Hd _).
        intros _. apply cost_removePendingStory.
      * intros err. apply cost_catch_increment.
Qed.

Lemma costs_syncStory l :
  Costs I sel (map syncStory l) (List.length (filter (attempted selp) l))
                                (List.length (filter (attempted selp) l)).
Proof.
  induction l as [|e l IH]; simpl; [reflexivity|].
  eexists _, _, _, _. split; [apply cost_syncStory|]. split; [exact IH|].
  destruct (attempted selp e); simpl; lia.
Qed.
End SyncCost.

(* ===================================================================== *)
(** ** A serial run is a scheduled run *)
(* ===================================================================== *)

Lemma Trace_exec env (A : Type) (p : Prog A) w sched p' w' :
  Trace env p w sched p' w' -> exec env sched p w = (p', w').
Proof.
  induction 1 as [|p w path p1 w1 sched p2 w2 Hs Hstep _ IH]; simpl; [reflexivity|].
  rewrite Hstep. assumption.
Qed.

Lemma Trace_app env (A : Type) (p : Prog A) w s1 p1 w1 s2 p2 w2 :
  Trace env p w s1 p1 w1 -> Trace env p1 w1 s2 p2 w2 ->
  Trace env p w (s1 ++ s2) p2 w2.
Proof.
  induction 1; simpl; intros H'; [assumption|].
  econstructor; eauto.
Qed.

Lemma all_settled_unsettled (A : Type) (pre : list (Prog A)) t post :
  settled t = None -> all_settled (pre ++ t :: post) = None.
Proof.
  intros H. induction pre as [|x pre IH]; simpl.
  - rewrite H. reflexivity.
  - rewrite IH. destruct (settled x); reflexivity.
Qed.

Lemma step_task_at env path pre t post w :
  step_task env (List.length pre) path (pre ++ t :: post) w
  = (pre ++ fst (step env path t w) :: post, snd (step env path t w)).
Proof.
  induction pre as [|x pre IH]; simpl.
  - destruct (step env path t w). reflexivity.
  - rewrite IH. reflexivity.
Qed.

Lemma Trace_task env (A : Type) (k : list (Result unit) -> Prog A) pre post t w s t' w' :
  Trace env t w s t' w' ->
  Trace env (AllSettled (pre ++ t :: post) k) w
        (map (cons (List.length pre)) s)
        (AllSettled (pre ++ t' :: post) k) w'.
Proof.
  induction 1 as [|p w path p1 w1 sched p2 w2 Hs Hstep _ IH]; simpl.
  - constructor.
  - econstructor; [reflexivity| |exact IH].
    rewrite step_AllSettled, all_settled_unsettled by assumption.
    rewrite step_task_at, Hstep. reflexivity.
Qed.

Lemma all_settled_app (A : Type) (pre : list (Prog A)) rs t r :
  all_settled pre = Some rs -> settled t = Some r ->
  all_settled (pre ++ [t]) = Some (rs ++ [r]).
Proof.
  revert rs. induction pre as [|x pre IH]; intros rs Hp Ht; simpl in *.
  - inversion Hp. rewrite Ht. reflexivity.
  - destruct (settled x); [|discriminate].
    destruct (all_settled pre) as [rs'|]; [|discriminate].
    inversion Hp. rewrite (IH rs' eq_refl Ht). reflexivity.
Qed.

Lemma settled_settle (A : Type) (r : Result A) : settled (settle r) = Some r.
Proof. destruct r; reflexivity. Qed.

Lemma run_all_trace env (A : Type) (k : list (Result unit) -> Prog A) post :
  Forall (@serial_trace unit) post ->
  forall pre rs_pre w,
    all_settled pre = Some rs_pre ->
    exists sched done,
      Trace env (AllSettled (pre ++ post) k) w sched (AllSettled (pre ++ done) k)
            (snd (run_all env post w)) /\
      all_settled (pre ++ done) = Some (rs_pre ++ fst (run_all env post w)).
Proof.
  induction 1 as [|t post Ht _ IH]; intros pre rs_pre w Hpre; simpl.
  - exists [], []. split; [constructor|]. rewrite !app_nil_r. assumption.
  - destruct (Ht env w) as [s1 H1].
    destruct (run env t w) as [r w1] eqn:Er. simpl in H1.
    assert (Hpre' : all_settled (pre ++ [settle r]) = Some (rs_pre ++ [r]))
      by (apply all_settled_app; [assumption | apply settled_settle]).
    destruct (IH (pre ++ [settle r]) (rs_pre ++ [r]) w1 Hpre') as (s2 & done & H2 & H3).
    destruct (run_all env post w1) as [rs w2] eqn:Ea. simpl in *.
    exists (map (cons (List.length pre)) s1 ++ s2), (settle r :: done).
    rewrite <- !app_assoc in *. simpl in *.
    split; [|assumption].
    eapply Trace_app; [|exact H2].
    apply Trace_task. assumption.
Qed.

Lemma run_is_a_trace (A : Type) (p : Prog A) : serial_trace p.
Proof.
  induction p using Prog_nested_ind; unfold serial_trace in *; intros env w.
  - exists []. constructor.
  - exists []. constructor.
  - simpl. destruct (do_getItem env w) as [r w1] eqn:E.
    destruct (H r env w1) as [s Hs]. exists ([] :: s).
    econstructor; [reflexivity| |exact Hs]. simpl. rewrite E. reflexivity.
  - simpl. destruct (do_setItem env v w) as [r w1] eqn:E.
    destruct (H r env w1) as [s Hs]. exists ([] :: s).
    econstructor; [reflexivity| |exact Hs]. simpl. rewrite E. reflexivity.
  - simpl. destruct (do_removeItem env w) as [r w1] eqn:E.
    destruct (H r env w1) as [s Hs]. exists ([] :: s).
    econstructor; [reflexivity| |exact Hs]. simpl. rewrite E. reflexivity.
  - simpl.
    destruct (H (remote_write env (tick w) d) env
                (record_write d (is_ok (remote_write env (tick w) d)) w)) as [s Hs].
    exists ([] :: s). econstructor; [reflexivity| |exact Hs]. reflexivity.
  - simpl. destruct (H (clock env (tick w)) env (next_tick w)) as [s Hs].
    exists ([] :: s). econstructor; [reflexivity| |exact Hs]. reflexivity.
  - simpl. destruct (H (entropy env (tick w)) env (next_tick w)) as [s Hs].
    exists ([] :: s). econstructor; [reflexivity| |exact Hs]. reflexivity.
  - simpl. destruct (H (reachability env (tick w)) env (next_tick w)) as [s Hs].
    exists ([] :: s). econstructor; [reflexivity| |exact Hs]. reflexivity.
  - rewrite run_AllSettled.
    destruct (@run_all_trace env A k ts H [] [] w eq_refl) as (s1 & done & H1 & H2).
    destruct (run_all env ts w) as [rs w1] eqn:E. simpl in *.
    destruct (H0 rs env w1) as [s2 H3].
    exists (s1 ++ [] :: s2).
    eapply Trace_app; [exact H1|].
    econstructor; [reflexivity| |exact H3].
    rewrite step_AllSettled, H2. reflexivity.
Qed.

(* ===================================================================== *)
(** ** The sync pass under every schedule *)
(* ===================================================================== *)

Lemma attempted_without_id selp i l :
  List.length (filter (attempted selp) (without_id i l))
  <= List.length (filter (attempted selp) l).
Proof.
  unfold without_id. induction l as [|x l IH]; simpl; [lia|].
  destruct (negb (id x =? i)%string); simpl; destruct (attempted selp x); simpl; lia.
Qed.

Lemma attempted_with_retryCount selp e :
  attempted selp (with_retryCount (retryCount e + 1) e) = true ->
  attempted selp e = true.
Proof.
  unfold attempted. simpl. rewrite !andb_true_iff, !negb_true_iff, !Z.leb_gt.
  intros [H1 H2]. split; [lia | assumption].
Qed.

Lemma attempted_increment_found selp i l :
  List.length (filter (attempted selp) (increment_found i l))
  <= List.length (filter (attempted selp) l).
Proof.
  induction l as [|x l IH]; simpl; [lia|].
  destruct (id x =? i)%string; simpl.
  - destruct (attempted selp (with_retryCount (retryCount x + 1) x)) eqn:E.
    + rewrite (attempted_with_retryCount selp x E). simpl. lia.
    + destruct (attempted selp x); simpl; lia.
  - destruct (attempted selp x); simpl; lia.
Qed.

Section DrainCost.
Variable I : Blob -> Prop.
Variable selp : StoryCreateData -> bool.
Let sel (d : StoryDoc) : bool := selp (doc_payload d).

Hypothesis I_nil : I [].
Hypothesis I_without_id : forall i l, I l -> I (without_id i l).
Hypothesis I_increment_found : forall i l, I l -> I (increment_found i l).

Variable c : nat.
Hypothesis I_bound : forall l, I l -> List.length (filter (attempted selp) l) <= c.

Lemma cost_syncPendingStories : Cost I sel true 0 c syncPendingStories.
Proof.
  unfold syncPendingStories, getPendingStories. simpl.
  intros [[l|]|e] Hr; simpl in *; auto.
  destruct l as [|e l]; [reflexivity|].
  change (Cost I sel true 0 c
            (AllSettled (map syncStory (e :: l)) (fun _ => Ret tt))).
  apply Cost_AllSettled.
  exists (List.length (filter (attempted selp) (e :: l))),
         (List.length (filter (attempted selp) (e :: l))), 0, 0.
  split; [apply costs_syncStory; assumption|].
  split; [reflexivity|]. pose proof (I_bound Hr). lia.
Qed.

Lemma cost_forceSyncPendingStories : Cost I sel true 0 c forceSyncPendingStories.
Proof.
  unfold forceSyncPendingStories.
  refine (@Cost_weaken I sel _ _ true 0 (c + 0) 0 c _ _ _); [|lia|lia].
  apply Cost_bind; [apply cost_syncPendingStories | reflexivity].
Qed.

Lemma cost_concurrently :
  Cost I sel false 0 (2 * c)
       (concurrently [syncPendingStories; forceSyncPendingStories]).
Proof.
  unfold concurrently. apply Cost_AllSettled.
  exists 0, (c + c), 0, 0. split; [|split; [reflexivity | lia]].
  simpl. exists 0, c, 0, c.
  split; [apply cost_syncPendingStories|]. split; [|lia].
  exists 0, c, 0, 0.
  split; [apply cost_forceSyncPendingStories|]. split; [reflexivity | lia].
Qed.
End DrainCost.

Lemma counted_all w : counted (fun _ => true) w = List.length (attempts w).
Proof.
  unfold counted. induction (attempts w) as [|d l IH]; simpl; [reflexivity|].
  rewrite IH. reflexivity.
Qed.

Lemma below_ceiling_attempted l :
  filter (attempted (fun _ => true)) l = below_ceiling l.
Proof.
  unfold below_ceiling, attempted. apply filter_ext. intros e. apply andb_true_r.
Qed.




Lemma step_syncPendingStories env path w :
  storage_fault env (tick w) = None ->
  step env path syncPendingStories w
  = (match stored w with
     | [] => Ret tt
     | _ :: _ => AllSettled (map syncStory (stored w)) (fun _ => Ret tt)
     end, next_tick w).
Proof.
  intros H. unfold syncPendingStories, getPendingStories, stored. simpl.
  unfold do_getItem. rewrite H.
  destruct (storage w) as [[|e l]|]; reflexivity.
Qed.

Lemma cost_drain_tasks selp l :
  Cost (fun _ => True) (fun d => selp (doc_payload d)) false
       (List.length (filter (attempted selp) l))
       (List.length (filter (attempted selp) l))
       (match l with
        | [] => Ret tt
        | _ :: _ => AllSettled (map syncStory l) (fun _ => Ret tt)
        end).
Proof.
  destruct l as [|e l]; [reflexivity|].
  apply Cost_AllSettled.
  exists (List.length (filter (attempted selp) (e :: l))),
         (List.length (filter (attempted selp) (e :: l))), 0, 0.
  split; [|split; [reflexivity | lia]].
  apply (@costs_syncStory (fun _ => True) selp); auto.
Qed.


(* ===================================================================== *)
(** ** Properties of the sync pass *)
(* ===================================================================== *)

(** C2 (amended).  Sync passes are not coordinated: each call reads the
    list and starts a task per entry.  Under every schedule and whatever the
    platform answers, one call makes at most one remote write per stored
    entry below the ceiling, and a [syncPendingStories] overlapping a
    [forceSyncPendingStories] makes at most two: for every class [selp] of
    payloads, the remote writes of payloads in the class number at most
    once, resp. twice, the stored entries below the ceiling in the class. *)
Theorem concurrent_drains_attempts (selp : StoryCreateData -> bool) env sched w :
  let sel := fun d => selp (doc_payload d) in
  let c := List.length (filter (attempted selp) (stored w)) in
  counted sel (snd (exec env sched syncPendingStories w)) <= counted sel w + c /\
  counted sel (snd (exec env sched
                      (concurrently [syncPendingStories; forceSyncPendingStories]) w))
  <= counted sel w + 2 * c.
Proof.
  intros sel c.
  set (I := fun l : Blob => List.length (filter (attempted selp) l) <= c).
  assert (Hnil : I []) by (unfold I; simpl; lia).
  assert (Hwo : forall i l, I l -> I (without_id i l)).
  { unfold I. intros i l H. pose proof (attempted_without_id selp i l). lia. }
  assert (Hinc : forall i l, I l -> I (increment_found i l)).
  { unfold I. intros i l H. pose proof (attempted_increment_found selp i l). lia. }
  assert (Hb : forall l, I l -> List.length (filter (attempted selp) l) <= c)
    by (unfold I; auto).
  assert (Hw : store_ok I w).
  { unfold store_ok, I, c, stored. destruct (storage w); [lia | exact Logic.I]. }
  split.
  - destruct (@exec_cost I sel unit env sched syncPendingStories w true 0 c Hw
                (@cost_syncPendingStories I selp Hnil Hwo Hinc c Hb))
      as (_ & lo' & hi' & _ & _ & H).
    fold sel in H. lia.
  - destruct (@exec_cost I sel _ env sched
                (concurrently [syncPendingStories; forceSyncPendingStories])
                w false 0 (2 * c) Hw
                (@cost_concurrently I selp Hnil Hwo Hinc c Hb))
      as (_ & lo' & hi' & _ & _ & H).
    fold sel in H. lia.
Qed.

(** C2 as stated fails: two overlapping passes both write the one pending
    entry to the remote store, which ends with two documents for it. *)
Lemma concurrent_drains_duplicate_remote_record :
  let run2 :=
    exec calm_env overlapping_passes
         (concurrently [syncPendingStories; forceSyncPendingStories])
         (world_with [sample_entry "p1" "a" 0]) in
  settled (fst run2) = Some (Ok [Ok tt; Ok tt]) /\
  map doc_payload (attempts (snd run2)) = [sample_payload "a"; sample_payload "a"] /\
  map doc_payload (stories (snd run2)) = [sample_payload "a"; sample_payload "a"].
Proof.
  vm_compute. repeat split.
Qed.

(** C6 (amended).  When the pass can read the list, whatever happens to
    the entries (remote writes rejected, storage failing during the
    per-entry bookkeeping) and however the tasks are interleaved, the pass
    fulfils with no value and exactly one remote write has been made for
    each entry that was below the ceiling; run serially the pass does
    settle.  The pass returns nothing: what happened to each entry is only
    logged. *)
Theorem syncPendingStories_isolates_failures env w :
  storage_fault env (tick w) = None ->
  (exists sched w',
     run env syncPendingStories w = (Ok tt, w') /\
     exec env sched syncPendingStories w = (Ret tt, w')) /\
  (forall sched r,
     settled (fst (exec env sched syncPendingStories w)) = Some r ->
     r = Ok tt /\
     (forall selp,
        counted (fun d => selp (doc_payload d)) (snd (exec env sched syncPendingStories w))
        = counted (fun d => selp (doc_payload d)) w
          + List.length (filter (attempted selp) (stored w))) /\
     List.length (attempts (snd (exec env sched syncPendingStories w)))
     = List.length (attempts w) + List.length (below_ceiling (stored w))).
Proof.
  intros Hread.
  assert (Hcount : forall sched r selp,
     settled (fst (exec env sched syncPendingStories w)) = Some r ->
     r = Ok tt /\
     counted (fun d => selp (doc_payload d)) (snd (exec env sched syncPendingStories w))
     = counted (fun d => selp (doc_payload d)) w
       + List.length (filter (attempted selp) (stored w))).
  { intros [|path sched] r selp; [simpl; discriminate|].
    cbn [exec]. rewrite step_syncPendingStories by assumption.
    destruct (@exec_cost (fun _ => True) (fun d => selp (doc_payload d)) unit env sched _
                (next_tick w) false _ _
                (ltac:(unfold store_ok; destruct (storage (next_tick w)); exact Logic.I))
                (cost_drain_tasks selp (stored w)))
      as (_ & lo' & hi' & Hc & Hlo & Hhi).
    change (counted (fun d => selp (doc_payload d)) (next_tick w))
      with (counted (fun d => selp (doc_payload d)) w) in Hlo, Hhi.
    destruct (exec env sched _ (next_tick w)) as [p' w']. simpl in *.
    intros Hs. destruct p'; try discriminate; simpl in Hc.
    - inversion Hs. destruct a. split; [reflexivity | lia].
    - destruct Hc as [_ Hc]. discriminate. }
  split.
  - destruct (run_is_a_trace syncPendingStories env w) as [sched Ht].
    apply Trace_exec in Ht.
    rewrite run_syncPendingStories in Ht by assumption.
    exists sched. eexists. split; [apply run_syncPendingStories; assumption | exact Ht].
  - intros sched r Hs. split; [|split].
    + exact (proj1 (Hcount sched r (fun _ => true) Hs)).
    + intros selp. exact (proj2 (Hcount sched r selp Hs)).
    + pose proof (proj2 (Hcount sched r (fun _ => true) Hs)) as H.
      rewrite !counted_all, below_ceiling_attempted in H. exact H.
Qed.

Lemma syncPendingStories_isolates_failures_witness :
  storage_fault scenario_env (tick (world_with scenario_store)) = None /\
  settled (fst (exec scenario_env overlapping_tasks syncPendingStories
                     (world_with scenario_store))) = Some (Ok tt) /\
  List.length (attempts (snd (exec scenario_env overlapping_tasks syncPendingStories
                                   (world_with scenario_store))))
  = List.length (attempts (world_with scenario_store))
    + List.length (below_ceiling (stored (world_with scenario_store))).
Proof.
  split; [reflexivity|]. split; [reflexivity|].
  exact (proj2 (proj2 (proj2 (@syncPendingStories_isolates_failures scenario_env
                                (world_with scenario_store) eq_refl)
                             overlapping_tasks (Ok tt) eq_refl))).
Defined.

(** C6 as stated fails: the pass fulfils with the same (empty) value
    whether its entry was synced or has to be retried, so its result lists
    no outcome. *)
Lemma syncPendingStories_returns_no_summary :
  exists w1 w2,
    run calm_env syncPendingStories (world_with [sample_entry "p1" "a" 0])
    = (Ok tt, w1) /\
    run (rejecting_env "a" unavailable) syncPendingStories
        (world_with [sample_entry "p1" "a" 0])
    = (Ok tt, w2) /\
    stored w1 = [] /\
    stored w2 = [sample_entry "p1" "a" 1].
Proof.
  eexists _, _. repeat split.
Qed.




(** An entry whose remote write always fails is sent three times, stays
    stored at retry count 3 after the third pass, and is dropped by the
    fourth pass without a fourth remote write. *)
Lemma three_attempts_then_dropped :
  let start := world_with [sample_entry "p1" "a" 0] in
  let w3 := run_passes (rejecting_env "a" unavailable) 3 start in
  let w4 := run_passes (rejecting_env "a" unavailable) 4 start in
  stored w3 = [sample_entry "p1" "a" 3] /\ List.length (attempts w3) = 3 /\
  stored w4 = [] /\ List.length (attempts w4) = 3.
Proof.
  vm_compute. repeat split.
Qed.

(** C4, tasks one after another: the first entry stays with retry count 1,
    the second and third are removed, two remote writes were made. *)
Lemma drain_scenario_serial :
  exists w',
    run scenario_env syncPendingStories (world_with scenario_store) = (Ok tt, w') /\
    stored w' = [sample_entry "p1" "a" 1] /\
    map doc_payload (attempts w') = [sample_payload "a"; sample_payload "b"].
Proof.
  eexists. repeat split.
Qed.

(** C4, tasks overlapping: the tasks of the first and second entry write
    back the list they read, the last write wins, and the pass ends with two
    entries: the second entry, whose remote write succeeded, is still
    queued. *)
Lemma drain_scenario_overlapping :
  let pass :=
    exec scenario_env overlapping_tasks syncPendingStories (world_with scenario_store) in
  settled (fst pass) = Some (Ok tt) /\
  stored (snd pass) = [sample_entry "p1" "a" 1; sample_entry "p2" "b" 2] /\
  map doc_payload (attempts (snd pass)) = [sample_payload "a"; sample_payload "b"] /\
  map doc_payload (stories (snd pass)) = [sample_payload "b"].
Proof.
  vm_compute. repeat split.
Qed.

(* ===================================================================== *)
(** ** More on the pending-story store *)
(* ===================================================================== *)

(** X1.  Whatever storage does, [addPendingStory] either appends exactly
    one entry (the given payload, retry count 0) and returns that entry's
    id, or rejects with a [STORAGE_ERROR] and leaves the stored value as it
    was. *)
Theorem addPendingStory_appends_or_keeps env w data :
  match run env (addPendingStory data) w with
  | (Ok i, w') =>
      exists stamp, storage w' = Some (stored w ++ [new_entry i data stamp])
  | (Err e, w') =>
      storage w' = storage w /\
      exn_code e = Some "STORAGE_ERROR" /\
      exn_message e = Some "Failed to save story offline"
  end.
Proof.
  unfold addPendingStory.
  rewrite run_try_catch, run_bind.
  destruct (storage_fault env (tick w)) as [e|] eqn:Hread.
  - unfold getPendingStories. simpl. unfold do_getItem. rewrite Hread. simpl.
    repeat split.
  - rewrite run_getPendingStories by assumption. simpl. unfold do_setItem. simpl.
    destruct (storage_fault env (S (S (S (S (tick w)))))); simpl.
    + repeat split.
    + eexists. reflexivity.
Qed.

Lemma run_addPendingStories env payloads : forall w,
  storage_healthy env ->
  exists news w',
    run env (addPendingStories payloads) w = (Ok (map id news), w') /\
    stored w' = stored w ++ news /\
    map storyData news = payloads /\
    Forall (fun e => retryCount e = 0%Z) news.
Proof.
  induction payloads as [|data rest IH]; intros w H.
  - exists [], w. simpl. rewrite app_nil_r. repeat split. constructor.
  - cbn [addPendingStories]. rewrite run_bind, run_addPendingStory by assumption.
    cbv beta iota. rewrite run_bind.
    match goal with
    | |- context [run env (addPendingStories rest) ?w1] =>
        destruct (IH w1 H) as (news & w' & Hrun & Hst & Hpay & Hrc)
    end.
    rewrite Hrun. cbv beta iota. simpl run.
    exists (new_entry (pending_id (clock env (1 + tick w)) (entropy env (2 + tick w)))
                      data (clock env (3 + tick w)) :: news), w'.
    split; [reflexivity|].
    split; [rewrite Hst, stored_set_storage, <- app_assoc; reflexivity|].
    split; [simpl; f_equal; assumption|].
    constructor; [reflexivity | assumption].
Qed.

(** X2.  With storage answering, submissions queued one after another are
    all kept, in the order they were made: the list grows at its end by one
    entry per payload, each with retry count 0, and the ids returned are the
    ids of those entries in the same order. *)
Theorem addPendingStories_keeps_order env w payloads :
  storage_healthy env ->
  exists news w',
    run env (addPendingStories payloads) w = (Ok (map id news), w') /\
    stored w' = stored w ++ news /\
    map storyData news = payloads /\
    Forall (fun e => retryCount e = 0%Z) news /\
    List.length (stored w') = List.length (stored w) + List.length payloads.
Proof.
  intros H.
  destruct (@run_addPendingStories env payloads w H) as (news & w' & H1 & H2 & H3 & H4).
  exists news, w'. repeat split; try assumption.
  rewrite H2, length_app, <- H3, length_map. reflexivity.
Qed.

Lemma addPendingStories_keeps_order_witness :
  storage_healthy calm_env /\
  exists news w',
    run calm_env (addPendingStories [sample_payload "a"; sample_payload "b"])
        (world_with [sample_entry "p0" "z" 1])
    = (Ok (map id news), w') /\
    stored w' = stored (world_with [sample_entry "p0" "z" 1]) ++ news /\
    map storyData news = [sample_payload "a"; sample_payload "b"] /\
    Forall (fun e => retryCount e = 0%Z) news /\
    List.length (stored w')
    = List.length (stored (world_with [sample_entry "p0" "z" 1]))
      + List.length [sample_payload "a"; sample_payload "b"].
Proof.
  split; [intros n; reflexivity|].
  apply addPendingStories_keeps_order. intros n. reflexivity.
Defined.

Lemma without_id_snoc_new i l e :
  ~ In i (map id l) -> id e = i -> without_id i (l ++ [e]) = l.
Proof.
  intros Hnew He. rewrite without_id_app, without_id_absent by assumption.
  unfold without_id. simpl. rewrite He, String.eqb_refl. simpl. apply app_nil_r.
Qed.

(** X3.  With storage answering, queueing a payload and then removing the
    entry under the id that was returned gives back the list as it was,
    provided no stored entry already had that id. *)
Theorem add_then_remove_restores env w data :
  storage_healthy env ->
  ~ In (pending_id (clock env (1 + tick w)) (entropy env (2 + tick w)))
       (map id (stored w)) ->
  exists i w',
    run env (pendingId <- addPendingStory data ;;
             removePendingStory pendingId ;;
             Ret pendingId) w = (Ok i, w') /\
    stored w' = stored w.
Proof.
  intros H Hnew.
  rewrite run_bind, run_addPendingStory by assumption. cbv beta iota.
  rewrite run_bind, run_removePendingStory by apply H. cbv beta iota.
  eexists _, _. split; [reflexivity|].
  rewrite stored_set_storage. cbn [stored storage next_tick set_storage].
  fold (stored w). apply without_id_snoc_new; [exact Hnew | reflexivity].
Qed.

Lemma add_then_remove_restores_witness :
  storage_healthy calm_env /\
  ~ In (pending_id (clock calm_env (1 + tick (world_with [sample_entry "p0" "z" 1])))
                   (entropy calm_env (2 + tick (world_with [sample_entry "p0" "z" 1]))))
       (map id (stored (world_with [sample_entry "p0" "z" 1]))) /\
  exists i w',
    run calm_env (pendingId <- addPendingStory (sample_payload "a") ;;
                  removePendingStory pendingId ;;
                  Ret pendingId) (world_with [sample_entry "p0" "z" 1]) = (Ok i, w') /\
    stored w' = stored (world_with [sample_entry "p0" "z" 1]).
Proof.
  assert (H1 : storage_healthy calm_env) by (intros n; reflexivity).
  assert (H2 : ~ In (pending_id (clock calm_env (1 + tick (world_with [sample_entry "p0" "z" 1])))
                                (entropy calm_env (2 + tick (world_with [sample_entry "p0" "z" 1]))))
                    (map id (stored (world_with [sample_entry "p0" "z" 1])))).
  { vm_compute. intros [Hc|[]]. discriminate. }
  split; [exact H1|]. split; [exact H2|].
  exact (@add_then_remove_restores calm_env (world_with [sample_entry "p0" "z" 1])
           (sample_payload "a") H1 H2).
Defined.

Lemma without_id_comm i j l :
  without_id i (without_id j l) = without_id j (without_id i l).
Proof.
  unfold without_id. induction l as [|e l IH]; simpl; [reflexivity|].
  destruct (id e =? j)%string eqn:Ej; destruct (id e =? i)%string eqn:Ei; simpl;
    rewrite ?Ej, ?Ei; simpl; congruence.
Qed.

(** X4.  With storage answering, removals do not depend on their order and
    repeating one changes nothing: removing [i] then [j] leaves the same
    list as removing [j] then [i], and removing [i] twice the same list as
    removing it once. *)
Theorem removePendingStory_order_irrelevant env w i j :
  storage_healthy env ->
  stored (snd (run env (removePendingStory i ;; removePendingStory j) w))
  = stored (snd (run env (removePendingStory j ;; removePendingStory i) w)) /\
  stored (snd (run env (removePendingStory i ;; removePendingStory i) w))
  = stored (snd (run env (removePendingStory i) w)) /\
  fst (run env (removePendingStory i ;; removePendingStory j) w) = Ok tt.
Proof.
  intros H.
  rewrite !run_bind, !run_removePendingStory by apply H. cbv beta iota.
  cbn [snd fst]. rewrite !stored_set_storage.
  cbn [stored storage next_tick set_storage]. fold (stored w).
  split; [apply without_id_comm|]. split; [apply without_id_idempotent | reflexivity].
Qed.

Lemma removePendingStory_order_irrelevant_witness :
  storage_healthy calm_env /\
  stored (snd (run calm_env (removePendingStory "p1" ;; removePendingStory "p2")
                   (world_with scenario_store)))
  = stored (snd (run calm_env (removePendingStory "p2" ;; removePendingStory "p1")
                     (world_with scenario_store))).
Proof.
  assert (H : storage_healthy calm_env) by (intros n; reflexivity).
  split; [exact H|].
  exact (proj1 (@removePendingStory_order_irrelevant calm_env
                  (world_with scenario_store) "p1" "p2" H)).
Defined.

(** X5.  [clearPendingStories] empties the queue whatever it held: with
    storage answering, the list read afterwards is empty and the count is 0;
    when storage rejects, the call rejects with a [STORAGE_ERROR] and the
    stored value is as before. *)
Theorem clearPendingStories_empties env w :
  (storage_healthy env ->
   exists w1 w2,
     run env (clearPendingStories ;; getPendingStories) w = (Ok [], w1) /\
     run env (clearPendingStories ;; getPendingStoriesCount) w = (Ok 0, w2)) /\
  (forall e, storage_fault env (tick w) = Some e ->
     run env clearPendingStories w
     = (Err (STORAGE_ERROR "Failed to clear pending stories from storage" e),
        next_tick w)).
Proof.
  split.
  - intros H. eexists _, _.
    rewrite !run_bind. unfold clearPendingStories. simpl.
    unfold do_removeItem, do_getItem. simpl. repeat (rewrite H; simpl).
    split; reflexivity.
  - intros e He. unfold clearPendingStories. simpl. unfold do_removeItem.
    rewrite He. reflexivity.
Qed.

Lemma clearPendingStories_empties_witness :
  storage_healthy calm_env /\
  exists w1 w2,
    run calm_env (clearPendingStories ;; getPendingStories) (world_with scenario_store)
    = (Ok [], w1) /\
    run calm_env (clearPendingStories ;; getPendingStoriesCount) (world_with scenario_store)
    = (Ok 0, w2).
Proof.
  assert (H : storage_healthy calm_env) by (intros n; reflexivity).
  split; [exact H|].
  exact (proj1 (@clearPendingStories_empties calm_env (world_with scenario_store)) H).
Defined.

(** X6.  [getPendingStoriesCount] never rejects, under any schedule: it
    answers the length of the stored list, and answers 0 when storage
    rejects the read, so a count of 0 does not tell an empty queue from
    unreadable storage. *)
Theorem getPendingStoriesCount_never_rejects env w :
  (forall sched e, settled (fst (exec env sched getPendingStoriesCount w)) <> Some (Err e)) /\
  (storage_fault env (tick w) = None ->
   run env getPendingStoriesCount w = (Ok (List.length (stored w)), next_tick w)) /\
  (forall e, storage_fault env (tick w) = Some e ->
   run env getPendingStoriesCount w = (Ok 0, next_tick w)).
Proof.
  split; [|split].
  - intros sched e. destruct sched as [|path sched]; [simpl; discriminate|].
    unfold getPendingStoriesCount, getPendingStories. simpl. unfold do_getItem.
    destruct (storage_fault env (tick w)); [|destruct (storage w)]; simpl;
      erewrite exec_settled by reflexivity; simpl; discriminate.
  - intros H. unfold getPendingStoriesCount.
    rewrite run_try_catch, run_bind, run_getPendingStories by assumption. reflexivity.
  - intros e H. unfold getPendingStoriesCount, getPendingStories. simpl.
    unfold do_getItem. rewrite H. reflexivity.
Qed.

Lemma getPendingStoriesCount_never_rejects_witness :
  storage_fault calm_env (tick (world_with scenario_store)) = None /\
  run calm_env getPendingStoriesCount (world_with scenario_store)
  = (Ok (List.length (stored (world_with scenario_store))),
     next_tick (world_with scenario_store)).
Proof.
  split; [reflexivity|].
  exact (proj1 (proj2 (@getPendingStoriesCount_never_rejects calm_env
                         (world_with scenario_store))) eq_refl).
Defined.

(** X7.  Two [addPendingStory] calls started together can lose a story:
    with storage answering, when both calls read the list before either
    writes it back, both fulfil, yet the list ends with one new entry only,
    the payload of the call that wrote last. *)
Theorem overlapping_appends_lose_one env w a b :
  storage_healthy env ->
  exists i stamp p' w',
    exec env overlapping_appends
         (concurrently [ignoring_result (addPendingStory a);
                        ignoring_result (addPendingStory b)]) w = (p', w') /\
    settled p' = Some (Ok [Ok tt; Ok tt]) /\
    stored w' = stored w ++ [new_entry i b stamp].
Proof.
  intros H.
  unfold overlapping_appends, concurrently, ignoring_result, addPendingStory,
    getPendingStories, stored.
  destruct (storage w) as [l|] eqn:E;
    repeat (progress (unfold do_getItem, do_setItem; simpl; rewrite ?H, ?E; simpl));
    eexists _, _, _, _; (split; [reflexivity|]); split; reflexivity.
Qed.

Lemma overlapping_appends_lose_one_witness :
  storage_healthy calm_env /\
  exists i stamp p' w',
    exec calm_env overlapping_appends
         (concurrently [ignoring_result (addPendingStory (sample_payload "a"));
                        ignoring_result (addPendingStory (sample_payload "b"))])
         (world_with []) = (p', w') /\
    settled p' = Some (Ok [Ok tt; Ok tt]) /\
    stored w' = stored (world_with []) ++ [new_entry i (sample_payload "b") stamp].
Proof.
  assert (H : storage_healthy calm_env) by (intros n; reflexivity).
  split; [exact H|].
  exact (@overlapping_appends_lose_one calm_env (world_with [])
           (sample_payload "a") (sample_payload "b") H).
Defined.

(* ===================================================================== *)
(** ** More on the sync pass *)
(* ===================================================================== *)

(** X8.  With nothing pending, a sync pass changes nothing under any
    schedule: no remote write is made, no document is created and the
    stored value is untouched; when storage answers, the pass fulfils at its
    first step. *)
Theorem syncPendingStories_nothing_pending env sched w :
  stored w = [] ->
  storage (snd (exec env sched syncPendingStories w)) = storage w /\
  attempts (snd (exec env sched syncPendingStories w)) = attempts w /\
  stories (snd (exec env sched syncPendingStories w)) = stories w /\
  (storage_fault env (tick w) = None -> sched <> [] ->
   fst (exec env sched syncPendingStories w) = Ret tt).
Proof.
  intros Hempty. destruct sched as [|path sched].
  - simpl. repeat split. intros _ H. contradiction H. reflexivity.
  - cbn [exec]. unfold syncPendingStories, getPendingStories. simpl.
    unfold do_getItem. unfold stored in Hempty.
    destruct (storage_fault env (tick w)) as [e|]; simpl.
    + erewrite exec_settled by reflexivity. repeat split. discriminate.
    + destruct (storage w) as [[|x l]|] eqn:E; try discriminate; simpl;
        erewrite exec_settled by reflexivity; simpl; rewrite ?E;
        repeat split; intros; reflexivity.
Qed.

Lemma syncPendingStories_nothing_pending_witness :
  stored (world_with []) = [] /\
  storage (snd (exec calm_env overlapping_tasks syncPendingStories (world_with [])))
  = storage (world_with []).
Proof.
  split; [reflexivity|].
  exact (proj1 (@syncPendingStories_nothing_pending calm_env overlapping_tasks
                  (world_with []) eq_refl)).
Defined.

(** X9.  When the list cannot be read, the pass rejects with a
    [SYNC_ERROR] that carries the [STORAGE_ERROR] of the read, which carries
    the storage rejection; under any schedule no remote write is made and
    the stored value is untouched. *)
Theorem syncPendingStories_unreadable env w e :
  storage_fault env (tick w) = Some e ->
  run env syncPendingStories w
  = (Err (ServiceError "SYNC_ERROR" "Failed to sync pending stories"
            (STORAGE_ERROR "Failed to retrieve pending stories from storage" e)),
     next_tick w) /\
  forall sched,
    attempts (snd (exec env sched syncPendingStories w)) = attempts w /\
    storage (snd (exec env sched syncPendingStories w)) = storage w.
Proof.
  intros H. split.
  - unfold syncPendingStories, getPendingStories. simpl. unfold do_getItem.
    rewrite H. reflexivity.
  - intros [|path sched]; [split; reflexivity|].
    cbn [exec]. unfold syncPendingStories, getPendingStories. simpl.
    unfold do_getItem. rewrite H. simpl.
    erewrite exec_settled by reflexivity. split; reflexivity.
Qed.

Lemma syncPendingStories_unreadable_witness :
  storage_fault (broken_storage_env unavailable) (tick (world_with scenario_store))
  = Some unavailable /\
  fst (run (broken_storage_env unavailable) syncPendingStories (world_with scenario_store))
  = Err (ServiceError "SYNC_ERROR" "Failed to sync pending stories"
           (STORAGE_ERROR "Failed to retrieve pending stories from storage" unavailable)).
Proof.
  split; [reflexivity|].
  rewrite (proj1 (@syncPendingStories_unreadable (broken_storage_env unavailable)
                    (world_with scenario_store) unavailable eq_refl)).
  reflexivity.
Defined.

Lemma run_syncStory_accepting env w e :
  storage_healthy env -> remote_accepts_all env ->
  exists w',
    run env (syncStory e) w = (Ok tt, w') /\
    stored w' = without_id (id e) (stored w) /\
    (exists news,
       stories w' = stories w ++ news /\
       map doc_payload news = map storyData (below_ceiling [e]) /\
       Forall zero_counters news).
Proof.
  intros H Hacc. unfold syncStory, below_ceiling. cbn [filter].
  destruct (MAX_RETRY_COUNT <=? retryCount e)%Z; cbn [negb].
  - rewrite run_try_catch, run_removePendingStory by apply H.
    eexists. split; [reflexivity|]. split; [reflexivity|].
    exists []. simpl. rewrite app_nil_r. repeat split. constructor.
  - rewrite run_try_catch, run_bind, run_Date_now. cbv beta iota.
    rewrite run_bind, run_Math_random_suffix. cbv beta iota.
    rewrite run_bind, run_addDoc. cbn [tick next_tick Nat.add].
    pose proof (Hacc (S (S (tick w)))
                  (story_doc (unique_id (clock env (tick w)) (entropy env (S (tick w))))
                             (storyData e))) as Hok.
    destruct (remote_write env (S (S (tick w))) _) as [docId|err]; [|discriminate].
    cbv beta iota. rewrite run_removePendingStory by apply H.
    eexists. split; [reflexivity|]. split; [reflexivity|].
    eexists [_]. simpl. split; [reflexivity|].
    rewrite doc_payload_story_doc. split; [reflexivity|].
    constructor; [repeat split | constructor].
Qed.

Lemma run_all_accepting env l : forall w,
  storage_healthy env -> remote_accepts_all env ->
  stored (snd (run_all env (map syncStory l) w))
  = fold_left (fun s e => without_id (id e) s) l (stored w) /\
  exists news,
    stories (snd (run_all env (map syncStory l) w)) = stories w ++ news /\
    map doc_payload news = map storyData (below_ceiling l) /\
    Forall zero_counters news.
Proof.
  induction l as [|e l IH]; intros w H Hacc.
  - simpl. split; [reflexivity|]. exists []. rewrite app_nil_r.
    repeat split. constructor.
  - cbn [map run_all fold_left].
    destruct (run_syncStory_accepting w e H Hacc)
      as (w1 & Hrun & Hst & n1 & Hs1 & Hp1 & Hz1).
    rewrite Hrun. destruct (IH w1 H Hacc) as (Hst2 & n2 & Hs2 & Hp2 & Hz2).
    destruct (run_all env (map syncStory l) w1) as [rs w2]. cbn [snd] in *.
    split; [rewrite Hst2, Hst; reflexivity|].
    exists (n1 ++ n2). rewrite Hs2, Hs1, <- app_assoc. split; [reflexivity|].
    split; [|apply Forall_app; split; assumption].
    rewrite map_app, Hp1, Hp2. unfold below_ceiling. cbn [filter].
    destruct (negb (MAX_RETRY_COUNT <=? retryCount e)%Z); reflexivity.
Qed.

Lemma fold_without_id_all l : forall s,
  (forall x, In x s -> In (id x) (map id l)) ->
  fold_left (fun s e => without_id (id e) s) l s = [].
Proof.
  induction l as [|e l IH]; intros s Hs; simpl.
  - destruct s as [|x s]; [reflexivity|]. destruct (Hs x). left. reflexivity.
  - apply IH. intros x Hx. apply in_without_id in Hx. destruct Hx as [Hx Hne].
    destruct (Hs x Hx) as [Heq|Hin]; [congruence | assumption].
Qed.

(** X10.  With storage answering and the remote store accepting every
    document, a pass run serially empties the queue and creates one document
    per entry that was below the ceiling, in queue order, each carrying the
    entry's payload unchanged and counters at 0; entries at the ceiling are
    dropped without a document. *)
Theorem syncPendingStories_all_accepted env w :
  storage_healthy env -> remote_accepts_all env ->
  exists w' news,
    run env syncPendingStories w = (Ok tt, w') /\
    stored w' = [] /\
    stories w' = stories w ++ news /\
    map doc_payload news = map storyData (below_ceiling (stored w)) /\
    Forall zero_counters news.
Proof.
  intros H Hacc. rewrite run_syncPendingStories by apply H.
  destruct (@run_all_accepting env (stored w) (next_tick w) H Hacc)
    as (Hst & news & Hs & Hp & Hz).
  eexists _, news. split; [reflexivity|].
  split; [|repeat split; assumption].
  rewrite Hst. apply fold_without_id_all.
  intros x Hx. apply in_map. exact Hx.
Qed.

Lemma syncPendingStories_all_accepted_witness :
  storage_healthy calm_env /\ remote_accepts_all calm_env /\
  exists w' news,
    run calm_env syncPendingStories (world_with scenario_store) = (Ok tt, w') /\
    stored w' = [] /\
    stories w' = stories (world_with scenario_store) ++ news /\
    map doc_payload news
    = map storyData (below_ceiling (stored (world_with scenario_store))) /\
    Forall zero_counters news.
Proof.
  assert (H1 : storage_healthy calm_env) by (intros n; reflexivity).
  assert (H2 : remote_accepts_all calm_env) by (intros n d; reflexivity).
  split; [exact H1|]. split; [exact H2|].
  exact (@syncPendingStories_all_accepted calm_env (world_with scenario_store) H1 H2).
Defined.

Lemma in_increment_found_inv i l x :
  In x (increment_found i l) ->
  In x l \/ exists y, In y l /\ id y = i /\ x = with_retryCount (retryCount y + 1) y.
Proof.
  induction l as [|y l IH]; simpl; [tauto|].
  destruct (id y =? i)%string eqn:E.
  - apply String.eqb_eq in E. intros [H|H]; [right|left; right; assumption].
    exists y. auto.
  - intros [H|H]; [left; left; assumption|].
    destruct (IH H) as [H'|[z [H1 H2]]]; [tauto|].
    right. exists z. tauto.
Qed.

Lemma derived_from_refl l : derived_from l l.
Proof. intros x Hx. exists x. repeat split; [assumption | lia]. Qed.

Lemma derived_from_without_id l0 i l :
  derived_from l0 l -> derived_from l0 (without_id i l).
Proof. intros H x Hx. apply in_without_id in Hx. apply H. tauto. Qed.

Lemma derived_from_increment_found l0 i l :
  derived_from l0 l -> derived_from l0 (increment_found i l).
Proof.
  intros H x Hx. apply in_increment_found_inv in Hx.
  destruct Hx as [Hx|(y & Hy & _ & ->)]; [auto|].
  destruct (H y Hy) as (z & Hz & H1 & H2 & H3 & H4).
  exists z. simpl. repeat split; try assumption. lia.
Qed.

Lemma attempted_none l : List.length (filter (attempted (fun _ => false)) l) <= 0.
Proof.
  induction l as [|e l IH]; simpl; [lia|].
  unfold attempted at 1. rewrite andb_false_r. assumption.
Qed.

(** X11.  A sync pass never invents or rewrites a pending story: under
    every schedule and whatever the platform answers, also when a
    [forceSyncPendingStories] overlaps it, each entry stored afterwards is
    an entry that was stored before, under the same id, with the same
    payload and timestamp and a retry count that has not gone down. *)
Theorem sync_never_invents_entries env sched w :
  derived_from (stored w) (stored (snd (exec env sched syncPendingStories w))) /\
  derived_from (stored w)
    (stored (snd (exec env sched
                    (concurrently [syncPendingStories; forceSyncPendingStories]) w))).
Proof.
  set (I := derived_from (stored w)).
  assert (Hnil : I []) by (intros x []).
  assert (Hwo : forall i l, I l -> I (without_id i l))
    by (intros i l; apply derived_from_without_id).
  assert (Hinc : forall i l, I l -> I (increment_found i l))
    by (intros i l; apply derived_from_increment_found).
  assert (Hb : forall l, I l -> List.length (filter (attempted (fun _ => false)) l) <= 0)
    by (intros l _; apply attempted_none).
  assert (Hw : store_ok I w).
  { unfold store_ok, I, stored. destruct (storage w); [apply derived_from_refl | exact Logic.I]. }
  assert (Hout : forall w', store_ok I w' -> derived_from (stored w) (stored w')).
  { intros w'. unfold store_ok, stored at 2. destruct (storage w'); [auto | intros _ x []]. }
  split; apply Hout.
  - exact (proj1 (@exec_cost I _ unit env sched syncPendingStories w true 0 0 Hw
                    (@cost_syncPendingStories I (fun _ => false) Hnil Hwo Hinc 0 Hb))).
  - exact (proj1 (@exec_cost I _ _ env sched
                    (concurrently [syncPendingStories; forceSyncPendingStories])
                    w false 0 (2 * 0) Hw
                    (@cost_concurrently I (fun _ => false) Hnil Hwo Hinc 0 Hb))).
Qed.

Lemma NoDup_map_id_inj (l : list PendingStory) x y :
  NoDup (map id l) -> In x l -> In y l -> id x = id y -> x = y.
Proof.
  induction l as [|e l IH]; simpl; intros Hnd Hx Hy Hid; [contradiction|].
  inversion Hnd as [|? ? Hnotin Hnd']; subst.
  destruct Hx as [Hx|Hx], Hy as [Hy|Hy]; subst.
  - reflexivity.
  - exfalso. apply Hnotin. rewrite Hid. apply in_map. assumption.
  - exfalso. apply Hnotin. rewrite <- Hid. apply in_map. assumption.
  - auto.
Qed.

Lemma run_all_within_ceiling env tasks : forall w,
  storage_healthy env ->
  NoDup (map id tasks) ->
  (forall e x, In e tasks -> In x (stored w) -> id x = id e -> x = e) ->
  within_ceiling (stored w) ->
  within_ceiling (stored (snd (run_all env (map syncStory tasks) w))).
Proof.
  induction tasks as [|e tasks IH]; intros w H Hnd Hown Hc; [exact Hc|].
  cbn [map run_all].
  destruct (run_syncStory w e H) as (w1 & Hrun & Hst). rewrite Hrun.
  inversion Hnd as [|? ? Hnotin Hnd']; subst.
  specialize (IH w1 H Hnd').
  destruct (run_all env (map syncStory tasks) w1) as [rs w2]. cbn [snd] in *.
  assert (Hwo : forall i, within_ceiling (without_id i (stored w))).
  { intros i. apply Forall_forall. intros x Hx. apply in_without_id in Hx.
    unfold within_ceiling in Hc. rewrite Forall_forall in Hc. apply Hc. tauto. }
  assert (Hwo_own : forall i e' x, In e' tasks -> In x (without_id i (stored w)) ->
                                   id x = id e' -> x = e').
  { intros i e' x He' Hx Hid. apply in_without_id in Hx.
    apply Hown; [right; assumption | tauto | assumption]. }
  apply IH; rewrite Hst; unfold sync_effect.
  - destruct (MAX_RETRY_COUNT <=? retryCount e)%Z eqn:Ece; [apply Hwo_own|].
    destruct (is_ok _); [apply Hwo_own|].
    intros e' x He' Hx Hid. apply in_increment_found_inv in Hx.
    destruct Hx as [Hx|(y & Hy & Hy' & ->)].
    + apply Hown; [right; assumption | assumption | assumption].
    + exfalso. apply Hnotin. simpl in Hid. rewrite <- Hy', Hid.
      apply in_map. assumption.
  - destruct (MAX_RETRY_COUNT <=? retryCount e)%Z eqn:Ece; [apply Hwo|].
    destruct (is_ok _); [apply Hwo|].
    apply Forall_forall. intros x Hx. apply in_increment_found_inv in Hx.
    unfold within_ceiling in Hc. rewrite Forall_forall in Hc.
    destruct Hx as [Hx|(y & Hy & Hy' & ->)]; [auto|].
    rewrite (Hown e y) by (simpl; auto). simpl.
    apply Z.leb_gt in Ece. lia.
Qed.

(** X12.  With storage answering and the stored ids distinct, a pass run
    serially keeps every stored retry count at or below the ceiling when
    they were so before. *)
Theorem syncPendingStories_within_ceiling env w :
  storage_healthy env ->
  NoDup (map id (stored w)) ->
  within_ceiling (stored w) ->
  within_ceiling (stored (snd (run env syncPendingStories w))).
Proof.
  intros H Hnd Hc. rewrite run_syncPendingStories by apply H. cbn [snd].
  apply run_all_within_ceiling; try assumption.
  intros e x He Hx Hid. apply (NoDup_map_id_inj (stored w)); assumption.
Qed.

Lemma syncPendingStories_within_ceiling_witness :
  storage_healthy scenario_env /\
  NoDup (map id (stored (world_with scenario_store))) /\
  within_ceiling (stored (world_with scenario_store)) /\
  within_ceiling (stored (snd (run scenario_env syncPendingStories
                                   (world_with scenario_store)))).
Proof.
  assert (H1 : storage_healthy scenario_env) by (intros n; reflexivity).
  assert (H2 : NoDup (map id (stored (world_with scenario_store)))).
  { simpl. repeat constructor; simpl; intuition discriminate. }
  assert (H3 : within_ceiling (stored (world_with scenario_store))).
  { simpl. repeat constructor; unfold MAX_RETRY_COUNT; simpl; lia. }
  split; [exact H1|]. split; [exact H2|]. split; [exact H3|].
  exact (@syncPendingStories_within_ceiling scenario_env (world_with scenario_store)
           H1 H2 H3).
Defined.

(* ===================================================================== *)
(** ** More on the connectivity state *)
(* ===================================================================== *)

Lemma sync_starts_app a b : sync_starts (a ++ b) = sync_starts a + sync_starts b.
Proof.
  induction a as [|[l s|] a IH]; simpl; [reflexivity | assumption | lia].
Qed.

Lemma sync_starts_calls (f : Listener -> Effect) ls :
  (forall l, exists s, f l = Called l s) -> sync_starts (map f ls) = 0.
Proof.
  intros Hf. induction ls as [|l ls IH]; simpl; [reflexivity|].
  destruct (Hf l) as [s ->]. assumption.
Qed.

Lemma notified_sync_starts svc svc' :
  notified svc svc' -> sync_starts (effects svc') = sync_starts (effects svc).
Proof.
  intros (_ & _ & ls & ->).
  rewrite sync_starts_app, sync_starts_calls by (intros l; eexists; reflexivity). lia.
Qed.

Lemma on_netinfo_event_sync_starts react state svc :
  sync_starts (effects (fst (on_netinfo_event react state svc)))
  = sync_starts (effects svc)
    + (if negb (svc_isConnected svc) && online state then 1 else 0).
Proof.
  destruct (on_netinfo_event_effects react state svc) as (_ & _ & ls & ->).
  rewrite !sync_starts_app, sync_starts_calls by (intros l; eexists; reflexivity).
  destruct (negb (svc_isConnected svc) && online state); simpl; lia.
Qed.

Lemma last_cons_default (x d : bool) l : last (x :: l) d = last l x.
Proof.
  revert x d. induction l as [|y l IH]; intros x d; [reflexivity|].
  change (last (x :: y :: l) d) with (last (y :: l) d). rewrite !IH. reflexivity.
Qed.

(** X13.  Once the NetInfo callback is installed, the service starts one
    sync pass per change from offline to online and none otherwise,
    whatever the listeners do: over any sequence of platform events,
    subscriptions and unsubscriptions, the number of passes started is the
    number of such changes in the events, and the service ends in the state
    the last event reported. *)
Theorem syncs_started_on_reconnection react ops : forall svc,
  netinfo_subscribed svc = true ->
  no_initialisation ops ->
  sync_starts (effects (apply_ops react ops svc))
  = sync_starts (effects svc) + rising_edges (svc_isConnected svc) (event_flags ops) /\
  svc_isConnected (apply_ops react ops svc) = last (event_flags ops) (svc_isConnected svc).
Proof.
  unfold apply_ops.
  induction ops as [|op ops IH]; intros svc Hsub Hno; simpl.
  - split; [lia | reflexivity].
  - assert (Hno' : no_initialisation ops)
      by (intros f Hin; apply (Hno f); right; assumption).
    destruct op as [fetched|state|listener|listener].
    + exfalso. apply (Hno fetched). left. reflexivity.
    + cbn [apply_op]. unfold netinfo_event. rewrite Hsub.
      destruct (on_netinfo_event_effects react state svc) as (Hc & Hs & _).
      rewrite Hsub in Hs.
      destruct (IH (fst (on_netinfo_event react state svc)) Hs Hno') as [IH1 IH2].
      rewrite IH1, IH2, on_netinfo_event_sync_starts, Hc. cbn [event_flags rising_edges].
      split; [lia|].
      rewrite last_cons_default. reflexivity.
    + destruct (subscribeToNetworkStatus_notified react listener svc) as (Hc & Hs & Hl).
      pose proof (@notified_sync_starts svc _ (conj Hc (conj Hs Hl))) as Hn.
      rewrite Hsub in Hs.
      destruct (IH (fst (subscribeToNetworkStatus react listener svc)) Hs Hno')
        as [IH1 IH2].
      cbn [apply_op event_flags]. rewrite IH1, IH2, Hn, Hc. split; reflexivity.
    + destruct (IH (unsubscribe listener svc) Hsub Hno') as [IH1 IH2].
      cbn [apply_op event_flags]. rewrite IH1, IH2. simpl. split; reflexivity.
Qed.

Lemma syncs_started_on_reconnection_witness :
  netinfo_subscribed
    (initializeNetworkListener
       (Ok {| netinfo_isConnected := Some false; netinfo_isInternetReachable := Some false |})
       new_service) = true /\
  no_initialisation
    [OpSubscribe 7;
     OpNetInfoEvent {| netinfo_isConnected := Some true; netinfo_isInternetReachable := None |};
     OpNetInfoEvent {| netinfo_isConnected := Some true; netinfo_isInternetReachable := Some true |};
     OpNetInfoEvent {| netinfo_isConnected := Some true; netinfo_isInternetReachable := Some true |}] /\
  sync_starts
    (effects
       (apply_ops (throwing 7)
          [OpSubscribe 7;
           OpNetInfoEvent {| netinfo_isConnected := Some true; netinfo_isInternetReachable := None |};
           OpNetInfoEvent {| netinfo_isConnected := Some true; netinfo_isInternetReachable := Some true |};
           OpNetInfoEvent {| netinfo_isConnected := Some true; netinfo_isInternetReachable := Some true |}]
          (initializeNetworkListener
             (Ok {| netinfo_isConnected := Some false; netinfo_isInternetReachable := Some false |})
             new_service))) = 1.
Proof.
  assert (H1 : netinfo_subscribed
                 (initializeNetworkListener
                    (Ok {| netinfo_isConnected := Some false;
                           netinfo_isInternetReachable := Some false |})
                    new_service) = true) by reflexivity.
  assert (H2 : no_initialisation
    [OpSubscribe 7;
     OpNetInfoEvent {| netinfo_isConnected := Some true; netinfo_isInternetReachable := None |};
     OpNetInfoEvent {| netinfo_isConnected := Some true; netinfo_isInternetReachable := Some true |};
     OpNetInfoEvent {| netinfo_isConnected := Some true; netinfo_isInternetReachable := Some true |}]).
  { intros f Hin. simpl in Hin. intuition discriminate. }
  split; [exact H1|]. split; [exact H2|].
  rewrite (proj1 (@syncs_started_on_reconnection (throwing 7) _ _ H1 H2)). reflexivity.
Defined.

(** X14.  When the initial [NetInfo.fetch] never succeeds, the NetInfo
    callback is never installed: whatever events, subscriptions and
    unsubscriptions follow and whatever the listeners do, the service keeps
    reporting online, never starts a sync pass, and calls listeners only
    with the connected status. *)
Theorem failed_initialisation_stays_online react ops :
  never_initialised ops ->
  isOffline (apply_ops react ops new_service) = false /\
  netinfo_subscribed (apply_ops react ops new_service) = false /\
  sync_starts (effects (apply_ops react ops new_service)) = 0 /\
  (forall listener s, In (Called listener s) (effects (apply_ops react ops new_service)) ->
                      isConnected s = true).
Proof.
  intros Hnever.
  assert (Hinv : forall ops svc,
    never_initialised ops ->
    svc_isConnected svc = true -> netinfo_subscribed svc = false ->
    sync_starts (effects svc) = 0 ->
    (forall l s, In (Called l s) (effects svc) -> isConnected s = true) ->
    svc_isConnected (apply_ops react ops svc) = true /\
    netinfo_subscribed (apply_ops react ops svc) = false /\
    sync_starts (effects (apply_ops react ops svc)) = 0 /\
    (forall l s, In (Called l s) (effects (apply_ops react ops svc)) ->
                 isConnected s = true)).
  { clear. unfold apply_ops.
    induction ops as [|op ops IH]; intros svc Hn Hc Hs Hz Hcalls; simpl; [auto|].
    assert (Hn' : never_initialised ops)
      by (intros st Hin; apply (Hn st); right; assumption).
    destruct op as [[state|e]|state|listener|listener]; cbn [apply_op].
    - exfalso. apply (Hn state). left. reflexivity.
    - apply IH; assumption.
    - unfold netinfo_event. rewrite Hs. apply IH; assumption.
    - destruct (subscribeToNetworkStatus_notified react listener svc) as (H1 & H2 & ls & H3).
      apply IH; try assumption; try congruence.
      + rewrite (@notified_sync_starts svc _ (conj H1 (conj H2 (ex_intro _ ls H3)))).
        assumption.
      + intros l s. rewrite H3, in_app_iff, in_map_iff. intros [Hin|(x & Hx & _)].
        * eapply Hcalls; eassumption.
        * inversion Hx. simpl. assumption.
    - apply IH; assumption. }
  destruct (Hinv ops new_service Hnever eq_refl eq_refl eq_refl) as (H1 & H2 & H3 & H4).
  { intros l s []. }
  unfold isOffline. rewrite H1. auto.
Qed.

Lemma failed_initialisation_stays_online_witness :
  never_initialised
    [OpInitialized (Err unavailable);
     OpNetInfoEvent {| netinfo_isConnected := Some false;
                       netinfo_isInternetReachable := Some false |}] /\
  isOffline
    (apply_ops no_reaction
       [OpInitialized (Err unavailable);
        OpNetInfoEvent {| netinfo_isConnected := Some false;
                          netinfo_isInternetReachable := Some false |}]
       new_service) = false.
Proof.
  assert (H : never_initialised
    [OpInitialized (Err unavailable);
     OpNetInfoEvent {| netinfo_isConnected := Some false;
                       netinfo_isInternetReachable := Some false |}]).
  { intros st Hin. simpl in Hin. intuition discriminate. }
  split; [exact H|].
  exact (proj1 (@failed_initialisation_stays_online no_reaction _ H)).
Defined.

Lemma count_occ_splice_first_other a b ls :
  a <> b ->
  count_occ Nat.eq_dec (splice_first a ls) b = count_occ Nat.eq_dec ls b.
Proof.
  intros Hne. induction ls as [|x ls IH]; simpl; [reflexivity|].
  destruct (x =? a) eqn:E.
  - apply Nat.eqb_eq in E. subst x.
    destruct (Nat.eq_dec a b); [contradiction | reflexivity].
  - simpl. destruct (Nat.eq_dec x b); rewrite IH; reflexivity.
Qed.

Lemma filter_splice_first a ls :
  filter (fun x => negb (x =? a)) (splice_first a ls)
  = filter (fun x => negb (x =? a)) ls.
Proof.
  induction ls as [|x ls IH]; simpl; [reflexivity|].
  destruct (x =? a) eqn:E; simpl; [reflexivity|].
  rewrite E. simpl. f_equal. assumption.
Qed.

(** X15.  Unsubscribing one listener does not touch the registrations of
    the others: they stay registered as often as before and in the same
    order.  Provided every listener returns from its calls and calls
    nothing of the service from inside them, the next event calls each of
    the others exactly as it would have without the unsubscription. *)
Theorem unsubscribe_leaves_others react a b svc :
  quiet react ->
  a <> b ->
  filter (fun x => negb (x =? a)) (networkListeners (unsubscribe a svc))
  = filter (fun x => negb (x =? a)) (networkListeners svc) /\
  count_occ Nat.eq_dec (networkListeners (unsubscribe a svc)) b
  = count_occ Nat.eq_dec (networkListeners svc) b /\
  forall state,
    calls_to b (effects (netinfo_event react state (unsubscribe a svc)))
    = calls_to b (effects (netinfo_event react state svc)).
Proof.
  intros Hq Hne. split; [apply filter_splice_first|].
  split; [apply count_occ_splice_first_other; assumption|].
  intros state. unfold netinfo_event. cbn [netinfo_subscribed unsubscribe].
  destruct (netinfo_subscribed svc); [|reflexivity].
  rewrite !(proj1 (@calls_to_on_netinfo_event react b state _ Hq)). simpl.
  rewrite count_occ_splice_first_other by assumption.
  assert (E : forall s, svc_isConnected (fst (on_netinfo_event react state s)) = online state)
    by (intros s; apply on_netinfo_event_effects).
  rewrite (@status_of_eq (fst (on_netinfo_event react state svc))
             (fst (on_netinfo_event react state (unsubscribe a svc))))
    by (rewrite !E; reflexivity).
  reflexivity.
Qed.

Lemma unsubscribe_leaves_others_witness :
  quiet no_reaction /\
  1 <> 2 /\
  forall state,
    calls_to 2 (effects (netinfo_event no_reaction state
                           (unsubscribe 1
                              (apply_ops no_reaction
                                 [OpInitialized (Ok state); OpSubscribe 1; OpSubscribe 2]
                                 new_service))))
    = calls_to 2 (effects (netinfo_event no_reaction state
                             (apply_ops no_reaction
                                [OpInitialized (Ok state); OpSubscribe 1; OpSubscribe 2]
                                new_service))).
Proof.
  assert (Hq : quiet no_reaction) by (intros n l s; reflexivity).
  assert (H : 1 <> 2) by discriminate.
  split; [exact Hq|]. split; [exact H|].
  intros state.
  exact (proj2 (proj2 (@unsubscribe_leaves_others no_reaction 1 2
                         (apply_ops no_reaction
                            [OpInitialized (Ok state); OpSubscribe 1; OpSubscribe 2]
                            new_service) Hq H)) state).
Defined.

(* ===================================================================== *)
(** ** More on [createStory] *)
(* ===================================================================== *)

(** X16.  While the service reports offline, [createStory] never calls
    the remote store: it either queues the payload and returns the new
    entry's id, which starts with ['pending_'], or, when storage rejects,
    throws a [FIRESTORE_ERROR] carrying the [STORAGE_ERROR] and leaves the
    stored value as it was. *)
Theorem createStory_offline_stays_local env w svc data :
  isOffline svc = true ->
  attempts (snd (run env (createStory svc data) w)) = attempts w /\
  match run env (createStory svc data) w with
  | (Ok pid, w') =>
      String.prefix "pending_" pid = true /\
      exists stamp, storage w' = Some (stored w ++ [new_entry pid data stamp])
  | (Err e, w') =>
      exn_code e = Some "FIRESTORE_ERROR" /\
      (exists inner, exn_details e = Some inner /\ exn_code inner = Some "STORAGE_ERROR") /\
      storage w' = storage w
  end.
Proof.
  intros Hoff. unfold createStory. rewrite Hoff.
  rewrite run_try_catch, run_bind.
  unfold addPendingStory. rewrite run_try_catch, run_bind.
  destruct (storage_fault env (tick w)) as [e|] eqn:Hread.
  - unfold getPendingStories. simpl. unfold do_getItem. rewrite Hread. simpl.
    repeat split. eexists. split; reflexivity.
  - rewrite run_getPendingStories by assumption. simpl. unfold do_setItem. simpl.
    destruct (storage_fault env (S (S (S (S (tick w)))))); simpl.
    + repeat split. eexists. split; reflexivity.
    + split; [reflexivity|]. split; [apply pending_id_prefix|].
      eexists. reflexivity.
Qed.

Lemma createStory_offline_stays_local_witness :
  isOffline offline_service = true /\
  attempts (snd (run calm_env (createStory offline_service (sample_payload "a"))
                     (world_with [])))
  = attempts (world_with []).
Proof.
  split; [reflexivity|].
  exact (proj1 (@createStory_offline_stays_local calm_env (world_with []) offline_service
                  (sample_payload "a") eq_refl)).
Defined.

(** X17.  While the service reports online and the remote store accepts
    the document, [createStory] returns the remote id and leaves the pending
    queue alone; the one document created carries the payload unchanged and
    counters at 0. *)
Theorem createStory_online_success env w svc data docId :
  isOffline svc = false ->
  remote_write env (2 + tick w)
    (story_doc (unique_id (clock env (tick w)) (entropy env (1 + tick w))) data)
  = Ok docId ->
  exists w' d,
    run env (createStory svc data) w = (Ok docId, w') /\
    storage w' = storage w /\
    stories w' = stories w ++ [d] /\
    doc_payload d = data /\ zero_counters d.
Proof.
  intros Hon Hrem. unfold createStory. rewrite Hon. simpl.
  unfold do_addDoc. simpl. simpl in Hrem. rewrite Hrem. simpl.
  eexists _, _. split; [reflexivity|]. split; [reflexivity|].
  split; [reflexivity|]. split; [apply doc_payload_story_doc | repeat split].
Qed.

Lemma createStory_online_success_witness :
  isOffline online_service = false /\
  remote_write calm_env (2 + tick (world_with []))
    (story_doc (unique_id (clock calm_env (tick (world_with [])))
                          (entropy calm_env (1 + tick (world_with []))))
               (sample_payload "a")) = Ok "doc" /\
  exists w' d,
    run calm_env (createStory online_service (sample_payload "a")) (world_with [])
    = (Ok "doc", w') /\
    storage w' = storage (world_with []) /\
    stories w' = stories (world_with []) ++ [d] /\
    doc_payload d = sample_payload "a" /\ zero_counters d.
Proof.
  split; [reflexivity|]. split; [reflexivity|].
  exact (@createStory_online_success calm_env (world_with []) online_service
           (sample_payload "a") "doc" eq_refl eq_refl).
Defined.

(** X18.  While online, when the remote write fails with a network error
    and the fallback cannot read the queue either, [createStory] throws a
    [FIRESTORE_ERROR] that carries the remote error, not the storage one,
    and nothing is queued. *)
Theorem createStory_fallback_storage_failure env w svc data e e' :
  isOffline svc = false ->
  remote_write env (2 + tick w)
    (story_doc (unique_id (clock env (tick w)) (entropy env (1 + tick w))) data)
  = Err e ->
  is_network_error e = true ->
  storage_fault env (3 + tick w) = Some e' ->
  exists w',
    run env (createStory svc data) w = (Err (FIRESTORE_ERROR e), w') /\
    storage w' = storage w /\ stories w' = stories w.
Proof.
  intros Hon Hrem Hnet Hst. unfold createStory. rewrite Hon. simpl.
  unfold do_addDoc. simpl. simpl in Hrem, Hst. rewrite Hrem. simpl. rewrite Hnet.
  simpl. unfold do_getItem. simpl. rewrite Hst. simpl.
  eexists. repeat split.
Qed.

Lemma createStory_fallback_storage_failure_witness :
  isOffline online_service = false /\
  exists w',
    run {| storage_fault := fun _ => Some permission_denied;
           remote_write := fun _ _ => Err unavailable;
           clock := clock calm_env;
           entropy := entropy calm_env;
           reachability := reachability calm_env |}
        (createStory online_service (sample_payload "a")) (world_with [])
    = (Err (FIRESTORE_ERROR unavailable), w') /\
    storage w' = storage (world_with []) /\ stories w' = stories (world_with []).
Proof.
  split; [reflexivity|].
  exact (@createStory_fallback_storage_failure
           {| storage_fault := fun _ => Some permission_denied;
              remote_write := fun _ _ => Err unavailable;
              clock := clock calm_env;
              entropy := entropy calm_env;
              reachability := reachability calm_env |}
           (world_with []) online_service (sample_payload "a")
           unavailable permission_denied eq_refl eq_refl eq_refl eq_refl).
Defined.

(** X19.  A story handed to [createStory] ends up in exactly one place or
    nowhere: whatever the connectivity state and the platform's answers, a
    fulfilled call has either created one remote document and left the queue
    alone, or queued one entry and created no document; a rejected call has
    done neither. *)
Theorem createStory_one_place env w svc data :
  match run env (createStory svc data) w with
  | (Ok _, w') =>
      (exists d, stories w' = stories w ++ [d] /\ doc_payload d = data /\
                 storage w' = storage w) \/
      (exists entry, storage w' = Some (stored w ++ [entry]) /\
                     storyData entry = data /\ retryCount entry = 0%Z /\
                     stories w' = stories w)
  | (Err _, w') => stories w' = stories w /\ storage w' = storage w
  end.
Proof.
  unfold createStory, addPendingStory, getPendingStories, stored.
  destruct (isOffline svc); simpl.
  - unfold do_getItem.
    destruct (storage_fault env (tick w)); simpl; [split; reflexivity|].
    destruct (storage w) eqn:E; simpl; unfold do_setItem; simpl;
      destruct (storage_fault env (S (S (S (S (tick w)))))); simpl;
      rewrite ?E; try (split; reflexivity);
      right; eexists; repeat split.
  - unfold do_addDoc. simpl.
    destruct (remote_write env (S (S (tick w))) _) as [docId|e]; simpl.
    + left. eexists. split; [reflexivity|].
      split; [apply doc_payload_story_doc | reflexivity].
    + destruct (is_network_error e); simpl; [|split; reflexivity].
      unfold do_getItem. simpl.
      destruct (storage_fault env (S (S (S (tick w))))); simpl; [split; reflexivity|].
      destruct (storage w) eqn:E; simpl; unfold do_setItem; simpl;
        destruct (storage_fault env _); simpl;
        rewrite ?E; try (split; reflexivity);
        right; eexists; repeat split.
Qed.

(* ===================================================================== *)
(** ** The offline provider *)
(* ===================================================================== *)

Lemma run_refreshPendingStories env w :
  run env refreshPendingStories w
  = match storage_fault env (tick w) with
    | Some _ => (Ok [], next_tick w)
    | None =>
        (Ok [SetPendingStories (stored w);
             SetPendingStoriesCount
               (match storage_fault env (S (tick w)) with
                | Some _ => 0
                | None => List.length (stored w)
                end)],
         next_tick (next_tick w))
    end.
Proof.
  unfold refreshPendingStories. rewrite run_try_catch, run_bind.
  destruct (storage_fault env (tick w)) eqn:H1.
  - unfold getPendingStories. simpl. unfold do_getItem. rewrite H1. reflexivity.
  - rewrite run_getPendingStories by assumption. cbv beta iota.
    rewrite run_bind. unfold getPendingStoriesCount.
    rewrite run_try_catch, run_bind.
    destruct (storage_fault env (S (tick w))) eqn:H2.
    + unfold getPendingStories. simpl. unfold do_getItem. simpl. rewrite H2. reflexivity.
    + rewrite run_getPendingStories by assumption. reflexivity.
Qed.

(** X20.  [refreshPendingStories] never rejects and never writes.  When
    the first read of the queue fails no setter is called, so the provider
    keeps what it showed; otherwise the list is set to the stored list and
    the count to its length, except that a failing second read sets the
    count to 0 beside the list just read. *)
Theorem refreshPendingStories_outcome env w :
  exists sets w',
    run env refreshPendingStories w = (Ok sets, w') /\
    storage w' = storage w /\
    match storage_fault env (tick w), storage_fault env (S (tick w)) with
    | Some _, _ => sets = []
    | None, None =>
        sets = [SetPendingStories (stored w);
                SetPendingStoriesCount (List.length (stored w))]
    | None, Some _ =>
        sets = [SetPendingStories (stored w); SetPendingStoriesCount 0]
    end.
Proof.
  rewrite run_refreshPendingStories.
  destruct (storage_fault env (tick w)); [|destruct (storage_fault env (S (tick w)))];
    eexists _, _; repeat split.
Qed.

Lemma run_forceSyncStories env w :
  exists sets w',
    run env forceSyncStories w = (Ok sets, w') /\ shows_stored sets w'.
Proof.
  unfold forceSyncStories, forceSyncPendingStories.
  rewrite run_try_catch, run_bind, run_bind.
  destruct (storage_fault env (tick w)) eqn:H1.
  - unfold syncPendingStories, getPendingStories. simpl. unfold do_getItem.
    rewrite H1. simpl. eexists _, _. split; [reflexivity | left; reflexivity].
  - rewrite run_syncPendingStories by assumption. cbv beta iota.
    cbn [run].
    rewrite run_refreshPendingStories.
    destruct (storage_fault env (tick (snd _))).
    + eexists _, _. split; [reflexivity | left; reflexivity].
    + eexists _, _. split; [reflexivity|].
      right. eexists. split; [reflexivity|].
      destruct (storage_fault env (S _)); [right | left]; reflexivity.
Qed.

(** The first step of [forceSyncStories] reads the queue. *)
Lemma step_forceSyncStories env path w :
  step env path forceSyncStories w
  = match storage_fault env (tick w) with
    | Some _ => (Ret [], next_tick w)
    | None =>
        (match stored w with
         | [] => TRY refreshPendingStories CATCH error => Ret []
         | _ :: _ =>
             AllSettled (map syncStory (stored w))
               (fun _ => TRY refreshPendingStories CATCH error => Ret [])
         end, next_tick w)
    end.
Proof.
  unfold forceSyncStories, forceSyncPendingStories, syncPendingStories,
    getPendingStories, stored. simpl.
  unfold do_getItem.
  destruct (storage_fault env (tick w)); [reflexivity|].
  destruct (storage w) as [[|e l]|]; reflexivity.
Qed.

Lemma step_refresh env path w :
  step env path (TRY refreshPendingStories CATCH error => Ret []) w
  = match storage_fault env (tick w) with
    | Some _ => (Ret [], next_tick w)
    | None =>
        (TRY (TRY (count <- getPendingStoriesCount ;;
                   Ret [SetPendingStories (stored w); SetPendingStoriesCount count])
              CATCH error => Ret [])
         CATCH error => Ret [], next_tick w)
    end.
Proof.
  unfold refreshPendingStories, getPendingStories, stored. simpl.
  unfold do_getItem. destruct (storage_fault env (tick w)); [reflexivity|].
  destruct (storage w); reflexivity.
Qed.

Lemma step_refresh_count env path w l :
  step env path
       (TRY (TRY (count <- getPendingStoriesCount ;;
                  Ret [SetPendingStories l; SetPendingStoriesCount count])
             CATCH error => Ret [])
        CATCH error => Ret []) w
  = (Ret [SetPendingStories l;
          SetPendingStoriesCount
            (match storage_fault env (tick w) with
             | Some _ => 0
             | None => List.length (stored w)
             end)], next_tick w).
Proof.
  unfold getPendingStoriesCount, getPendingStories, stored. simpl.
  unfold do_getItem. destruct (storage_fault env (tick w)); [reflexivity|].
  destruct (storage w); reflexivity.
Qed.

(** Once the pass is over the refresh runs on its own: whenever it has
    settled, it has set what is stored. *)
Lemma exec_refresh env sched w r :
  settled (fst (exec env sched (TRY refreshPendingStories CATCH error => Ret []) w))
  = Some r ->
  exists sets,
    r = Ok sets /\
    shows_stored sets
      (snd (exec env sched (TRY refreshPendingStories CATCH error => Ret []) w)).
Proof.
  destruct sched as [|p1 sched]; [simpl; discriminate|].
  cbn [exec]. rewrite step_refresh.
  destruct (storage_fault env (tick w)).
  - erewrite exec_settled by reflexivity. simpl.
    intros H. inversion H. eexists. split; [reflexivity | left; reflexivity].
  - destruct sched as [|p2 sched]; [simpl; discriminate|].
    cbn [exec]. rewrite step_refresh_count.
    erewrite exec_settled by reflexivity. simpl.
    intros H. inversion H. eexists. split; [reflexivity|].
    right. eexists. split; [reflexivity|].
    destruct (storage_fault env (S (tick w))); [right | left]; reflexivity.
Qed.

(** A schedule either leaves the join waiting or takes it to the
    continuation. *)
Lemma exec_join (A : Type) env (k : list (Result unit) -> Prog A) sched :
  forall ts w,
    (exists ts', fst (exec env sched (AllSettled ts k) w) = AllSettled ts' k) \/
    (exists rs sched' w1,
       exec env sched (AllSettled ts k) w = exec env sched' (k rs) w1).
Proof.
  induction sched as [|path sched IH]; intros ts w.
  - left. exists ts. reflexivity.
  - cbn [exec]. rewrite step_AllSettled.
    destruct (all_settled ts) as [rs|].
    + right. exists rs, sched, w. reflexivity.
    + destruct path as [|i path']; [apply IH|].
      destruct (step_task env i path' ts w) as [ts' w']. apply IH.
Qed.

(** X21.  [forceSyncStories] never rejects, however the tasks of the pass
    are interleaved.  Whenever it has settled it has called either no setter
    or both, and then the list set is the queue as stored at the end and the
    count its length, or 0 when the count's own read failed; run serially it
    does settle.  When the pass cannot read the queue no setter is called,
    nothing is written and no remote write is made. *)
Theorem forceSyncStories_outcome env w :
  (forall sched r,
     settled (fst (exec env sched forceSyncStories w)) = Some r ->
     exists sets,
       r = Ok sets /\ shows_stored sets (snd (exec env sched forceSyncStories w))) /\
  (exists sched sets w',
     exec env sched forceSyncStories w = (Ret sets, w') /\
     run env forceSyncStories w = (Ok sets, w')) /\
  match storage_fault env (tick w) with
  | Some _ =>
      forall sched,
        (sched <> [] -> fst (exec env sched forceSyncStories w) = Ret []) /\
        storage (snd (exec env sched forceSyncStories w)) = storage w /\
        attempts (snd (exec env sched forceSyncStories w)) = attempts w
  | None => True
  end.
Proof.
  split; [|split].
  - intros sched r. destruct sched as [|path sched]; [simpl; discriminate|].
    cbn [exec]. rewrite step_forceSyncStories.
    destruct (storage_fault env (tick w)).
    + erewrite exec_settled by reflexivity. simpl. intros H. inversion H.
      eexists. split; [reflexivity | left; reflexivity].
    + destruct (stored w) as [|e l]; [apply exec_refresh|].
      destruct (@exec_join _ env
                  (fun _ => TRY refreshPendingStories CATCH error => Ret [])
                  sched (map syncStory (e :: l)) (next_tick w))
        as [[ts' E]|(rs & sched' & w1 & E)].
      * rewrite E. simpl. discriminate.
      * rewrite E. apply exec_refresh.
  - destruct (run_forceSyncStories env w) as (sets & w' & Hrun & _).
    destruct (@run_is_a_trace _ forceSyncStories env w) as [sched Ht].
    apply Trace_exec in Ht. rewrite Hrun in Ht.
    exists sched, sets, w'. split; [exact Ht | exact Hrun].
  - destruct (storage_fault env (tick w)) eqn:H1; [|exact I].
    intros [|path sched]; [split; [intros H; destruct H; reflexivity | split; reflexivity]|].
    cbn [exec]. rewrite step_forceSyncStories, H1.
    erewrite exec_settled by reflexivity. repeat split.
Qed.

(** X22.  With storage answering and the remote store accepting every
    document, [forceSyncStories] run serially, the tasks of its pass
    updating the list one after another, ends with the queue empty and the
    provider shown an empty list and a count of 0. *)
Theorem forceSyncStories_all_accepted env w st :
  storage_healthy env -> remote_accepts_all env ->
  exists sets w',
    run env forceSyncStories w = (Ok sets, w') /\
    stored w' = [] /\
    pendingStories (apply_setters sets st) = [] /\
    pendingStoriesCount (apply_setters sets st) = 0 /\
    ctx_isOffline (apply_setters sets st) = ctx_isOffline st.
Proof.
  intros H Hacc. unfold forceSyncStories, forceSyncPendingStories.
  rewrite run_try_catch, run_bind, run_bind, run_syncPendingStories by apply H.
  cbv beta iota. cbn [run]. rewrite run_refreshPendingStories, !H.
  destruct (@run_all_accepting env (stored w) (next_tick w) H Hacc) as (Hst & _).
  assert (E : stored (snd (run_all env (map syncStory (stored w)) (next_tick w))) = []).
  { rewrite Hst. apply fold_without_id_all. intros x Hx. apply in_map. exact Hx. }
  eexists _, _. split; [reflexivity|]. rewrite E. repeat split. exact E.
Qed.

Lemma forceSyncStories_all_accepted_witness :
  storage_healthy calm_env /\ remote_accepts_all calm_env /\
  exists sets w',
    run calm_env forceSyncStories (world_with scenario_store) = (Ok sets, w') /\
    stored w' = [] /\
    pendingStories (apply_setters sets initial_context) = [] /\
    pendingStoriesCount (apply_setters sets initial_context) = 0 /\
    ctx_isOffline (apply_setters sets initial_context) = ctx_isOffline initial_context.
Proof.
  assert (H1 : storage_healthy calm_env) by (intros n; reflexivity).
  assert (H2 : remote_accepts_all calm_env) by (intros n d; reflexivity).
  split; [exact H1|]. split; [exact H2|].
  exact (@forceSyncStories_all_accepted calm_env (world_with scenario_store)
           initial_context H1 H2).
Defined.

(** Not so when the removals of two tasks overlap: with storage answering
    and both documents accepted, the entry whose task wrote first is back in
    the queue, and the provider is shown a count of 1. *)
Lemma forceSyncStories_overlapping_removals :
  let start := world_with [sample_entry "p1" "a" 0; sample_entry "p2" "b" 0] in
  let final := exec calm_env overlapping_removals forceSyncStories start in
  fst final = Ret [SetPendingStories [sample_entry "p1" "a" 0]; SetPendingStoriesCount 1] /\
  stored (snd final) = [sample_entry "p1" "a" 0] /\
  map doc_payload (stories (snd final)) = [sample_payload "a"; sample_payload "b"].
Proof.
  vm_compute. repeat split.
Qed.

Lemma context_after_app listener a b st :
  context_after listener (a ++ b) st
  = context_after listener b (context_after listener a st).
Proof.
  unfold context_after. rewrite calls_to_app. apply fold_left_app.
Qed.

Lemma context_after_repeat s n st :
  ctx_isOffline
    (fold_left (fun st status => apply_setters (fst (on_network_status status)) st)
               (repeat s (S n)) st)
  = negb (isConnected s).
Proof.
  revert st. induction n as [|n IH]; intros st; [reflexivity|].
  change (repeat s (S (S n))) with (s :: repeat s (S n)).
  cbn [fold_left]. apply IH.
Qed.

Lemma tracks_apply_op react listener op svc st :
  quiet react ->
  (forall fetched, op <> OpInitialized fetched) ->
  op <> OpUnsubscribe listener ->
  In listener (networkListeners svc) ->
  ctx_isOffline (context_after listener (effects svc) st) = isOffline svc ->
  In listener (networkListeners (apply_op react op svc)) /\
  ctx_isOffline (context_after listener (effects (apply_op react op svc)) st)
  = isOffline (apply_op react op svc).
Proof.
  intros Hq Hinit Hunsub Hin Hinv.
  destruct op as [fetched|state|other|other]; cbn [apply_op].
  - destruct (Hinit fetched). reflexivity.
  - unfold netinfo_event. destruct (netinfo_subscribed svc); [|split; assumption].
    destruct (@calls_to_on_netinfo_event react listener state svc Hq) as [Hcalls Hls].
    split; [rewrite Hls; exact Hin|].
    unfold context_after. rewrite Hcalls, fold_left_app.
    apply (count_occ_In Nat.eq_dec) in Hin.
    destruct (count_occ Nat.eq_dec (networkListeners svc) listener) as [|n]; [lia|].
    rewrite context_after_repeat. reflexivity.
  - rewrite subscribeToNetworkStatus_quiet by assumption.
    cbn [fst networkListeners effects log_call push_listener].
    split; [apply in_or_app; left; assumption|].
    rewrite context_after_app. unfold context_after at 1. simpl calls_to.
    destruct (other =? listener); [reflexivity | exact Hinv].
  - split; [apply splice_first_other; [congruence | assumption]|].
    exact Hinv.
Qed.

(** X23.  Provided every listener returns from its calls and calls
    nothing of the service from inside them: once the provider has
    subscribed its listener, its offline flag agrees with the service's
    [isOffline] after every sequence of platform events, subscriptions and
    unsubscriptions of other listeners, as long as no initial fetch resolves
    in between. *)
Theorem provider_flag_tracks_service react listener svc st ops :
  quiet react ->
  no_initialisation ops ->
  keeps_subscribed listener ops ->
  ctx_isOffline
    (context_after listener
       (effects (apply_ops react ops (fst (subscribeToNetworkStatus react listener svc))))
       st)
  = isOffline (apply_ops react ops (fst (subscribeToNetworkStatus react listener svc))).
Proof.
  intros Hq Hno Hkeep.
  assert (Hinv : forall ops s,
    no_initialisation ops -> keeps_subscribed listener ops ->
    In listener (networkListeners s) ->
    ctx_isOffline (context_after listener (effects s) st) = isOffline s ->
    ctx_isOffline (context_after listener (effects (apply_ops react ops s)) st)
    = isOffline (apply_ops react ops s)).
  { clear - Hq. unfold apply_ops.
    induction ops as [|op ops IH]; intros s Hno Hkeep Hin Hinv; [exact Hinv|].
    cbn [fold_left].
    destruct (@tracks_apply_op react listener op s st) as [Hin' Hinv']; try assumption.
    - intros fetched ->. apply (Hno fetched). left. reflexivity.
    - intros ->. apply Hkeep. left. reflexivity.
    - apply IH; try assumption.
      + intros fetched H. apply (Hno fetched). right. exact H.
      + intros H. apply Hkeep. right. exact H. }
  rewrite subscribeToNetworkStatus_quiet by assumption. cbn [fst].
  apply Hinv; try assumption.
  - simpl. apply in_or_app. right. left. reflexivity.
  - cbn [effects log_call push_listener].
    rewrite context_after_app. unfold context_after at 1. simpl.
    rewrite Nat.eqb_refl. reflexivity.
Qed.

Lemma provider_flag_tracks_service_witness :
  quiet no_reaction /\
  no_initialisation
    [OpNetInfoEvent {| netinfo_isConnected := Some true;
                       netinfo_isInternetReachable := Some false |}] /\
  keeps_subscribed 7
    [OpNetInfoEvent {| netinfo_isConnected := Some true;
                       netinfo_isInternetReachable := Some false |}] /\
  ctx_isOffline
    (context_after 7
       (effects
          (apply_ops no_reaction
             [OpNetInfoEvent {| netinfo_isConnected := Some true;
                                netinfo_isInternetReachable := Some false |}]
             (fst (subscribeToNetworkStatus no_reaction 7
                     (initializeNetworkListener
                        (Ok {| netinfo_isConnected := Some true;
                               netinfo_isInternetReachable := Some true |})
                        new_service)))))
       initial_context)
  = true.
Proof.
  assert (Hq : quiet no_reaction) by (intros n l s; reflexivity).
  assert (H1 : no_initialisation
    [OpNetInfoEvent {| netinfo_isConnected := Some true;
                       netinfo_isInternetReachable := Some false |}]).
  { intros f Hin. simpl in Hin. intuition discriminate. }
  assert (H2 : keeps_subscribed 7
    [OpNetInfoEvent {| netinfo_isConnected := Some true;
                       netinfo_isInternetReachable := Some false |}]).
  { intros Hin. simpl in Hin. intuition discriminate. }
  split; [exact Hq|]. split; [exact H1|]. split; [exact H2|].
  rewrite (@provider_flag_tracks_service no_reaction 7 _ initial_context _ Hq H1 H2).
  reflexivity.
Defined.

(** X24.  Provided every listener returns from its calls and calls
    nothing of the service from inside them: whatever the provider was told
    before, for instance the default status when it subscribed before the
    initial fetch had resolved, one platform event after the NetInfo
    callback is installed brings its offline flag in line with the
    service's [isOffline]. *)
Theorem provider_flag_resynchronised_by_event react listener svc st state :
  quiet react ->
  In listener (networkListeners svc) ->
  netinfo_subscribed svc = true ->
  ctx_isOffline
    (context_after listener (effects (netinfo_event react state svc)) st)
  = isOffline (netinfo_event react state svc) /\
  isOffline (netinfo_event react state svc) = negb (online state).
Proof.
  intros Hq Hin Hsub. unfold netinfo_event. rewrite Hsub.
  destruct (@calls_to_on_netinfo_event react listener state svc Hq) as [Hcalls _].
  destruct (on_netinfo_event_effects react state svc) as (Hc & _).
  split; [|unfold isOffline; rewrite Hc; reflexivity].
  unfold context_after. rewrite Hcalls, fold_left_app.
  apply (count_occ_In Nat.eq_dec) in Hin.
  destruct (count_occ Nat.eq_dec (networkListeners svc) listener) as [|n]; [lia|].
  rewrite context_after_repeat. reflexivity.
Qed.

Lemma provider_flag_resynchronised_by_event_witness :
  quiet no_reaction /\
  In 7 (networkListeners
          (initializeNetworkListener
             (Ok {| netinfo_isConnected := Some true; netinfo_isInternetReachable := None |})
             (fst (subscribeToNetworkStatus no_reaction 7 new_service)))) /\
  netinfo_subscribed
    (initializeNetworkListener
       (Ok {| netinfo_isConnected := Some true; netinfo_isInternetReachable := None |})
       (fst (subscribeToNetworkStatus no_reaction 7 new_service))) = true /\
  ctx_isOffline
    (context_after 7
       (effects
          (netinfo_event no_reaction
             {| netinfo_isConnected := Some true; netinfo_isInternetReachable := None |}
             (initializeNetworkListener
                (Ok {| netinfo_isConnected := Some true;
                       netinfo_isInternetReachable := None |})
                (fst (subscribeToNetworkStatus no_reaction 7 new_service)))))
       initial_context)
  = true.
Proof.
  assert (Hq : quiet no_reaction) by (intros n l s; reflexivity).
  assert (H1 : In 7 (networkListeners
          (initializeNetworkListener
             (Ok {| netinfo_isConnected := Some true; netinfo_isInternetReachable := None |})
             (fst (subscribeToNetworkStatus no_reaction 7 new_service)))))
    by (left; reflexivity).
  assert (H2 : netinfo_subscribed
    (initializeNetworkListener
       (Ok {| netinfo_isConnected := Some true; netinfo_isInternetReachable := None |})
       (fst (subscribeToNetworkStatus no_reaction 7 new_service))) = true)
    by reflexivity.
  split; [exact Hq|]. split; [exact H1|]. split; [exact H2|].
  rewrite (proj1 (@provider_flag_resynchronised_by_event no_reaction 7 _ initial_context
                    {| netinfo_isConnected := Some true;
                       netinfo_isInternetReachable := None |} Hq H1 H2)).
  reflexivity.
Defined.

(** Without the proviso the flag can go stale: a listener registered
    before the provider's that throws ends [forEach] before the provider's
    listener is reached. *)
Lemma provider_flag_stale_behind_throwing_listener :
  let svc :=
    apply_ops (throwing 1)
      [OpInitialized (Ok {| netinfo_isConnected := Some true;
                            netinfo_isInternetReachable := Some true |});
       OpSubscribe 1; OpSubscribe 7;
       OpNetInfoEvent {| netinfo_isConnected := Some false;
                         netinfo_isInternetReachable := Some false |}]
      new_service in
  isOffline svc = true /\
  ctx_isOffline (context_after 7 (effects svc) initial_context) = false.
Proof.
  simpl. split; reflexivity.
Qed.

(* ===================================================================== *)
(** ** The favourites service *)
(* ===================================================================== *)

Lemma getFavorites_cases env w :
  (exists t, getFavorites env w = (Rejected t, fav_next w) /\
             thrown_code t = Some "STORAGE_ERROR") \/
  getFavorites env w = (Fulfilled (favorites_of (fav_text w)), fav_next w).
Proof.
  unfold getFavorites, fav_catch, fav_bind, fav_getItem.
  destruct (fav_fault env (fav_tick w)).
  - left. eexists. split; reflexivity.
  - destruct (fav_text w) as [[|items|error]|]; simpl;
      try (right; reflexivity).
    left. eexists. split; reflexivity.
Qed.

Lemma run_getFavorites env w :
  fav_fault env (fav_tick w) = None -> readable (fav_text w) ->
  getFavorites env w = (Fulfilled (favorites_of (fav_text w)), fav_next w).
Proof.
  intros H Hr. unfold getFavorites, fav_catch, fav_bind, fav_getItem. rewrite H.
  destruct (fav_text w) as [[|items|error]|]; try reflexivity.
  destruct (Hr error). reflexivity.
Qed.

Lemma as_strings_stringify ids :
  as_strings (filter is_valid_id (map JString ids))
  = filter (fun s => 0 <? String.length s) ids.
Proof.
  induction ids as [|s ids IH]; simpl; [reflexivity|].
  destruct (0 <? String.length s); simpl; rewrite IH; reflexivity.
Qed.

Lemma favorites_of_stringify ids :
  favorites_of (Some (stringify ids)) = filter (fun s => 0 <? String.length s) ids.
Proof. apply as_strings_stringify. Qed.

Lemma array_includes_In l x : array_includes l x = true <-> In x l.
Proof.
  unfold array_includes. rewrite existsb_exists. split.
  - intros (y & Hin & E). apply String.eqb_eq in E. subst. assumption.
  - intros H. exists x. split; [assumption | apply String.eqb_refl].
Qed.

Lemma array_includes_not_In l x : array_includes l x = false <-> ~ In x l.
Proof.
  rewrite <- array_includes_In. destruct (array_includes l x); split; intros H;
    try reflexivity; try discriminate; try (intros E; discriminate).
  destruct H. reflexivity.
Qed.

Lemma filter_length_le (A : Type) (f : A -> bool) l :
  List.length (filter f l) <= List.length l.
Proof.
  induction l as [|x l IH]; simpl; [lia|]. destruct (f x); simpl; lia.
Qed.

Lemma NoDup_snoc (A : Type) (l : list A) x : NoDup l -> ~ In x l -> NoDup (l ++ [x]).
Proof.
  intros Hl Hx. induction Hl as [|y l Hy Hl IH]; simpl.
  - constructor; [intros [] | constructor].
  - constructor.
    + intros Hin. apply in_app_or in Hin. destruct Hin as [Hin|[E|[]]].
      * contradiction.
      * subst. apply Hx. left. reflexivity.
    + apply IH. intros Hin. apply Hx. right. assumption.
Qed.

Lemma bounded_favorites_of text :
  favorites_bounded text ->
  NoDup (favorites_of text) /\ List.length (favorites_of text) <= MAX_FAVORITES.
Proof.
  intros [->|(ids & -> & Hnd & Hlen)].
  - split; [constructor | simpl; lia].
  - rewrite favorites_of_stringify. split; [apply NoDup_filter; assumption|].
    pose proof (filter_length_le (fun s => 0 <? String.length s) ids). lia.
Qed.

Lemma bounded_stringify ids :
  NoDup ids -> List.length ids <= MAX_FAVORITES -> favorites_bounded (Some (stringify ids)).
Proof. intros H1 H2. right. exists ids. auto. Qed.

Lemma apply_fav_op_bounded env op w :
  favorites_bounded (fav_text w) -> favorites_bounded (fav_text (apply_fav_op env op w)).
Proof.
  intros Hb. destruct (bounded_favorites_of Hb) as [Hnd Hlen].
  destruct op as [storyId|storyId|storyIds|]; cbn [apply_fav_op].
  - unfold addFavorite, fav_catch, fav_bind.
    destruct (getFavorites_cases env w) as [(t & -> & Hc)| ->].
    + unfold has_code. rewrite Hc. exact Hb.
    + destruct (array_includes (favorites_of (fav_text w)) storyId) eqn:Hin; [exact Hb|].
      destruct (MAX_FAVORITES <=? List.length (favorites_of (fav_text w))) eqn:Hfull;
        [exact Hb|].
      unfold fav_setItem. cbn [fav_tick fav_next].
      destruct (fav_fault env (S (fav_tick w))) as [e|].
      * destruct (has_code e); exact Hb.
      * cbn. apply bounded_stringify.
        -- apply NoDup_snoc; [assumption | apply array_includes_not_In; assumption].
        -- apply Nat.leb_gt in Hfull. rewrite length_app. simpl. lia.
  - unfold removeFavorite, fav_catch, fav_bind.
    destruct (getFavorites_cases env w) as [(t & -> & Hc)| ->]; [exact Hb|].
    unfold fav_setItem. cbn [fav_tick fav_next].
    destruct (fav_fault env (S (fav_tick w))); [exact Hb|].
    cbn. apply bounded_stringify; [apply NoDup_filter; assumption|].
    pose proof (filter_length_le (fun id => negb (id =? storyId)%string)
                  (favorites_of (fav_text w))). lia.
  - unfold removeMultipleFavorites, fav_catch, fav_bind.
    destruct (getFavorites_cases env w) as [(t & -> & Hc)| ->]; [exact Hb|].
    unfold fav_setItem. cbn [fav_tick fav_next].
    destruct (fav_fault env (S (fav_tick w))); [exact Hb|].
    cbn. apply bounded_stringify; [apply NoDup_filter; assumption|].
    pose proof (filter_length_le (fun id => negb (array_includes storyIds id))
                  (favorites_of (fav_text w))). lia.
  - unfold clearFavorites, fav_catch, fav_setItem.
    destruct (fav_fault env (fav_tick w)); [exact Hb|].
    cbn. apply bounded_stringify; [constructor | simpl; lia].
Qed.

(** X25.  The favourites service keeps the stored list bounded: once the
    stored text is absent or the JSON of at most [MAX_FAVORITES] distinct
    ids, it stays so under every sequence of [addFavorite],
    [removeFavorite], [removeMultipleFavorites] and [clearFavorites] calls,
    whichever of them storage rejects; so [getFavorites] never shows more
    than five ids, nor one twice. *)
Theorem favorites_stay_bounded env ops w :
  favorites_bounded (fav_text w) ->
  favorites_bounded (fav_text (apply_fav_ops env ops w)) /\
  NoDup (favorites_of (fav_text (apply_fav_ops env ops w))) /\
  List.length (favorites_of (fav_text (apply_fav_ops env ops w))) <= MAX_FAVORITES.
Proof.
  intros Hb.
  assert (H : favorites_bounded (fav_text (apply_fav_ops env ops w))).
  { revert w Hb. unfold apply_fav_ops.
    induction ops as [|op ops IH]; intros w Hb; [exact Hb|].
    cbn [fold_left]. apply IH. apply apply_fav_op_bounded. exact Hb. }
  split; [exact H | apply bounded_favorites_of; exact H].
Qed.

Lemma favorites_stay_bounded_witness :
  favorites_bounded (fav_text (fav_world_with ["a"; "b"; "c"; "d"])) /\
  List.length
    (favorites_of
       (fav_text (apply_fav_ops unreachable_env
                    [OpAddFavorite "e"; OpAddFavorite "f"; OpRemoveFavorite "a";
                     OpAddFavorite "f"]
                    (fav_world_with ["a"; "b"; "c"; "d"])))) <= MAX_FAVORITES.
Proof.
  assert (H : favorites_bounded (fav_text (fav_world_with ["a"; "b"; "c"; "d"]))).
  { right. exists ["a"; "b"; "c"; "d"]. split; [reflexivity|].
    split; [|simpl; unfold MAX_FAVORITES; lia].
    repeat (constructor; [simpl; intuition discriminate|]). constructor. }
  split; [exact H|].
  exact (proj2 (proj2 (@favorites_stay_bounded unreachable_env
                         [OpAddFavorite "e"; OpAddFavorite "f"; OpRemoveFavorite "a";
                          OpAddFavorite "f"]
                         (fav_world_with ["a"; "b"; "c"; "d"]) H))).
Defined.

(** X26.  What [addFavorite] can do: a fulfilled call returns a list that
    contains the id, and either it is the list already stored and nothing
    was written, or it is that list with the id appended, is not longer than
    [MAX_FAVORITES], and is what is now stored.  A rejected call has left
    the stored text as it was, and the value thrown carries a [code]. *)
Theorem addFavorite_outcome env w storyId :
  match addFavorite storyId env w with
  | (Fulfilled l, w') =>
      In storyId l /\
      ((l = favorites_of (fav_text w) /\ fav_text w' = fav_text w) \/
       (l = favorites_of (fav_text w) ++ [storyId] /\
        List.length l <= MAX_FAVORITES /\
        fav_text w' = Some (stringify l)))
  | (Rejected t, w') => fav_text w' = fav_text w /\ has_code t = true
  end.
Proof.
  unfold addFavorite, fav_catch, fav_bind.
  destruct (getFavorites_cases env w) as [(t & -> & Hc)| ->].
  - unfold has_code at 1. rewrite Hc. simpl. unfold fav_throw.
    split; [reflexivity|]. unfold has_code. rewrite Hc. reflexivity.
  - destruct (array_includes (favorites_of (fav_text w)) storyId) eqn:Hin.
    + simpl. split; [apply array_includes_In; assumption|].
      left. split; reflexivity.
    + destruct (MAX_FAVORITES <=? List.length (favorites_of (fav_text w))) eqn:Hfull.
      * simpl. split; reflexivity.
      * unfold fav_setItem. cbn [fav_tick fav_next].
        destruct (fav_fault env (S (fav_tick w))) as [e|].
        -- destruct (has_code e) eqn:He; simpl; [split; [reflexivity | exact He]|].
           split; reflexivity.
        -- simpl. split; [apply in_or_app; right; left; reflexivity|].
           right. split; [reflexivity|]. split; [|reflexivity].
           apply Nat.leb_gt in Hfull. rewrite length_app. simpl. lia.
Qed.

(** X27.  At the limit [addFavorite] refuses a new id: with
    [MAX_FAVORITES] or more ids readable from storage and the id not among
    them, it rejects with [FAVORITES_LIMIT_EXCEEDED], reporting the current
    count and the limit, after the read alone: no write is attempted. *)
Theorem addFavorite_at_limit env w storyId :
  fav_fault env (fav_tick w) = None ->
  readable (fav_text w) ->
  MAX_FAVORITES <= List.length (favorites_of (fav_text w)) ->
  ~ In storyId (favorites_of (fav_text w)) ->
  addFavorite storyId env w
  = (Rejected (limit_exceeded (List.length (favorites_of (fav_text w)))), fav_next w) /\
  thrown_code (limit_exceeded (List.length (favorites_of (fav_text w))))
  = Some "FAVORITES_LIMIT_EXCEEDED" /\
  thrown_details (limit_exceeded (List.length (favorites_of (fav_text w))))
  = LimitDetails (List.length (favorites_of (fav_text w))) MAX_FAVORITES.
Proof.
  intros H Hr Hfull Hnew. split; [|split; reflexivity].
  unfold addFavorite, fav_catch, fav_bind. rewrite run_getFavorites by assumption.
  apply array_includes_not_In in Hnew. rewrite Hnew.
  apply Nat.leb_le in Hfull. rewrite Hfull. reflexivity.
Qed.

Lemma addFavorite_at_limit_witness :
  fav_fault unreachable_env (fav_tick (fav_world_with ["a"; "b"; "c"; "d"; "e"])) = None /\
  readable (fav_text (fav_world_with ["a"; "b"; "c"; "d"; "e"])) /\
  MAX_FAVORITES
  <= List.length (favorites_of (fav_text (fav_world_with ["a"; "b"; "c"; "d"; "e"]))) /\
  ~ In "f" (favorites_of (fav_text (fav_world_with ["a"; "b"; "c"; "d"; "e"]))) /\
  fst (addFavorite "f" unreachable_env (fav_world_with ["a"; "b"; "c"; "d"; "e"]))
  = Rejected (limit_exceeded 5).
Proof.
  assert (H1 : fav_fault unreachable_env
                 (fav_tick (fav_world_with ["a"; "b"; "c"; "d"; "e"])) = None)
    by reflexivity.
  assert (H2 : readable (fav_text (fav_world_with ["a"; "b"; "c"; "d"; "e"])))
    by (intros error; discriminate).
  assert (H3 : MAX_FAVORITES
               <= List.length
                    (favorites_of (fav_text (fav_world_with ["a"; "b"; "c"; "d"; "e"]))))
    by (simpl; unfold MAX_FAVORITES; lia).
  assert (H4 : ~ In "f" (favorites_of (fav_text (fav_world_with ["a"; "b"; "c"; "d"; "e"]))))
    by (simpl; intuition discriminate).
  split; [exact H1|]. split; [exact H2|]. split; [exact H3|]. split; [exact H4|].
  rewrite (proj1 (@addFavorite_at_limit unreachable_env
                    (fav_world_with ["a"; "b"; "c"; "d"; "e"]) "f" H1 H2 H3 H4)).
  reflexivity.
Defined.

Lemma filter_valid_idempotent l :
  filter (fun s => 0 <? String.length s) (filter (fun s => 0 <? String.length s) l)
  = filter (fun s => 0 <? String.length s) l.
Proof.
  induction l as [|s l IH]; simpl; [reflexivity|].
  destruct (0 <? String.length s) eqn:E; simpl; rewrite ?E, IH; reflexivity.
Qed.

Lemma favorites_of_valid text s : In s (favorites_of text) -> (0 <? String.length s) = true.
Proof.
  destruct text as [[|items|error]|]; simpl; try contradiction.
  induction items as [|[x|] items IH]; simpl; try assumption; [contradiction|].
  destruct (0 <? String.length x) eqn:E; simpl; [|assumption].
  intros [->|H]; [assumption | auto].
Qed.

Lemma filter_valid_favorites_of text :
  filter (fun s => 0 <? String.length s) (favorites_of text) = favorites_of text.
Proof.
  apply forallb_filter_id. apply forallb_forall.
  intros s Hs. eapply favorites_of_valid. eassumption.
Qed.

Lemma array_includes_app l x y :
  array_includes (l ++ [y]) x = array_includes l x || (y =? x)%string.
Proof.
  unfold array_includes. rewrite existsb_app. simpl. rewrite orb_false_r. reflexivity.
Qed.

Lemma array_includes_filter_valid l x :
  array_includes (filter (fun s => 0 <? String.length s) l) x
  = array_includes l x && (0 <? String.length x).
Proof.
  induction l as [|y l IH]; simpl; [reflexivity|].
  destruct (0 <? String.length y) eqn:E; simpl; rewrite IH.
  - destruct (y =? x)%string eqn:Eq; simpl; [|reflexivity].
    apply String.eqb_eq in Eq. subst. rewrite E.
    destruct (array_includes l x); reflexivity.
  - destruct (y =? x)%string eqn:Eq; simpl; [|reflexivity].
    apply String.eqb_eq in Eq. subst. rewrite E, andb_false_r. reflexivity.
Qed.

Lemma array_includes_removed l x :
  array_includes (filter (fun id => negb (id =? x)%string) l) x = false.
Proof.
  apply array_includes_not_In. intros H. apply filter_In in H.
  destruct H as [_ H]. rewrite String.eqb_refl in H. discriminate.
Qed.

(** X28.  With storage answering and room left, an id just added is a
    favourite exactly when it is a non-empty string: [addFavorite]
    fulfils with a list containing the id, but for the empty string
    [isFavorite] then still answers false, the stored entry being dropped
    on every read.  An id just removed is never a favourite. *)
Theorem favorite_round_trip env w storyId :
  fav_healthy env ->
  readable (fav_text w) ->
  List.length (favorites_of (fav_text w)) < MAX_FAVORITES ->
  (exists l w',
     addFavorite storyId env w = (Fulfilled l, w') /\ In storyId l /\
     fst (isFavorite storyId env w') = Fulfilled (0 <? String.length storyId)) /\
  (exists l w',
     removeFavorite storyId env w = (Fulfilled l, w') /\
     fst (isFavorite storyId env w') = Fulfilled false).
Proof.
  intros H Hr Hroom. split.
  - unfold addFavorite, fav_catch, fav_bind. rewrite run_getFavorites by auto.
    destruct (array_includes (favorites_of (fav_text w)) storyId) eqn:Hin.
    + eexists _, _. split; [reflexivity|].
      split; [apply array_includes_In; assumption|].
      unfold isFavorite, fav_catch, fav_bind.
      rewrite run_getFavorites by (auto; exact Hr). simpl. rewrite Hin.
      apply array_includes_In in Hin. apply favorites_of_valid in Hin.
      rewrite Hin. reflexivity.
    + apply Nat.leb_gt in Hroom. rewrite Hroom.
      unfold fav_setItem. rewrite H. simpl.
      eexists _, _. split; [reflexivity|].
      split; [apply in_or_app; right; left; reflexivity|].
      unfold isFavorite, fav_catch, fav_bind.
      rewrite run_getFavorites by (auto; intros error; discriminate).
      cbn [fst fav_text]. rewrite favorites_of_stringify.
      rewrite array_includes_filter_valid, array_includes_app, String.eqb_refl.
      rewrite orb_true_r. reflexivity.
  - unfold removeFavorite, fav_catch, fav_bind. rewrite run_getFavorites by auto.
    unfold fav_setItem. rewrite H. simpl.
    eexists _, _. split; [reflexivity|].
    unfold isFavorite, fav_catch, fav_bind.
    rewrite run_getFavorites by (auto; intros error; discriminate).
    cbn [fst fav_text]. rewrite favorites_of_stringify.
    rewrite array_includes_filter_valid, array_includes_removed. reflexivity.
Qed.

Lemma favorite_round_trip_witness :
  fav_healthy unreachable_env /\
  readable (fav_text (fav_world_with ["a"])) /\
  List.length (favorites_of (fav_text (fav_world_with ["a"]))) < MAX_FAVORITES /\
  exists l w',
    addFavorite "b" unreachable_env (fav_world_with ["a"]) = (Fulfilled l, w') /\
    In "b" l /\
    fst (isFavorite "b" unreachable_env w') = Fulfilled (0 <? String.length "b").
Proof.
  assert (H1 : fav_healthy unreachable_env) by (intros n; reflexivity).
  assert (H2 : readable (fav_text (fav_world_with ["a"])))
    by (intros error; discriminate).
  assert (H3 : List.length (favorites_of (fav_text (fav_world_with ["a"]))) < MAX_FAVORITES)
    by (simpl; unfold MAX_FAVORITES; lia).
  split; [exact H1|]. split; [exact H2|]. split; [exact H3|].
  exact (proj1 (@favorite_round_trip unreachable_env (fav_world_with ["a"]) "b" H1 H2 H3)).
Defined.

(** X29.  When the stored favourites cannot be read, the three queries
    answer as for an empty list while the updates reject: [isFavorite] is
    false, [getFavoritesCount] is 0 and [canAddFavorite] is true, although
    [addFavorite] rejects with the very error of the read and
    [removeFavorite] with an error carrying it as [details]; the stored
    text is untouched. *)
Theorem favorites_unreadable env w t w1 storyId :
  getFavorites env w = (Rejected t, w1) ->
  isFavorite storyId env w = (Fulfilled false, w1) /\
  getFavoritesCount env w = (Fulfilled 0, w1) /\
  canAddFavorite env w = (Fulfilled true, w1) /\
  addFavorite storyId env w = (Rejected t, w1) /\
  (exists t', removeFavorite storyId env w = (Rejected t', w1) /\
              thrown_details t' = Caught t) /\
  fav_text w1 = fav_text w.
Proof.
  intros E.
  assert (Hc : thrown_code t = Some "STORAGE_ERROR" /\ w1 = fav_next w).
  { destruct (getFavorites_cases env w) as [(t' & E' & Hc)|E']; rewrite E' in E.
    - inversion E. subst. split; [assumption | reflexivity].
    - discriminate. }
  destruct Hc as [Hc ->].
  unfold isFavorite, getFavoritesCount, canAddFavorite, addFavorite, removeFavorite,
    getFavoritesCount, fav_catch, fav_bind.
  rewrite E. unfold has_code. rewrite Hc. simpl.
  repeat split. eexists. split; reflexivity.
Qed.

Lemma favorites_unreadable_witness :
  getFavorites fav_broken_env (fav_world_with ["a"])
  = (Rejected (service_error "STORAGE_ERROR" "Failed to retrieve favorites from storage"
                 (MkThrown None (Some "disk full") NoDetails)),
     fav_next (fav_world_with ["a"])) /\
  canAddFavorite fav_broken_env (fav_world_with ["a"])
  = (Fulfilled true, fav_next (fav_world_with ["a"])).
Proof.
  assert (H : getFavorites fav_broken_env (fav_world_with ["a"])
              = (Rejected (service_error "STORAGE_ERROR"
                             "Failed to retrieve favorites from storage"
                             (MkThrown None (Some "disk full") NoDetails)),
                 fav_next (fav_world_with ["a"]))) by reflexivity.
  split; [exact H|].
  exact (proj1 (proj2 (proj2 (@favorites_unreadable fav_broken_env (fav_world_with ["a"])
                                _ _ "a" H)))).
Defined.

Lemma getStoriesByIds_loop_nothing env storyIds : forall stories w,
  nothing_fetched env ->
  exists w',
    getStoriesByIds_loop storyIds stories env w = (Fulfilled stories, w') /\
    fav_text w' = fav_text w /\ ui_calls w' = ui_calls w /\
    fav_tick w' = List.length storyIds + fav_tick w.
Proof.
  induction storyIds as [|storyId rest IH]; intros stories w Hn.
  - exists w. repeat split.
  - cbn [getStoriesByIds_loop]. unfold fav_bind at 1, fav_catch at 1.
    unfold fav_bind at 1, getStoryById, fav_catch, fav_bind, getDoc.
    pose proof (Hn (fav_tick w) storyId) as Hread.
    destruct (remote_read env (fav_tick w) storyId) as [[data|]|t].
    + destruct (Hread data). reflexivity.
    + simpl. destruct (IH stories (fav_next w) Hn) as (w' & E & Ht & Hu & Hk).
      exists w'. rewrite E. repeat split; try assumption.
      rewrite Hk. simpl. lia.
    + simpl. destruct (IH stories (fav_next w) Hn) as (w' & E & Ht & Hu & Hk).
      exists w'. rewrite E. repeat split; try assumption.
      rewrite Hk. simpl. lia.
Qed.

Lemma filter_excluding_itself l :
  filter (fun id => negb (array_includes l id)) l = [].
Proof.
  assert (H : forall m, (forall x, In x m -> In x l) ->
                        filter (fun id => negb (array_includes l id)) m = []).
  { induction m as [|x m IH]; intros Hm; simpl; [reflexivity|].
    assert (Hx : array_includes l x = true)
      by (apply array_includes_In; apply Hm; left; reflexivity).
    rewrite Hx. simpl. apply IH. intros y Hy. apply Hm. right. assumption. }
  apply H. auto.
Qed.

(** X30.  [loadFavorites] treats a story it could not fetch as deleted:
    with storage answering and favourites stored, when every read of the
    remote store fails or finds nothing, as when the device is offline, the
    call removes all favourites from storage, shows no stories and sets no
    error message. *)
Theorem loadFavorites_prunes_unfetched env w showRefresh :
  fav_healthy env ->
  readable (fav_text w) ->
  favorites_of (fav_text w) <> [] ->
  nothing_fetched env ->
  exists w',
    loadFavorites showRefresh env w = (Fulfilled tt, w') /\
    fav_text w' = Some (stringify []) /\
    In (SetFavoriteStories []) (ui_calls w') /\
    In (SetFavorites []) (ui_calls w') /\
    forall message, In (SetError (Some message)) (ui_calls w') ->
                    In (SetError (Some message)) (ui_calls w).
Proof.
  intros H Hr Hne Hn.
  set (w0 := snd ((if showRefresh then ui (SetRefreshing true) else fav_ret tt) env w)).
  assert (E0 : (if showRefresh then ui (SetRefreshing true) else fav_ret tt) env w
               = (Fulfilled tt, w0)) by (destruct showRefresh; reflexivity).
  assert (T0 : fav_text w0 = fav_text w) by (destruct showRefresh; reflexivity).
  assert (U0 : forall m, In (SetError (Some m)) (ui_calls w0) ->
                         In (SetError (Some m)) (ui_calls w)).
  { intros m. subst w0. destruct showRefresh; simpl; [|auto].
    intros Hin. apply in_app_or in Hin. destruct Hin as [Hin|[Hin|[]]];
      [assumption | discriminate]. }
  unfold loadFavorites, fav_finally.
  unfold fav_catch at 1. unfold fav_bind at 1. rewrite E0.
  unfold fav_bind at 1. unfold ui at 1.
  unfold fav_bind at 1. unfold ui at 1.
  unfold fav_bind at 1.
  rewrite run_getFavorites; [|apply H | cbn [fav_text]; rewrite T0; exact Hr].
  cbn [fav_text fav_next fav_tick ui_calls]. rewrite T0.
  unfold fav_bind at 1. unfold ui at 1.
  cbn [fav_text fav_next fav_tick ui_calls].
  destruct (favorites_of (fav_text w)) as [|x ids] eqn:Eids; [destruct Hne; reflexivity|].
  cbn [List.length Nat.ltb Nat.leb].
  unfold fav_bind at 1. unfold getStoriesByIds, fav_catch at 1.
  match goal with
  | |- context [getStoriesByIds_loop ?l ?acc env ?w1] =>
      destruct (@getStoriesByIds_loop_nothing env l acc w1 Hn) as (w2 & E2 & T2 & U2 & _);
      rewrite E2
  end.
  cbn [fav_text ui_calls] in T2, U2.
  unfold fav_bind at 1. unfold ui at 1.
  cbn [map].
  assert (Eall : filter (fun id => negb (array_includes [] id)) (x :: ids) = x :: ids).
  { apply forallb_filter_id. apply forallb_forall. intros y _. reflexivity. }
  rewrite Eall. cbn [List.length Nat.ltb Nat.leb].
  unfold fav_bind at 1. unfold removeMultipleFavorites, fav_catch at 1.
  unfold fav_bind at 1.
  rewrite run_getFavorites; [|apply H | cbn [fav_text]; rewrite T2; exact Hr].
  cbn [fav_text]. rewrite T2, Eids, filter_excluding_itself.
  unfold fav_bind at 1, fav_setItem. rewrite H.
  unfold fav_ret, ui, fav_bind. destruct showRefresh; cbn.
  - eexists. split; [reflexivity|]. cbn. split; [reflexivity|].
    rewrite U2. split; [|split].
    + rewrite !in_app_iff. simpl. tauto.
    + rewrite !in_app_iff. simpl. tauto.
    + intros m. rewrite !in_app_iff. simpl. intros Hin. apply U0.
      repeat (destruct Hin as [Hin|Hin]); try discriminate; try contradiction.
      assumption.
  - eexists. split; [reflexivity|]. cbn. split; [reflexivity|].
    rewrite U2. split; [|split].
    + rewrite !in_app_iff. simpl. tauto.
    + rewrite !in_app_iff. simpl. tauto.
    + intros m. rewrite !in_app_iff. simpl. intros Hin. apply U0.
      repeat (destruct Hin as [Hin|Hin]); try discriminate; try contradiction.
      assumption.
Qed.

Lemma loadFavorites_prunes_unfetched_witness :
  fav_healthy unreachable_env /\
  readable (fav_text (fav_world_with ["a"; "b"])) /\
  favorites_of (fav_text (fav_world_with ["a"; "b"])) <> [] /\
  nothing_fetched unreachable_env /\
  exists w',
    loadFavorites false unreachable_env (fav_world_with ["a"; "b"]) = (Fulfilled tt, w') /\
    fav_text w' = Some (stringify []).
Proof.
  assert (H1 : fav_healthy unreachable_env) by (intros n; reflexivity).
  assert (H2 : readable (fav_text (fav_world_with ["a"; "b"])))
    by (intros error; discriminate).
  assert (H3 : favorites_of (fav_text (fav_world_with ["a"; "b"])) <> [])
    by discriminate.
  assert (H4 : nothing_fetched unreachable_env) by (intros n i d; discriminate).
  split; [exact H1|]. split; [exact H2|]. split; [exact H3|]. split; [exact H4|].
  destruct (@loadFavorites_prunes_unfetched unreachable_env (fav_world_with ["a"; "b"])
              false H1 H2 H3 H4) as (w' & E & T & _).
  exists w'. split; assumption.
Defined.
